(** * Code analyzer executive (Executive.cpp): shallow embedding and properties

    The translation unit [CodeAnalyzerEx/Analyzer/Executive.cpp] holds two
    classes of namespace [CodeAnalysis] and the program's [main]:

    - [AnalFileMgr], the application specific file handler that receives the
      directory and file notifications of a [FileMgr] search and stores the
      files found in the executive's file map;
    - [CodeAnalysisExecutive], which reads the command line, collects the
      source files, drives the parser over them in a fixed order of
      dialects, and reports the results.

    Collaborators that live in other translation units (the file system, the
    parser, the tokenizer, the loggers, the repository singleton) appear as
    fields of an environment record; what the executive does to them is
    recorded as a trace of events.

    Part I is the embedding: the data, the functions of the two classes and
    of [main], the vocabulary of the statements and a small installation to
    run them on. Part II holds the properties. *)

From Stdlib Require Import ZArith NArith List String Ascii Lia Bool Sorted.
From stdpp Require Import gmap strings list fin_maps pretty.

Open Scope string_scope.
Open Scope list_scope.

(** * Part I: the embedding *)

(** ** Names of the source's type aliases *)

Abbreviation Path := string (only parsing).
Abbreviation File := string (only parsing).
Abbreviation Dir := string (only parsing).
Abbreviation Pattern := string (only parsing).
Abbreviation Ext := string (only parsing).
Abbreviation Files := (list string) (only parsing).
Abbreviation FileMap := (gmap string (list string)) (only parsing).

(** ** [size_t] arithmetic

    [size_t] is an unsigned integer of [bits] bits; every operation is
    reduced modulo [2 ^ bits]. The width is left open (32 on a Win32 build,
    64 on an x64 build). *)

Definition size_wrap (bits : N) (z : Z) : N := Z.to_N (z mod 2 ^ Z.of_N bits).

Definition size_incr (bits : N) (n : N) : N := size_wrap bits (Z.of_N n + 1).

Definition size_sub (bits : N) (a b : N) : N := size_wrap bits (Z.of_N a - Z.of_N b).

Definition size_add (bits : N) (a b : N) : N := size_wrap bits (Z.of_N a + Z.of_N b).

(** ** [operator[]] of the standard maps

    [m[k]] on a [std::map] or [std::unordered_map] yields the value stored
    under [k]; when there is none it first stores a value-initialised one
    ([dflt]: the empty vector, the number zero). [subscript] is the value
    read, [subscripted] the map as the access leaves it. *)

Definition subscript {V : Type} (dflt : V) (m : gmap string V) (k : string) : V :=
  default dflt (m !! k).

Definition subscripted {V : Type} (dflt : V) (m : gmap string V) (k : string) : gmap string V :=
  match m !! k with
  | Some _ => m
  | None => <[k := dflt]> m
  end.

(** ** [std::string::find] and the helper [contains] *)

(** [find str text] is the index of the first occurrence of [text] in [str].
    [None] stands for [std::string::npos], the greatest [size_t], which no
    string length reaches. *)
Fixpoint find (str text : string) : option nat :=
  if String.prefix text str then Some 0
  else match str with
       | EmptyString => None
       | String _ rest => S <$> find rest text
       end.

(** [pos < str.length()] for a result of [find]; [npos] is below no length. *)
Definition below_length (pos : option nat) (str : string) : bool :=
  match pos with
  | Some p => (p <? String.length str)%nat
  | None => false
  end.

(** helper: is text a substring of str? *)
Definition contains (str text : string) : bool :=
  if below_length (find str text) str then true else false.

(** [text] occurs in [str]: some text before it, some after. *)
Definition occursIn (text str : string) : Prop :=
  exists before after : string, str = before +:+ text +:+ after.

(** [s] holds no dot, as the extension of a file name does. *)
Fixpoint dotFree (s : string) : bool :=
  match s with
  | EmptyString => true
  | String c rest => negb (Ascii.eqb c "."%char) && dotFree rest
  end.

(** ** [std::string::find_last_of] and the helper [removeExt] *)

(** [find_last_of c s] is the last position of [c] in [s], [None] for
    [npos]. *)
Fixpoint find_last_of (c : ascii) (s : string) : option nat :=
  match s with
  | EmptyString => None
  | String c' rest =>
      match find_last_of c rest with
      | Some pos => Some (S pos)
      | None => if Ascii.eqb c' c then Some 0 else None
      end
  end.

(** [name = name.substr(0, extStartIndex)]; a count of [npos] keeps the
    whole string. *)
Definition removeExt (name : string) : string :=
  match find_last_of "." name with
  | Some extStartIndex => substring 0 extStartIndex name
  | None => name
  end.

(** ** [std::stable_sort]

    Sorting with a comparison functor [comp], where elements that [comp]
    does not order keep their relative order. For a functor that is a
    strict weak ordering the result is determined by this; it is computed
    here by insertion. *)
Fixpoint stable_insert {A : Type} (comp : A -> A -> bool) (x : A) (l : list A) : list A :=
  match l with
  | [] => [x]
  | y :: rest => if comp y x then y :: stable_insert comp x rest else x :: l
  end.

Definition stable_sort {A : Type} (comp : A -> A -> bool) (l : list A) : list A :=
  fold_right (stable_insert comp) [] l.

(** * AnalFileMgr *)

Module AnalFileMgr.

(** What [FileMgr::search] tells its handler, one call at a time. *)
Inductive Notification :=
| NDir (d : Dir)
| NFile (f : File)
| NDone.

Record t := mk {
  path_ : Path;          (* FileMgr base: root of the search *)
  d_ : Dir;              (* directory of the most recent dir notification *)
  fileMap_ : FileMap;    (* the executive's map, held by reference *)
  numFiles_ : N;
  numDirs_ : N
}.

Section Handler.

Variable bits : N.
(** [FileSystem::Path::getExt], defined in the FileSystem package. *)
Variable getExt : string -> Ext.

(** initialize application specific FileMgr *)
Definition AnalFileMgr (path : Path) (fileMap : FileMap) : t :=
  {| path_ := path; d_ := ""; fileMap_ := fileMap; numFiles_ := 0; numDirs_ := 0 |}.

(** override of FileMgr::file(...) to store found files.
    [fileMap_[p].push_back(fqf)]: the vector under [p], empty when the
    pattern is new, grows by [fqf] at its end. *)
Definition file (f : File) (m : t) : t :=
  let fqf := d_ m +:+ "\" +:+ f in
  let ext := getExt fqf in
  let p := "*." +:+ ext in
  {| path_ := path_ m;
     d_ := d_ m;
     fileMap_ := <[p := subscript [] (fileMap_ m) p ++ [fqf]]> (fileMap_ m);
     numFiles_ := size_incr bits (numFiles_ m);
     numDirs_ := numDirs_ m |}.

(** override of FileMgr::dir(...) to save current dir *)
Definition dir (d : Dir) (m : t) : t :=
  {| path_ := path_ m;
     d_ := d;
     fileMap_ := fileMap_ m;
     numFiles_ := numFiles_ m;
     numDirs_ := size_incr bits (numDirs_ m) |}.

(** override of FileMgr::done(), not currently used *)
Definition done (m : t) : t := m.

Definition numFiles (m : t) : N := numFiles_ m.

Definition numDirs (m : t) : N := numDirs_ m.

(** One virtual call of the search into the handler. *)
Definition notify (m : t) (n : Notification) : t :=
  match n with
  | NDir d => dir d m
  | NFile f => file f m
  | NDone => done m
  end.

(** The handler's side of a whole search: the notifications in order. *)
Definition deliver (ns : list Notification) (m : t) : t := fold_left notify ns m.

(** *** Reading a notification sequence, for the statements *)

Fixpoint countFiles (ns : list Notification) : nat :=
  match ns with
  | [] => 0
  | NFile _ :: ns' => S (countFiles ns')
  | _ :: ns' => countFiles ns'
  end.

Fixpoint countDirs (ns : list Notification) : nat :=
  match ns with
  | [] => 0
  | NDir _ :: ns' => S (countDirs ns')
  | _ :: ns' => countDirs ns'
  end.

(** The paths a sequence files under pattern [p], when it starts in
    directory [d]: each file joined to the directory notified last. *)
Fixpoint filedUnder (p : Pattern) (d : Dir) (ns : list Notification) : Files :=
  match ns with
  | [] => []
  | NDir d' :: ns' => filedUnder p d' ns'
  | NFile f :: ns' =>
      let fqf := d +:+ "\" +:+ f in
      if decide (p = "*." +:+ getExt fqf)
      then fqf :: filedUnder p d ns'
      else filedUnder p d ns'
  | NDone :: ns' => filedUnder p d ns'
  end.

(** Number of files a map stores, over all its patterns. *)
Definition storedFiles (fm : FileMap) : nat :=
  map_fold (fun _ (fs : Files) n => length fs + n) 0 fm.

(** Every stored path sits under the pattern made of its own extension. *)
Definition keyedByExtension (fm : FileMap) : Prop :=
  forall (key : Pattern) (files : Files) (f : File),
    fm !! key = Some files -> In f files -> key = "*." +:+ getExt f.

End Handler.

(** A concrete extension function, for running the handler: the text after
    the last dot of the name. *)
Fixpoint afterLastDot (acc : option string) (s : string) : option string :=
  match s with
  | EmptyString => acc
  | String c rest =>
      if Ascii.eqb c "."%char then afterLastDot (Some rest) rest
      else afterLastDot acc rest
  end.

Definition sampleExt (s : string) : Ext := default "" (afterLastDot None s).

Definition sampleSearch : list Notification :=
  [NDir "C:\src"; NFile "a.h"; NFile "a.cpp"; NDir "C:\src\sub"; NFile "b.h"; NDone].

End AnalFileMgr.

(** * CodeAnalysisExecutive *)

Module Executive.

(** ** Data the executive shares with its collaborators *)

(** The two dialects this unit names ([Language::Cpp], [Language::CSharp]). *)
Inductive Language := Cpp | CSharp.

(** [Rslt], [Demo] and [Dbug] are [StaticLogger<0>], [<1>] and [<2>]. *)
Inductive Logger := Rslt | Demo | Dbug.

Inductive Stream := StdCout | LogStream (path : Path).

(** A token group as the tokenizer hands it to the rules. *)
Abbreviation SemiExp := (list string) (only parsing).

(** The fields of an AST node this unit reads. The line counts and the
    complexity are [size_t]. *)
#[warnings="-register-all"]
Inductive ASTNode := mkASTNode {
  type_ : string;
  name_ : string;
  package_ : string;
  startLineCount_ : N;
  endLineCount_ : N;
  complexity_ : N;
  children_ : list ASTNode
}.

(** What an attached file yields: the token groups [pParser_->next()]
    delivers until it returns false, and the tokenizer's line count then. *)
Record Source := mkSource {
  semiExps : list SemiExp;
  currentLineCount : N
}.

(** The repository's per-file context and the root of the tree. *)
Record Repository := mkRepository {
  package : string;
  language : Language;
  currentPath : Path;
  getGlobalScope : ASTNode
}.

(** Text sent to [std::cout] directly. *)
Inductive Console :=
| Usage                            (* showUsage() *)
| PathDoesNotExist (path : Path)
| ProcessingFile (shown : string)  (* showActivity *)
| BlankLine                        (* clearActivity *)
| UnknownOption (opt : ascii)
| Requirements                     (* DemonstraingRequirements() *)
| Caught (what : string).          (* the handler of main *)

(** Calls into the collaborators, in the order the executive makes them. *)
Inductive Event :=
| Cout (text : Console)
| Write (lg : Logger) (msg : string)
| Flush (lg : Logger)
| Start (lg : Logger)
| Stop (lg : Logger)
| AttachStream (lg : Logger) (s : Stream)
| SetPackage (name : string)             (* pRepo_->package() = ... *)
| SetLanguage (l : Language)             (* pRepo_->language() = ... *)
| SetCurrentPath (p : Path)              (* pRepo_->currentPath() = ... *)
| Attach (file : File) (opened : bool)   (* configure_.Attach(file) *)
| Parse (se : SemiExp)                   (* next() gave [se]; parse() *)
| RecordSloc (pkg : string) (slocs : N)  (* slocMap_[pkg] = slocs *)
| ComplexityEval                         (* complexityEval(root) *)
| DependencyTable (argv : list string)   (* TypeAnal::dependencyTable *)
| CallingPublisher
| GetChar.

Record Running := mkRunning {
  rsltRunning : bool;
  demoRunning : bool;
  dbugRunning : bool
}.

Definition running (lg : Logger) (r : Running) : bool :=
  match lg with
  | Rslt => rsltRunning r
  | Demo => demoRunning r
  | Dbug => dbugRunning r
  end.

Definition setRunning (lg : Logger) (b : bool) (r : Running) : Running :=
  match lg with
  | Rslt => mkRunning b (demoRunning r) (dbugRunning r)
  | Demo => mkRunning (rsltRunning r) b (dbugRunning r)
  | Dbug => mkRunning (rsltRunning r) (demoRunning r) b
  end.

(** The executive's members, the repository it points to, the loggers'
    state and the trace of calls made so far. *)
Record Exec := mkExec {
  path_ : Path;
  patterns_ : list Pattern;
  options_ : list ascii;
  fileMap_ : FileMap;
  slocMap_ : gmap string N;
  numFiles_ : N;
  numDirs_ : N;
  pRepo_ : Repository;
  loggers : Running;
  trace : list Event
}.

Definition with_path_ (v : Path) (e : Exec) : Exec :=
  mkExec v (patterns_ e) (options_ e) (fileMap_ e) (slocMap_ e)
         (numFiles_ e) (numDirs_ e) (pRepo_ e) (loggers e) (trace e).

Definition with_patterns_ (v : list Pattern) (e : Exec) : Exec :=
  mkExec (path_ e) v (options_ e) (fileMap_ e) (slocMap_ e)
         (numFiles_ e) (numDirs_ e) (pRepo_ e) (loggers e) (trace e).

Definition with_options_ (v : list ascii) (e : Exec) : Exec :=
  mkExec (path_ e) (patterns_ e) v (fileMap_ e) (slocMap_ e)
         (numFiles_ e) (numDirs_ e) (pRepo_ e) (loggers e) (trace e).

Definition with_fileMap_ (v : FileMap) (e : Exec) : Exec :=
  mkExec (path_ e) (patterns_ e) (options_ e) v (slocMap_ e)
         (numFiles_ e) (numDirs_ e) (pRepo_ e) (loggers e) (trace e).

Definition with_slocMap_ (v : gmap string N) (e : Exec) : Exec :=
  mkExec (path_ e) (patterns_ e) (options_ e) (fileMap_ e) v
         (numFiles_ e) (numDirs_ e) (pRepo_ e) (loggers e) (trace e).

Definition with_counts (files dirs : N) (e : Exec) : Exec :=
  mkExec (path_ e) (patterns_ e) (options_ e) (fileMap_ e) (slocMap_ e)
         files dirs (pRepo_ e) (loggers e) (trace e).

Definition with_pRepo_ (v : Repository) (e : Exec) : Exec :=
  mkExec (path_ e) (patterns_ e) (options_ e) (fileMap_ e) (slocMap_ e)
         (numFiles_ e) (numDirs_ e) v (loggers e) (trace e).

Definition with_loggers (v : Running) (e : Exec) : Exec :=
  mkExec (path_ e) (patterns_ e) (options_ e) (fileMap_ e) (slocMap_ e)
         (numFiles_ e) (numDirs_ e) (pRepo_ e) v (trace e).

(** Record one more call at the end of the trace. *)
Definition emit (ev : Event) (e : Exec) : Exec :=
  mkExec (path_ e) (patterns_ e) (options_ e) (fileMap_ e) (slocMap_ e)
         (numFiles_ e) (numDirs_ e) (pRepo_ e) (loggers e) (trace e ++ [ev]).

(** ** Characters and columns *)

Definition NL : string := String "010"%char EmptyString.
Definition CR : string := String "013"%char EmptyString.
Definition DQ : string := String "034"%char EmptyString.

(** [s[i]] on a C string: the terminating NUL at the end of the text. *)
Definition charAt (s : string) (i : nat) : ascii :=
  default "000"%char (String.get i s).

Definition spaces (n : nat) : string := string_of_list_ascii (repeat " "%char n).

(** [std::setw(w)] with [std::right]: fill on the left, never cut. *)
Definition setwRight (w : nat) (s : string) : string :=
  spaces (w - String.length s) +:+ s.

(** [std::setw(w)] with [std::left]: fill on the right, never cut. *)
Definition setwLeft (w : nat) (s : string) : string :=
  s +:+ spaces (w - String.length s).

(** The local lambda [trunc]: [in.substr(0, count)]. *)
Definition trunc (s : string) (count : nat) : string := substring 0 count s.

(** ** The collaborators defined in other translation units

    Each field tells what a call does when it returns. Whether a call of
    the analysis throws instead is told apart from this record, where the
    [try] block of [main] is embedded below. *)

Record Env := mkEnv {
  (** width of [size_t] *)
  bits : N;
  (** [FileSystem::Path::getExt], [getName], [getFullFileSpec] *)
  getExt : string -> Ext;
  getName : string -> string;
  getFullFileSpec : string -> Path;
  (** [FileSystem::Directory::exists] *)
  dirExists : Path -> bool;
  (** whether [configure_.Build()] returns a parser rather than [nullptr] *)
  Build : bool;
  (** [Repository::getInstance()] as the constructor finds it *)
  getInstance : Repository;
  (** the counters as the constructor leaves them, and the loggers at start *)
  numFiles0 : N;
  numDirs0 : N;
  loggers0 : Running;
  (** [configure_.Attach(file)]: [None] when the file cannot be opened,
      else what the tokenizer will read from it; the files do not change
      while the program runs *)
  openFile : File -> option Source;
  (** [pParser_->parse()]: the tree after the rules have seen one token
      group, in the repository's current context; the rules change the
      tree and nothing else of what the executive reads *)
  parse : Repository -> SemiExp -> ASTNode;
  (** [CodeAnalysis::complexityEval] *)
  complexityEval : ASTNode -> ASTNode;
  (** the order in which a range-for visits the unordered file map *)
  bucketOrder : FileMap -> list (Pattern * Files);
  (** the calls [FileMgr::search] makes for a root path and patterns *)
  search : Path -> list Pattern -> list AnalFileMgr.Notification;
  (** [pLogStrm_->good()] after opening the log file *)
  good : Path -> bool
}.

(** A constructor or function either returns or throws [std::exception]. *)
Inductive Result (A : Type) :=
| Ok (a : A)
| Throw (what : string).

Arguments Ok {A} a.
Arguments Throw {A} what.

(** ** Calls that may throw

    Inside the [try] block of [main] a call may throw [std::exception]
    instead of returning. The calls of the analysis are taken to be the ones
    that can: the directory search (between any two of its notifications),
    the attachment of a file, the parser's [next()] and [parse()], the
    complexity evaluation, the dependency analysis and the publisher. The
    loggers and the output streams return, as everywhere in this embedding. *)
Inductive Call :=
| CallSearch (delivered : nat)   (* fm.search(), after so many notifications *)
| CallAttach (file : File)       (* configure_.Attach(file) *)
| CallNext                       (* pParser_->next() *)
| CallParse (se : SemiExp)       (* pParser_->parse() *)
| CallComplexityEval             (* CodeAnalysis::complexityEval *)
| CallDependencyTable            (* ta.dependencyTable(argc, argv) *)
| CallCallingPublisher.          (* ta.callingPublisher() *)

(** A computation inside a [try] block: from the executive as it is, it
    returns a value or throws, and leaves the executive as it is then. *)
Definition Try (A : Type) : Type := Exec -> Result A * Exec.

Definition ret {A : Type} (a : A) : Try A := fun e => (Ok a, e).

Definition bind {A B : Type} (m : Try A) (k : A -> Try B) : Try B :=
  fun e =>
    match m e with
    | (Ok a, e') => k a e'
    | (Throw what, e') => (Throw what, e')
    end.

(** Statements that return. *)
Definition returns (f : Exec -> Exec) : Try unit := fun e => (Ok tt, f e).

Declare Scope try_scope.
Delimit Scope try_scope with try.
Notation "x <- m ;; k" := (bind m (fun x => k))
  (at level 100, m at next level, k at level 200, right associativity) : try_scope.
Notation "m ;; k" := (bind m (fun _ => k))
  (at level 100, k at level 200, right associativity) : try_scope.

(** A range-for whose body may throw. *)
Fixpoint forEach {A : Type} (l : list A) (body : A -> Try unit) : Try unit :=
  match l with
  | [] => ret tt
  | x :: rest => bind (body x) (fun _ => forEach rest body)
  end.

(** How the process ends: [main] returns a status, or an exception nobody
    catches reaches [std::terminate]. *)
Inductive Outcome :=
| Returned (status : Z)
| Terminated (what : string).


Inductive Phase := Headers | Implems | CSharps.

Section Program.

Variable env : Env.

(** initialize parser, get access to repository *)
Definition CodeAnalysisExecutive : Result Exec :=
  if Build env
  then Ok (mkExec "" [] [] ∅ ∅ (numFiles0 env) (numDirs0 env)
                  (getInstance env) (loggers0 env) [])
  else Throw "couldn't create parser".

(** usage message *)
Definition showUsage (e : Exec) : Exec := emit (Cout Usage) e.

(** show command line arguments *)
Definition showCommandLineArguments (argv : list string) (e : Exec) : Exec :=
  let argc := length argv in
  let out := NL +:+ "     Path: " +:+ DQ +:+ getFullFileSpec env (nth 1 argv "")
             +:+ DQ +:+ NL +:+ "     Args: " in
  let out := fold_left (fun out arg => out +:+ arg +:+ ", ")
                       (firstn (argc - 3) (skipn 2 argv)) out in
  let out := out +:+ nth (argc - 1) argv "" in
  emit (Flush Rslt) (emit (Write Rslt out) e).

(** One round of the loop over [argv[2..]]. *)
Definition readArgument (e : Exec) (arg : string) : Exec :=
  if Ascii.eqb (charAt arg 0) "/"%char
  then with_options_ (options_ e ++ [charAt arg 1]) e
  else with_patterns_ (patterns_ e ++ [arg]) e.

(** handle command line arguments *)
Definition ProcessCommandLine (argv : list string) (e : Exec) : bool * Exec :=
  let argc := length argv in
  if (argc <? 2)%nat then (false, showUsage e)
  else
    let e := with_path_ (getFullFileSpec env (nth 1 argv "")) e in
    if negb (dirExists env (path_ e))
    then (false, emit (Cout (PathDoesNotExist (path_ e))) e)
    else
      let e := fold_left readArgument (skipn 2 argv) e in
      if (length (patterns_ e) =? 0)%nat then (false, showUsage e)
      else (true, e).

(** returns path entered on command line *)
Definition getAnalysisPath (e : Exec) : Path := path_ e.

(** returns reference to FileMap *)
Definition getFileMap (e : Exec) : FileMap := fileMap_ e.

(** searches path for files matching specified patterns. The manager holds
    [fileMap_] by reference, so what it stores is the executive's map. *)
Definition getSourceFiles (e : Exec) : Exec :=
  let fm := AnalFileMgr.AnalFileMgr (path_ e) (fileMap_ e) in
  let fm := AnalFileMgr.deliver (bits env) (getExt env)
                                (search env (path_ e) (patterns_ e)) fm in
  with_counts (AnalFileMgr.numFiles fm) (AnalFileMgr.numDirs fm)
              (with_fileMap_ (AnalFileMgr.fileMap_ fm) e).

(** The inner loop of the three retrieval functions: [push_back] of every
    file of one map entry. *)
Definition pushFiles (dst src : Files) : Files :=
  fold_left (fun dst file => dst ++ [file]) src dst.

(** The outer loop, over the map's entries in the order the map yields
    them, starting from the cleared result vector. The vectors
    [cppHeaderFiles_], [cppImplemFiles_] and [csharpFiles_] are cleared and
    filled by their function alone and read through its result alone, so
    the functions below return them. *)
Definition retrieve (text : string) (items : list (Pattern * Files)) : Files :=
  fold_left (fun dst item =>
               if contains (fst item) text then pushFiles dst (snd item) else dst)
            items [].

(** retrieve from fileMap all files matching *.h *)
Definition cppHeaderFiles (e : Exec) : Files :=
  retrieve "*.h" (bucketOrder env (fileMap_ e)).

(** retrieve from fileMap all files matching *.cpp *)
Definition cppImplemFiles (e : Exec) : Files :=
  retrieve "*.cpp" (bucketOrder env (fileMap_ e)).

(** retrieve from fileMap all files matching *.cs *)
Definition csharpFiles (e : Exec) : Files :=
  retrieve "*.cs" (bucketOrder env (fileMap_ e)).

(** report number of Source Lines Of Code (SLOCs): [return slocMap_[file]] *)
Definition fileSLOCs (file : File) (e : Exec) : N * Exec :=
  (subscript 0%N (slocMap_ e) file,
   with_slocMap_ (subscripted 0%N (slocMap_ e) file) e).

(** report number of files processed *)
Definition numFiles (e : Exec) : N := numFiles_ e.

(** report number of directories searched *)
Definition numDirs (e : Exec) : N := numDirs_ e.

(** show processing activity *)
Definition showActivity (file : File) (e : Exec) : Exec :=
  if running Rslt (loggers e)
  then emit (Cout (ProcessingFile (setwLeft 80 (trunc file 80)))) e
  else e.

Definition clearActivity (e : Exec) : Exec :=
  if running Rslt (loggers e) then emit (Cout BlankLine) e else e.

(** *** Writes to the repository's per-file context *)

Definition assignPackage (name : string) (e : Exec) : Exec :=
  let r := pRepo_ e in
  emit (SetPackage name)
       (with_pRepo_ (mkRepository name (language r) (currentPath r) (getGlobalScope r)) e).

Definition assignLanguage (l : Language) (e : Exec) : Exec :=
  let r := pRepo_ e in
  emit (SetLanguage l)
       (with_pRepo_ (mkRepository (package r) l (currentPath r) (getGlobalScope r)) e).

Definition assignCurrentPath (p : Path) (e : Exec) : Exec :=
  let r := pRepo_ e in
  emit (SetCurrentPath p)
       (with_pRepo_ (mkRepository (package r) (language r) p (getGlobalScope r)) e).

Definition assignGlobalScope (root : ASTNode) (e : Exec) : Exec :=
  let r := pRepo_ e in
  with_pRepo_ (mkRepository (package r) (language r) (currentPath r) root) e.

Definition setLanguage (file : File) (e : Exec) : Exec :=
  let ext := getExt env file in
  if String.eqb ext "h" || String.eqb ext "cpp" then assignLanguage Cpp e
  else if String.eqb ext "cs" then assignLanguage CSharp e
  else e.

(** *** parses code and saves results in AbstrSynTree *)

(** One round of [while (pParser_->next()) pParser_->parse();]. *)
Definition parseNext (e : Exec) (se : SemiExp) : Exec :=
  emit (Parse se) (assignGlobalScope (parse env (pRepo_ e) se) e).

(** [slocMap_[pRepo_->package()] = slocs] *)
Definition recordSlocs (slocs : N) (e : Exec) : Exec :=
  let pkg := package (pRepo_ e) in
  emit (RecordSloc pkg slocs) (with_slocMap_ (<[pkg := slocs]> (slocMap_ e)) e).

Definition couldNotOpen (file : File) : string :=
  NL +:+ "  could not open file " +:+ file +:+ NL.

Definition openingFile (pkg : string) : string :=
  NL +:+ NL +:+ "  opening file " +:+ DQ +:+ pkg +:+ DQ.

(** The language each loop assigns. *)
Definition phaseLanguage (ph : Phase) : Language :=
  match ph with
  | Headers => Cpp
  | Implems => Cpp
  | CSharps => CSharp
  end.

(** The flushes after the warning, before [continue]: the first and the
    second loop flush [Rslt], the third does not. *)
Definition flushAfterWarning (ph : Phase) (e : Exec) : Exec :=
  match ph with
  | Headers => emit (Flush Rslt) e
  | Implems => emit (Flush Rslt) e
  | CSharps => e
  end.

(** The flushes after a successful attach: only the first loop has them. *)
Definition flushAfterAttach (ph : Phase) (e : Exec) : Exec :=
  match ph with
  | Headers => emit (Flush Dbug) (emit (Flush Demo) (emit (Flush Rslt) e))
  | Implems => e
  | CSharps => e
  end.

(** The body of the three loops of [processSourceCode], for one file. *)
Definition processFile (ph : Phase) (showProc : bool) (e : Exec) (file : File) : Exec :=
  let e := if showProc then showActivity file e else e in
  let e := assignPackage (getName env file) e in
  match openFile env file with
  | None =>
      let e := emit (Attach file false) e in
      let e := emit (Write Rslt (couldNotOpen file)) e in
      flushAfterWarning ph e
  | Some src =>
      let e := emit (Attach file true) e in
      let e := flushAfterAttach ph e in
      let e := if negb (running Rslt (loggers e))
               then emit (Write Demo (openingFile (package (pRepo_ e)))) e else e in
      let e := if negb (running Demo (loggers e)) && negb (running Rslt (loggers e))
               then emit (Write Dbug (openingFile (package (pRepo_ e)))) e else e in
      let e := assignLanguage (phaseLanguage ph) e in
      let e := assignCurrentPath file e in
      let e := fold_left parseNext (semiExps src) e in
      let slocs := currentLineCount src in
      recordSlocs slocs e
  end.

Definition processSourceCode (showProc : bool) (e : Exec) : Exec :=
  let e := fold_left (processFile Headers showProc) (cppHeaderFiles e) e in
  let e := fold_left (processFile Implems showProc) (cppImplemFiles e) e in
  let e := fold_left (processFile CSharps showProc) (csharpFiles e) e in
  let e := if showProc then clearActivity e else e in
  emit (Write Rslt (CR +:+ "  " +:+ setwLeft 77 " ")) e.

(** evaluate complexities of each AST node *)
Definition complexityAnalysis (e : Exec) : Exec :=
  let pGlobalScope := getGlobalScope (pRepo_ e) in
  emit ComplexityEval (assignGlobalScope (complexityEval env pGlobalScope) e).

(** *** display single line for displayMetrics() *)

(** [pNode->endLineCount_ - pNode->startLineCount_ + 1], in [size_t]. *)
Definition sizeInLines (pNode : ASTNode) : N :=
  size_add (bits env)
           (size_sub (bits env) (endLineCount_ pNode) (startLineCount_ pNode)) 1.

(** The text [displayMetricsLine] builds in [out]. *)
Definition metricsLine (file : File) (pNode : ASTNode) : string :=
  let out := NL +:+ " " in
  let out := out +:+ setwRight 25 (trunc file 23) in
  let out := out +:+ setwRight 12 (type_ pNode) in
  let out := out +:+ setwRight 35 (trunc (name_ pNode) 33) in
  let out := out +:+ setwRight 8 (pretty (startLineCount_ pNode)) in
  let out := out +:+ setwRight 8 (pretty (sizeInLines pNode)) in
  let out := out +:+ setwRight 8 (pretty (complexity_ pNode)) in
  out.

Definition displayMetricsLine (file : File) (pNode : ASTNode) (e : Exec) : Exec :=
  emit (Write Rslt (metricsLine file pNode)) e.

(** *** helper functions for managing application's logging *)

Definition start (lg : Logger) (e : Exec) : Exec :=
  emit (Start lg) (with_loggers (setRunning lg true (loggers e)) e).

Definition stop (lg : Logger) (e : Exec) : Exec :=
  emit (Stop lg) (with_loggers (setRunning lg false (loggers e)) e).

Definition attach (s : Stream) (e : Exec) : Exec :=
  emit (AttachStream Dbug s) (emit (AttachStream Demo s) (emit (AttachStream Rslt s) e)).

(** open file stream for logging *)
Definition setLogFile (file : File) (e : Exec) : Exec :=
  let path := getAnalysisPath e +:+ "\" +:+ file in
  if good env path then attach (LogStream path) e
  else emit (Write Rslt (NL +:+ "  couldn't open logFile.txt for writing")) e.

Definition knownOption (opt : ascii) : bool :=
  negb (negb (Ascii.eqb opt "a") && negb (Ascii.eqb opt "b") && negb (Ascii.eqb opt "d")
        && negb (Ascii.eqb opt "f") && negb (Ascii.eqb opt "m") && negb (Ascii.eqb opt "r")
        && negb (Ascii.eqb opt "s")).

(** One round of the loop of [setDisplayModes]: the [switch] on [opt]. *)
Definition setDisplayMode (e : Exec) (opt : ascii) : Exec :=
  if Ascii.eqb opt "r" then start Rslt e
  else if Ascii.eqb opt "d" then start Demo e
  else if Ascii.eqb opt "b" then start Dbug e
  else if Ascii.eqb opt "f" then setLogFile "logFile.txt" e
  else if knownOption opt then e
  else emit (Cout (UnknownOption opt)) e.

(** display analysis info based on command line options *)
Definition setDisplayModes (e : Exec) : Exec :=
  fold_left setDisplayMode (options_ e) e.

Definition startLogger (out : Stream) (e : Exec) : Exec :=
  setDisplayModes (attach out e).

Definition flushLogger (e : Exec) : Exec :=
  emit (Flush Dbug) (emit (Flush Demo) (emit (Flush Rslt) e)).

Definition stopLogger (e : Exec) : Exec :=
  stop Dbug (stop Demo (stop Rslt (flushLogger e))).

(** *** The analysis inside the [try] block

    [throws t c] tells whether the call [c], made when the calls of [t] have
    returned, throws, and what. A call that throws leaves no event: the
    trace holds the calls that returned. The functions above are what these
    do when every call returns. *)
Variable throws : list Event -> Call -> option string.

Definition call (c : Call) : Try unit :=
  fun e =>
    match throws (trace e) c with
    | Some what => (Throw what, e)
    | None => (Ok tt, e)
    end.

Local Open Scope try_scope.

(** [fm.search()]: the manager stores each file through its reference to
    the executive's map, so what was stored before a throw stays. *)
Fixpoint trySearch (ns : list AnalFileMgr.Notification) (delivered : nat)
         (fm : AnalFileMgr.t) : Try AnalFileMgr.t :=
  match ns with
  | [] => call (CallSearch delivered) ;; ret fm
  | n :: rest =>
      call (CallSearch delivered) ;;
      let fm := AnalFileMgr.notify (bits env) (getExt env) fm n in
      returns (with_fileMap_ (AnalFileMgr.fileMap_ fm)) ;;
      trySearch rest (S delivered) fm
  end.

(** [getSourceFiles()] *)
Definition tryGetSourceFiles : Try unit :=
  fun e =>
    (fm <- trySearch (search env (path_ e) (patterns_ e)) 0
                     (AnalFileMgr.AnalFileMgr (path_ e) (fileMap_ e)) ;;
     returns (with_counts (AnalFileMgr.numFiles fm) (AnalFileMgr.numDirs fm))) e.

(** The body of the three loops of [processSourceCode], for one file. *)
Definition tryProcessFile (ph : Phase) (showProc : bool) (file : File) : Try unit :=
  returns (fun e => if showProc then showActivity file e else e) ;;
  returns (assignPackage (getName env file)) ;;
  call (CallAttach file) ;;
  match openFile env file with
  | None =>
      returns (emit (Attach file false)) ;;
      returns (emit (Write Rslt (couldNotOpen file))) ;;
      returns (flushAfterWarning ph)
  | Some src =>
      returns (emit (Attach file true)) ;;
      returns (flushAfterAttach ph) ;;
      returns (fun e => if negb (running Rslt (loggers e))
                        then emit (Write Demo (openingFile (package (pRepo_ e)))) e
                        else e) ;;
      returns (fun e => if negb (running Demo (loggers e)) && negb (running Rslt (loggers e))
                        then emit (Write Dbug (openingFile (package (pRepo_ e)))) e
                        else e) ;;
      returns (assignLanguage (phaseLanguage ph)) ;;
      returns (assignCurrentPath file) ;;
      forEach (semiExps src)
              (fun se => call CallNext ;; call (CallParse se) ;;
                         returns (fun e => parseNext e se)) ;;
      call CallNext ;;
      returns (recordSlocs (currentLineCount src))
  end.

(** [processSourceCode(showProc)] *)
Definition tryProcessSourceCode (showProc : bool) : Try unit :=
  (fun e => forEach (cppHeaderFiles e) (tryProcessFile Headers showProc) e) ;;
  (fun e => forEach (cppImplemFiles e) (tryProcessFile Implems showProc) e) ;;
  (fun e => forEach (csharpFiles e) (tryProcessFile CSharps showProc) e) ;;
  returns (fun e => if showProc then clearActivity e else e) ;;
  returns (emit (Write Rslt (CR +:+ "  " +:+ setwLeft 77 " "))).

(** [complexityAnalysis()] *)
Definition tryComplexityAnalysis : Try unit :=
  call CallComplexityEval ;; returns complexityAnalysis.

(** *** entry point of the application

    The executive is constructed before the [try] block, so an exception
    of its constructor is caught by nobody. Inside the block, [Some 1] is
    the [return 1] after a rejected command line and [None] the end of the
    block, from where [main] goes on to its [return 0]. *)
Definition tryBlock (argv : list string) : Try (option Z) :=
  fun exec =>
    let '(succeeded, exec) := ProcessCommandLine argv exec in
    if negb succeeded then (Ok (Some 1%Z), exec)
    else
      (returns setDisplayModes ;;
       returns (startLogger StdCout) ;;
       returns (showCommandLineArguments argv) ;;
       returns (emit (Write Rslt NL)) ;;
       tryGetSourceFiles ;;
       tryProcessSourceCode true ;;
       tryComplexityAnalysis ;;
       returns flushLogger ;;
       returns (emit (Write Rslt NL)) ;;
       returns stopLogger ;;
       call CallDependencyTable ;;
       returns (emit (DependencyTable argv)) ;;
       call CallCallingPublisher ;;
       returns (emit CallingPublisher) ;;
       returns (emit (Cout Requirements)) ;;
       returns (emit GetChar) ;;
       ret None) exec.

Local Close Scope try_scope.

Definition main (argv : list string) : Outcome * list Event :=
  match CodeAnalysisExecutive with
  | Throw what => (Terminated what, [])
  | Ok exec =>
      match tryBlock argv exec with
      | (Ok (Some status), exec) => (Returned status, trace exec)
      | (Ok None, exec) => (Returned 0, trace exec)
      | (Throw except, exec) =>
          let exec := flushLogger exec in
          let exec := emit (Cout (Caught except)) exec in
          let exec := stopLogger exec in
          (Returned 1, trace exec)
      end
  end.

(** ** Reading the trace, for the statements *)

(** The files a loop of [processSourceCode] runs over. *)
Definition phaseFiles (ph : Phase) (e : Exec) : Files :=
  match ph with
  | Headers => cppHeaderFiles e
  | Implems => cppImplemFiles e
  | CSharps => csharpFiles e
  end.

(** The calls one round of a loop makes for [file], from the activity line
    to the line count (or to the warning), given the loggers' state. *)
Definition fileEvents (ph : Phase) (showProc : bool) (lg : Running) (file : File)
  : list Event :=
  (if showProc && running Rslt lg
   then [Cout (ProcessingFile (setwLeft 80 (trunc file 80)))] else [])
  ++ [SetPackage (getName env file)]
  ++ match openFile env file with
     | None =>
         [Attach file false; Write Rslt (couldNotOpen file)]
         ++ match ph with CSharps => [] | _ => [Flush Rslt] end
     | Some src =>
         [Attach file true]
         ++ match ph with Headers => [Flush Rslt; Flush Demo; Flush Dbug] | _ => [] end
         ++ (if negb (running Rslt lg)
             then [Write Demo (openingFile (getName env file))] else [])
         ++ (if negb (running Demo lg) && negb (running Rslt lg)
             then [Write Dbug (openingFile (getName env file))] else [])
         ++ [SetLanguage (phaseLanguage ph); SetCurrentPath file]
         ++ map Parse (semiExps src)
         ++ [RecordSloc (getName env file) (currentLineCount src)]
     end.

(** What [processSourceCode] does after its three loops. *)
Definition closingEvents (showProc : bool) (lg : Running) : list Event :=
  (if showProc && running Rslt lg then [Cout BlankLine] else [])
  ++ [Write Rslt (CR +:+ "  " +:+ setwLeft 77 " ")].

Definition isParse (ev : Event) : bool :=
  match ev with Parse _ => true | _ => false end.

Definition isRecordSloc (ev : Event) : bool :=
  match ev with RecordSloc _ _ => true | _ => false end.

Definition isSetPackage (ev : Event) : bool :=
  match ev with SetPackage _ => true | _ => false end.

Definition isSetLanguage (ev : Event) : bool :=
  match ev with SetLanguage _ => true | _ => false end.

Definition isSetCurrentPath (ev : Event) : bool :=
  match ev with SetCurrentPath _ => true | _ => false end.

(** A call that belongs to the processing of a source file. *)
Definition isFileEvent (ev : Event) : bool :=
  match ev with
  | Attach _ _ | Parse _ | RecordSloc _ _
  | SetPackage _ | SetLanguage _ | SetCurrentPath _ => true
  | _ => false
  end.

(** One of the two passes over the finished tree. *)
Definition isPass (ev : Event) : bool :=
  match ev with ComplexityEval | DependencyTable _ => true | _ => false end.

Definition occurrences (P : Event -> bool) (evs : list Event) : nat :=
  length (List.filter P evs).

(** What [e'] keeps of [e]: everything but the repository, the line counts
    and the trace. *)
Definition sameSettings (e e' : Exec) : Prop :=
  path_ e' = path_ e /\ patterns_ e' = patterns_ e /\ options_ e' = options_ e /\
  fileMap_ e' = fileMap_ e /\ numFiles_ e' = numFiles_ e /\ numDirs_ e' = numDirs_ e /\
  loggers e' = loggers e.

(** The tree the parse loop builds from [root] in a fixed context. *)
Definition parsedTree (pkg : string) (l : Language) (p : Path) (ses : list SemiExp)
  (root : ASTNode) : ASTNode :=
  fold_left (fun root se => parse env (mkRepository pkg l p root) se) ses root.

(** Every file sits under the pattern made of its own extension, as
    [AnalFileMgr::file] stores it. *)
Definition storedByExtension (items : list (Pattern * Files)) : Prop :=
  forall (key : Pattern) (files : Files) (file : File),
    In (key, files) items -> In file files -> key = "*." +:+ getExt env file.

(** [argv[i][0] == '/'] *)
Definition isOption (arg : string) : bool := Ascii.eqb (charAt arg 0) "/"%char.

Definition isPattern (arg : string) : bool := negb (isOption arg).

(** The executive as [main] has it when [processSourceCode] is called. *)
Definition sourcesCollected (argv : list string) (exec : Exec) : Exec :=
  getSourceFiles
    (emit (Write Rslt NL)
       (showCommandLineArguments argv (startLogger StdCout (setDisplayModes exec)))).

(** What [main] does between the two passes, and after the second. *)
Definition betweenPasses : list Event :=
  [Flush Rslt; Flush Demo; Flush Dbug; Write Rslt NL;
   Flush Rslt; Flush Demo; Flush Dbug; Stop Rslt; Stop Demo; Stop Dbug].

Definition afterPasses : list Event := [CallingPublisher; Cout Requirements; GetChar].

Definition isComplexityEval (ev : Event) : bool :=
  match ev with ComplexityEval => true | _ => false end.

Definition isDependencyTable (ev : Event) : bool :=
  match ev with DependencyTable _ => true | _ => false end.

(** [e'] has the trace of [e] and then calls that all satisfy [P]. *)
Definition addsOnly (P : Event -> bool) (e e' : Exec) : Prop :=
  exists evs : list Event, trace e' = trace e ++ evs /\ forallb P evs = true.

(** Neither a pass nor a call that belongs to a source file. *)
Definition isSetup (ev : Event) : bool := negb (isPass ev) && negb (isFileEvent ev).

(** ** Further vocabulary for the statements *)

Definition isAttach (ev : Event) : bool :=
  match ev with Attach _ _ => true | _ => false end.

(** The call of [configure_.Attach] for [file], with its result. *)
Definition attachOf (file : File) : Event :=
  Attach file (match openFile env file with Some _ => true | None => false end).

(** The line count table after a round for [file]: a file that opens
    stores its count under its name, another one stores nothing. *)
Definition recordFile (m : gmap string N) (file : File) : gmap string N :=
  match openFile env file with
  | Some src => <[getName env file := currentLineCount src]> m
  | None => m
  end.

Definition recordedSlocs (files : Files) (m : gmap string N) : gmap string N :=
  fold_left recordFile files m.

(** All the files [processSourceCode] goes through, in its order. *)
Definition processedFiles (e : Exec) : Files :=
  cppHeaderFiles e ++ cppImplemFiles e ++ csharpFiles e.

(** The calls one round of [setDisplayModes] makes for [opt], when the
    analysis path is [path]. *)
Definition modeEvents (path : Path) (opt : ascii) : list Event :=
  if Ascii.eqb opt "r" then [Start Rslt]
  else if Ascii.eqb opt "d" then [Start Demo]
  else if Ascii.eqb opt "b" then [Start Dbug]
  else if Ascii.eqb opt "f" then
    let file := path +:+ "\" +:+ "logFile.txt" in
    if good env file
    then [AttachStream Rslt (LogStream file); AttachStream Demo (LogStream file);
          AttachStream Dbug (LogStream file)]
    else [Write Rslt (NL +:+ "  couldn't open logFile.txt for writing")]
  else if knownOption opt then []
  else [Cout (UnknownOption opt)].

(** The loggers that a list of options starts. *)
Definition startedBy (opts : list ascii) (r : Running) : Running :=
  mkRunning (rsltRunning r || existsb (fun opt => Ascii.eqb opt "r") opts)
            (demoRunning r || existsb (fun opt => Ascii.eqb opt "d") opts)
            (dbugRunning r || existsb (fun opt => Ascii.eqb opt "b") opts).



(** ** The dialects, for the statements *)

(** The text with which the extension of a file of the loop begins. *)
Definition phaseExt (ph : Phase) : string :=
  match ph with
  | Headers => "h"
  | Implems => "cpp"
  | CSharps => "cs"
  end.

(** The files of a dialect among [files], in their order. *)
Definition ofDialect (ph : Phase) (files : Files) : Files :=
  List.filter (fun file => String.prefix (phaseExt ph) (getExt env file)) files.

(** ** Vocabulary for runs that may end in the handler *)

(** The calls of [main]'s handler for an exception [what]. *)
Definition caught (what : string) : list Event :=
  [Flush Rslt; Flush Demo; Flush Dbug; Cout (Caught what);
   Flush Rslt; Flush Demo; Flush Dbug; Stop Rslt; Stop Demo; Stop Dbug].

(** No call throws. *)
Definition quiet : Prop := forall (t : list Event) (c : Call), throws t c = None.

(** Some call throws [what]. *)
Definition thrown (what : string) : Prop :=
  exists (t : list Event) (c : Call), throws t c = Some what.

Definition noPass (ev : Event) : bool := negb (isPass ev).

(** However [m] ends, it has made only calls that satisfy [P]; when it
    returns, the executive is as [f] leaves it; when it throws, it throws
    what a call threw. *)
Definition behaves {A : Type} (P : Event -> bool) (m : Try A) (f : Exec -> Exec) : Prop :=
  forall e : Exec,
    addsOnly P e (snd (m e)) /\
    match fst (m e) with
    | Ok _ => snd (m e) = f e
    | Throw what => thrown what
    end.

End Program.

(** ** The displays

    The functions that show the results of the analysis. [Utils::title]
    and [Utils::sTitle] are defined in another translation unit, and so are
    the member function [show()] of a tree node and its field [path_]. *)

(** [std::string::npos], the greatest [size_t]. *)
Definition npos (bits : N) : N := size_wrap bits (-1).

(** [temp[i] = c], for [i] below the length. *)
Fixpoint setChar (s : string) (i : nat) (c : ascii) : string :=
  match s, i with
  | EmptyString, _ => EmptyString
  | String _ rest, 0 => String c rest
  | String x rest, S i' => String x (setChar rest i' c)
  end.

(** *** comparison functor for sorting SLOC display

    [pos + 1] is computed in [size_t] like [temp.size() - 1]; the guard
    keeps it below the length. *)
Definition ChangeFirstCharOfExt (bits : N) (fileName : string) : string :=
  let temp := fileName in
  let pos := match find_last_of "." temp with
             | Some i => N.of_nat i
             | None => npos bits
             end in
  if (pos <? size_sub bits (N.of_nat (String.length temp)) 1)%N then
    let next := N.to_nat (size_add bits pos 1) in
    if Ascii.eqb (charAt temp next) "h" then setChar temp next "a" else temp
  else temp.

Definition compFiles (bits : N) (fileName1 fileName2 : string) : bool :=
  String.ltb (ChangeFirstCharOfExt bits fileName1) (ChangeFirstCharOfExt bits fileName2).

(** An extension as [compFiles] reads it: a leading h counts as an a. *)
Definition headerFirst (ext : string) : string :=
  match ext with
  | String c rest => if Ascii.eqb c "h" then String "a" rest else ext
  | EmptyString => EmptyString
  end.

(** The function-local statics of [TreeWalk]: they keep their values from
    one call to the next. *)
Module Static.

Record t := mk {
  path : string;
  indentLevel : N
}.

End Static.

(** Several calls in a row. *)
Definition emits (evs : list Event) (e : Exec) : Exec :=
  fold_left (fun e ev => emit ev e) evs e.

(** [m[key] = v] on a [std::map] ordered by the functor [comp], kept as the
    list of its entries in order. A stored key that [comp] puts neither
    before nor after [key] is the same key to the map: its entry takes the
    value and keeps the key it has. *)
Fixpoint assign {V : Type} (comp : string -> string -> bool) (key : string) (v : V)
         (m : list (string * V)) : list (string * V) :=
  match m with
  | [] => [(key, v)]
  | (k, v') :: rest =>
      if comp k key then (k, v') :: assign comp key v rest
      else if comp key k then (key, v) :: m
      else (k, v) :: rest
  end.

(** Neither key comes before the other. *)
Definition unordered (comp : string -> string -> bool) (a b : string) : Prop :=
  comp a b = false /\ comp b a = false.

Section Displays.

Variable env : Env.

(** [pItem->show()] and [pItem->path_] *)
Variable show : ASTNode -> string.
Variable path_of : ASTNode -> Path.

(** the calls [Utils::title(text)] and [Utils::sTitle(text, offset, width)]
    make *)
Variable title : string -> list Event.
Variable sTitle : string -> nat -> nat -> list Event.

(** *** comparison functors for sorting FileToNodeCollection *)

Definition CompExts (first second : File * ASTNode) : bool :=
  String.ltb (getExt env (fst second)) (getExt env (fst first)).

Definition CompNames (first second : File * ASTNode) : bool :=
  let fnm := removeExt (getName env (fst first)) in
  let snm := removeExt (getName env (fst second)) in
  String.ltb fnm snm.

(** *** walk tree of element nodes

    [TreeWalk<ASTNode>]; the recursive calls leave [details] at its default
    [false]. *)
Fixpoint TreeWalk (pItem : ASTNode) (details : bool) (s : Static.t * Exec) {struct pItem}
  : Static.t * Exec :=
  let '(st, e) := s in
  let '(st, e) :=
    if negb (String.eqb (Static.path st) (path_of pItem)) && details
    then (Static.mk (path_of pItem) (Static.indentLevel st),
          emit (Write Rslt (NL +:+ path_of pItem)) e)
    else (st, e) in
  let out := NL +:+ "  "
             +:+ spaces (N.to_nat (size_wrap (bits env) (2 * Z.of_N (Static.indentLevel st))))
             +:+ show pItem in
  let e := emit (Write Rslt out) e in
  let st := Static.mk (Static.path st) (size_incr (bits env) (Static.indentLevel st)) in
  let '(st, e) :=
    fold_left (fun s child => TreeWalk child false s) (children_ pItem) (st, e) in
  (Static.mk (Static.path st) (size_sub (bits env) (Static.indentLevel st) 1), e).

(** display the AbstrSynTree build in processSourceCode() *)
Definition displayAST (s : Static.t * Exec) : Static.t * Exec :=
  let '(st, e) := s in
  let e := flushLogger e in
  let pGlobalScope := getGlobalScope (pRepo_ e) in
  let e := emits (title "Abstract Syntax Tree") e in
  let '(st, e) := TreeWalk pGlobalScope false (st, e) in
  (st, emit (Write Rslt NL) e).

(** The nodes of a tree in the order of a depth-first walk from the left,
    each with its depth. *)
Fixpoint preorder (depth : N) (pItem : ASTNode) : list (N * ASTNode) :=
  (depth, pItem) :: flat_map (preorder (depth + 1)) (children_ pItem).

(** The line of a node: two blanks, two more for each level, and what the
    node shows. *)
Definition walkLine (item : N * ASTNode) : Event :=
  Write Rslt (NL +:+ "  " +:+ spaces (2 * N.to_nat (fst item)) +:+ show (snd item)).

(** No indentation of the walk leaves the range of [size_t]. *)
Definition fits (items : list (N * ASTNode)) : Prop :=
  List.Forall (fun item => (2 * fst item < 2 ^ bits env)%N) items.

(** What a walk without details does. *)
Definition walksPlainly (pItem : ASTNode) : Prop :=
  forall (st : Static.t) (e : Exec),
    fits (preorder (Static.indentLevel st) pItem) ->
    TreeWalk pItem false (st, e)
    = (st, emits (map walkLine (preorder (Static.indentLevel st) pItem)) e).

(** *** show sizes of all the files processed *)

(** One round of the inner loop: [fileColl[file] = slocMap_[fileName]]. *)
Definition collectSloc (s : Exec * list (File * N)) (file : File) : Exec * list (File * N) :=
  let '(e, fileColl) := s in
  let fileName := getName env file in
  (with_slocMap_ (subscripted 0%N (slocMap_ e) fileName) e,
   assign (compFiles (bits env)) file (subscript 0%N (slocMap_ e) fileName) fileColl).

(** One round of the loop over [fileColl]. *)
Definition writeSloc (s : Exec * N) (fitem : File * N) : Exec * N :=
  let '(e, slocCount) := s in
  let out := NL +:+ "  " +:+ setwRight 8 (pretty (snd fitem)) +:+ " : " +:+ fst fitem in
  (emit (Write Rslt out) e, size_add (bits env) slocCount (snd fitem)).

Definition displaySlocs (e : Exec) : Exec :=
  let e := flushLogger e in
  let e := emits (sTitle "File Size - Source Lines of Code" 3 92) e in
  let slocCount := 0%N in
  let '(e, fileColl) :=
    fold_left (fun s item => fold_left collectSloc (snd item) s)
              (bucketOrder env (fileMap_ e)) (e, []) in
  let '(e, slocCount) := fold_left writeSloc fileColl (e, slocCount) in
  let out := NL +:+ NL +:+ "      Total line count = " +:+ pretty slocCount +:+ NL in
  let e := emit (Write Rslt out) e in
  emit (Write Rslt NL) e.

(** The files of the file map, in the order in which the map yields them. *)
Definition storedInOrder (e : Exec) : Files :=
  flat_map snd (bucketOrder env (fileMap_ e)).

(** The collection that the first loop builds from [files] when the line
    counts are read from [slocs]. *)
Definition collected (slocs : gmap string N) (files : Files) (fileColl : list (File * N))
  : list (File * N) :=
  fold_left (fun fileColl file =>
               assign (compFiles (bits env)) file
                      (subscript 0%N slocs (getName env file)) fileColl)
            files fileColl.

(** The line count table once [slocMap_[name]] was evaluated for [names]. *)
Definition looked (names : list string) (slocs : gmap string N) : gmap string N :=
  fold_left (fun slocs name => subscripted 0%N slocs name) names slocs.

(** The line of an entry, and the line of the total. *)
Definition slocLine (fitem : File * N) : Event :=
  Write Rslt (NL +:+ "  " +:+ setwRight 8 (pretty (snd fitem)) +:+ " : " +:+ fst fitem).

Definition totalLine (fileColl : list (File * N)) : Event :=
  Write Rslt (NL +:+ NL +:+ "      Total line count = "
              +:+ pretty (fold_left (size_add (bits env)) (map snd fileColl) 0%N) +:+ NL).

End Displays.

(** ** A small installation, for running the executive

    A directory [C:\src] with two headers (one of which cannot be opened),
    an implementation file, a C# file and a [.hpp] file. *)

Fixpoint afterLastSlash (acc : string) (s : string) : string :=
  match s with
  | EmptyString => acc
  | String c rest =>
      if Ascii.eqb c "\"%char then afterLastSlash rest rest
      else afterLastSlash acc rest
  end.

Definition sampleName (s : string) : string := afterLastSlash s s.

Definition sampleRoot : ASTNode :=
  mkASTNode "namespace" "Global Namespace" "" 0 0 0 [].

(** Every token group becomes a child of the root, tagged with the
    package that was current when it was parsed. *)
Definition sampleParse (r : Repository) (se : SemiExp) : ASTNode :=
  let root := getGlobalScope r in
  mkASTNode (type_ root) (name_ root) (package_ root)
            (startLineCount_ root) (endLineCount_ root) (complexity_ root)
            (children_ root ++ [mkASTNode "class" (nth 1 se "") (package r) 1 1 0 []]).

Definition sampleOpen (file : File) : option Source :=
  if String.eqb file "C:\src\missing.h" then None
  else Some (mkSource [["class"; sampleName file; "{"]; ["}"]] 2).

Definition sampleNotifications : list AnalFileMgr.Notification :=
  [AnalFileMgr.NDir "C:\src"; AnalFileMgr.NFile "p.cs"; AnalFileMgr.NFile "a.cpp";
   AnalFileMgr.NFile "t.hpp"; AnalFileMgr.NFile "a.h"; AnalFileMgr.NFile "missing.h";
   AnalFileMgr.NDone].

Definition sampleEnv (build : bool) : Env :=
  {| bits := 64;
     getExt := AnalFileMgr.sampleExt;
     getName := sampleName;
     getFullFileSpec := fun s => s;
     dirExists := fun p => String.eqb p "C:\src";
     Build := build;
     getInstance := mkRepository "" Cpp "" sampleRoot;
     numFiles0 := 0;
     numDirs0 := 0;
     loggers0 := mkRunning false false false;
     openFile := sampleOpen;
     parse := sampleParse;
     complexityEval := fun root => root;
     bucketOrder := fun fm => map_to_list fm;
     search := fun _ _ => sampleNotifications;
     good := fun _ => true |}.

Definition sampleArgv : list string := ["analyzer"; "C:\src"; "*.h"; "/m"; "*.cpp"; "/r"].

(** The executive once the sample command line is read and the files are
    collected. *)
Definition sampleExec : Exec :=
  match CodeAnalysisExecutive (sampleEnv true) with
  | Ok exec =>
      sourcesCollected (sampleEnv true) sampleArgv
                       (snd (ProcessCommandLine (sampleEnv true) sampleArgv exec))
  | Throw _ => mkExec "" [] [] ∅ ∅ 0 0 (mkRepository "" Cpp "" sampleRoot)
                      (mkRunning false false false) []
  end.

(** The executive right after its constructor, and after the sample
    command line has been read. *)
Definition sampleConstructed : Exec :=
  mkExec "" [] [] ∅ ∅ 0 0 (mkRepository "" Cpp "" sampleRoot)
         (mkRunning false false false) [].

Definition sampleRead : Exec :=
  snd (ProcessCommandLine (sampleEnv true) sampleArgv sampleConstructed).

(** No call throws; and a parser that throws at the class of [a.h]. *)
Definition noThrow : list Event -> Call -> option string := fun _ _ => None.

Definition sampleThrows : list Event -> Call -> option string :=
  fun _ c =>
    match c with
    | CallParse se => if String.eqb (nth 1 se "") "a.h" then Some "bad token" else None
    | _ => None
    end.

(** A tree of two files for the displays, what a node shows of itself, and
    an executive that holds the tree. *)
Definition sampleClass : ASTNode :=
  mkASTNode "class" "A" "a.h" 1 9 1 [mkASTNode "function" "f" "a.h" 3 5 1 []].

Definition sampleTree : ASTNode :=
  mkASTNode "namespace" "Global Namespace" "" 0 0 0
            [sampleClass; mkASTNode "function" "main" "a.cpp" 1 4 1 []].

Definition sampleShow (pItem : ASTNode) : string :=
  "(" +:+ type_ pItem +:+ ", " +:+ name_ pItem +:+ ")".

Definition sampleAnalysed : Exec :=
  with_pRepo_ (mkRepository "a.cpp" Cpp "C:\src\a.cpp" sampleTree) sampleConstructed.

End Executive.

(** * Part II: properties *)

(** ** Substrings *)

Lemma prefix_yields_rest (text : string) :
  forall str : string,
    String.prefix text str = true -> exists after : string, str = text +:+ after.
Proof.
  induction text as [|c text IH]; intros str Hp.
  - exists str. reflexivity.
  - destruct str as [|c' str]; simpl in Hp; [discriminate|].
    destruct (ascii_dec c c') as [->|]; [|discriminate].
    destruct (IH str Hp) as [after ->]. exists after. reflexivity.
Qed.

Lemma prefix_of_append (text after : string) :
  String.prefix text (text +:+ after) = true.
Proof.
  induction text as [|c text IH]; simpl.
  - destruct after; reflexivity.
  - destruct (ascii_dec c c); [exact IH | contradiction].
Qed.

Lemma length_append (a b : string) :
  String.length (a +:+ b) = String.length a + String.length b.
Proof. induction a as [|c a IH]; simpl; [reflexivity | rewrite IH; reflexivity]. Qed.

Lemma find_step (c : ascii) (str text : string) :
  find (String c str) text =
    if String.prefix text (String c str) then Some 0 else S <$> find str text.
Proof. reflexivity. Qed.

Lemma find_found (str : string) :
  forall (text : string) (pos : nat),
    find str text = Some pos ->
    exists before after : string,
      str = before +:+ text +:+ after /\ String.length before = pos.
Proof.
  induction str as [|c str IH]; intros text pos Hf.
  - destruct text; simpl in Hf; [|discriminate]. injection Hf as <-.
    exists "", "". split; reflexivity.
  - rewrite find_step in Hf.
    destruct (String.prefix text (String c str)) eqn:Hp.
    + injection Hf as <-. destruct (prefix_yields_rest _ _ Hp) as [after Heq].
      exists "", after. split; [exact Heq | reflexivity].
    + destruct (find str text) as [q|] eqn:Hq; [|discriminate].
      simpl in Hf. injection Hf as <-.
      destruct (IH text q Hq) as (before & after & -> & Hlen).
      exists (String c before), after. split; [reflexivity | simpl; rewrite Hlen; reflexivity].
Qed.

Lemma find_finds (before : string) :
  forall text after : string, is_Some (find (before +:+ text +:+ after) text).
Proof.
  induction before as [|c before IH]; intros text after.
  - change ("" +:+ text +:+ after) with (text +:+ after).
    destruct (text +:+ after) as [|c rest] eqn:Heq.
    + destruct text; [eexists; reflexivity | discriminate].
    + rewrite find_step, <- Heq, prefix_of_append. eexists; reflexivity.
  - change (String c before +:+ text +:+ after)
      with (String c (before +:+ text +:+ after)).
    rewrite find_step. destruct (String.prefix text _); [eexists; reflexivity|].
    destruct (IH text after) as [q ->]. eexists; reflexivity.
Qed.

(** [contains] is the substring test, for a text that is not empty. *)
Lemma contains_occursIn (str text : string) :
  text <> "" -> (contains str text = true <-> occursIn text str).
Proof.
  intros Hne. unfold contains, below_length, occursIn. split.
  - destruct (find str text) as [pos|] eqn:Hf; [|discriminate].
    intros _. destruct (find_found _ _ _ Hf) as (before & after & Heq & _).
    exists before, after. exact Heq.
  - intros (before & after & ->).
    destruct (find_finds before text after) as [pos Hf]. rewrite Hf.
    destruct (find_found _ _ _ Hf) as (b' & a' & Heq & Hlen).
    assert (Hlt : pos < String.length (before +:+ text +:+ after)).
    { rewrite Heq at 1. rewrite !length_append, Hlen.
      destruct text; [contradiction | simpl; lia]. }
    apply Nat.ltb_lt in Hlt. rewrite Hlt. reflexivity.
Qed.

Lemma append_empty_r (s : string) : s +:+ "" = s.
Proof.
  induction s as [|c s IH]; [reflexivity|].
  change (String c s +:+ "") with (String c (s +:+ "")). rewrite IH. reflexivity.
Qed.

Lemma append_associative (a b c : string) : (a +:+ b) +:+ c = a +:+ b +:+ c.
Proof.
  induction a as [|x a IH]; [reflexivity|].
  change ((String x a +:+ b) +:+ c) with (String x ((a +:+ b) +:+ c)).
  rewrite IH. reflexivity.
Qed.

(** X1. The edges of [contains]: nothing occurs in the empty string, not
    even the empty text; the empty text occurs in every other string; a
    text longer than the string never occurs; a string that is not empty
    contains itself. *)
Theorem contains_edge_cases :
  (forall text : string, contains "" text = false) /\
  (forall str : string, contains str "" = negb (String.eqb str "")) /\
  (forall str text : string,
      contains str text = true -> String.length text <= String.length str) /\
  (forall str : string, str <> "" -> contains str str = true).
Proof.
  split; [|split; [|split]].
  - intros [|c text]; reflexivity.
  - intros [|c str]; reflexivity.
  - intros str text. unfold contains, below_length.
    destruct (find str text) as [pos|] eqn:Hf; [|discriminate].
    intros _. destruct (find_found _ _ _ Hf) as (before & after & -> & _).
    rewrite !length_append. lia.
  - intros str Hne. apply contains_occursIn; [exact Hne|].
    exists "", "". rewrite append_empty_r. reflexivity.
Qed.

Lemma dotFree_append (a b : string) : dotFree (a +:+ b) = dotFree a && dotFree b.
Proof.
  induction a as [|c a IH]; [reflexivity|].
  change (String c a +:+ b) with (String c (a +:+ b)). simpl.
  rewrite IH, andb_assoc. reflexivity.
Qed.

(** A key made of "*." and an extension without dot contains "*." and a
    text exactly when the extension starts with the text. *)
Lemma key_contains_prefix (ext text : string) :
  dotFree ext = true ->
  contains ("*." +:+ ext) ("*." +:+ text) = String.prefix text ext.
Proof.
  intros Hdot.
  destruct (String.prefix text ext) eqn:Hp.
  - apply contains_occursIn; [discriminate|].
    destruct (prefix_yields_rest _ _ Hp) as [after ->].
    exists "", after. change ("*." +:+ text) with (String "*" (String "." text)).
    reflexivity.
  - destruct (contains ("*." +:+ ext) ("*." +:+ text)) eqn:Hc; [|reflexivity].
    apply contains_occursIn in Hc; [|discriminate].
    destruct Hc as (before & after & Heq). exfalso.
    change ("*." +:+ ext) with (String "*" (String "." ext)) in Heq.
    change ("*." +:+ text) with (String "*" (String "." text)) in Heq.
    destruct before as [|c1 [|c2 before]].
    + change ("" +:+ String "*" (String "." text) +:+ after)
        with (String "*" (String "." (text +:+ after))) in Heq.
      injection Heq as ->. rewrite prefix_of_append in Hp. discriminate.
    + change (String c1 "" +:+ String "*" (String "." text) +:+ after)
        with (String c1 (String "*" (String "." (text +:+ after)))) in Heq.
      discriminate Heq.
    + change (String c1 (String c2 before) +:+ String "*" (String "." text) +:+ after)
        with (String c1 (String c2 (before +:+ String "*" (String "." (text +:+ after)))))
        in Heq.
      injection Heq as _ _ ->.
      rewrite dotFree_append in Hdot. simpl in Hdot.
      rewrite andb_false_r in Hdot. discriminate.
Qed.

(** The three texts that select a dialect exclude one another on such a
    key. *)
Lemma key_of_one_dialect (ext : string) :
  dotFree ext = true ->
  let key := "*." +:+ ext in
  (contains key "*.h" = true -> contains key "*.cpp" = false /\ contains key "*.cs" = false) /\
  (contains key "*.cpp" = true -> contains key "*.cs" = false).
Proof.
  intros Hdot key. subst key.
  change "*.h" with ("*." +:+ "h"). change "*.cpp" with ("*." +:+ "cpp").
  change "*.cs" with ("*." +:+ "cs").
  rewrite !key_contains_prefix by exact Hdot.
  split.
  - intros H. destruct (prefix_yields_rest _ _ H) as [rest ->]. split; reflexivity.
  - intros H. destruct (prefix_yields_rest _ _ H) as [rest ->]. reflexivity.
Qed.

(** ** The order of strings *)

Lemma ascii_compare_refl (a : ascii) : Ascii.compare a a = Eq.
Proof. unfold Ascii.compare. apply N.compare_refl. Qed.

Lemma ascii_compare_trans (a b c : ascii) :
  Ascii.compare a b = Lt -> Ascii.compare b c = Lt -> Ascii.compare a c = Lt.
Proof.
  unfold Ascii.compare. rewrite !N.compare_lt_iff. apply N.lt_trans.
Qed.

Lemma string_compare_refl (s : string) : String.compare s s = Eq.
Proof.
  induction s as [|c s IH]; [reflexivity|]. simpl. rewrite ascii_compare_refl. exact IH.
Qed.

Lemma string_compare_trans (a : string) :
  forall b c : string,
    String.compare a b = Lt -> String.compare b c = Lt -> String.compare a c = Lt.
Proof.
  induction a as [|x a IH]; intros [|y b] [|z c]; simpl; try discriminate; try reflexivity.
  destruct (Ascii.compare x y) eqn:Hxy; try discriminate.
  - apply Ascii.compare_eq_iff in Hxy. subst y.
    destruct (Ascii.compare x z); try discriminate; [apply IH | reflexivity].
  - intros _. destruct (Ascii.compare y z) eqn:Hyz; try discriminate.
    + apply Ascii.compare_eq_iff in Hyz. subst z. rewrite Hxy. reflexivity.
    + rewrite (ascii_compare_trans _ _ _ Hxy Hyz). reflexivity.
Qed.

Lemma compare_append (p a b : string) :
  String.compare (p +:+ a) (p +:+ b) = String.compare a b.
Proof.
  induction p as [|c p IH]; [reflexivity|].
  change (String c p +:+ a) with (String c (p +:+ a)).
  change (String c p +:+ b) with (String c (p +:+ b)).
  simpl. rewrite ascii_compare_refl. exact IH.
Qed.

Lemma ltb_irrefl (a : string) : String.ltb a a = false.
Proof. unfold String.ltb. rewrite string_compare_refl. reflexivity. Qed.

Lemma ltb_trans (a b c : string) :
  String.ltb a b = true -> String.ltb b c = true -> String.ltb a c = true.
Proof.
  unfold String.ltb.
  destruct (String.compare a b) eqn:Hab; try discriminate.
  destruct (String.compare b c) eqn:Hbc; try discriminate.
  rewrite (string_compare_trans _ _ _ Hab Hbc). reflexivity.
Qed.

Lemma ltb_asym (a b : string) : String.ltb a b = true -> String.ltb b a = false.
Proof.
  unfold String.ltb. rewrite (String.compare_antisym b a).
  destruct (String.compare a b); simpl; congruence.
Qed.

Lemma ltb_total (a b : string) :
  String.ltb a b = false -> String.ltb b a = false -> a = b.
Proof.
  unfold String.ltb. rewrite (String.compare_antisym b a).
  destruct (String.compare a b) eqn:Hab; simpl; try discriminate.
  intros _ _. apply String.compare_eq_iff. exact Hab.
Qed.

Lemma ltb_negtrans (a b c : string) :
  String.ltb a b = false -> String.ltb b c = false -> String.ltb a c = false.
Proof.
  intros Hab Hbc. destruct (String.ltb a c) eqn:Hac; [|reflexivity].
  destruct (String.ltb b a) eqn:Hba.
  - rewrite (ltb_trans _ _ _ Hba Hac) in Hbc. discriminate.
  - rewrite (ltb_total _ _ Hab Hba) in Hac. congruence.
Qed.

(** ** Stable sorting *)

Section StableSort.

Context {A : Type}.

Lemma stable_insert_In (comp : A -> A -> bool) (x : A) (l : list A) :
  forall y, In y (stable_insert comp x l) <-> y = x \/ In y l.
Proof.
  induction l as [|z l IH]; intros y; simpl.
  - intuition congruence.
  - destruct (comp z x); simpl; rewrite ?IH; intuition congruence.
Qed.

Lemma stable_insert_Permutation (comp : A -> A -> bool) (x : A) (l : list A) :
  Permutation (x :: l) (stable_insert comp x l).
Proof.
  induction l as [|z l IH]; simpl; [reflexivity|].
  destruct (comp z x); [|reflexivity].
  rewrite <- IH. apply perm_swap.
Qed.

Lemma stable_sort_Permutation (comp : A -> A -> bool) (l : list A) :
  Permutation l (stable_sort comp l).
Proof.
  induction l as [|x l IH]; simpl; [reflexivity|].
  rewrite <- stable_insert_Permutation. constructor. exact IH.
Qed.

(** Inserting into a list that is in order for a relation [R]. *)
Lemma stable_insert_sorted (comp : A -> A -> bool) (R : A -> A -> Prop) (x : A) :
  forall l : list A,
    StronglySorted R l ->
    (forall y, In y l -> comp y x = true -> R y x) ->
    (forall y, In y l -> comp y x = false -> R x y) ->
    (forall y z, In y l -> In z l -> comp y x = false -> R y z -> R x z) ->
    StronglySorted R (stable_insert comp x l).
Proof.
  induction 1 as [|y l Hsorted IH Hall]; intros Hbefore Hafter Hnext; simpl.
  - repeat constructor.
  - destruct (comp y x) eqn:Hyx.
    + constructor.
      * apply IH; intros; eauto using in_cons.
      * rewrite List.Forall_forall. intros z Hz. apply stable_insert_In in Hz.
        destruct Hz as [->|Hz].
        -- apply Hbefore; [left; reflexivity | exact Hyx].
        -- rewrite List.Forall_forall in Hall. apply Hall. exact Hz.
    + constructor; [constructor; assumption|].
      rewrite List.Forall_forall. intros z [<-|Hz].
      * apply Hafter; [left; reflexivity | exact Hyx].
      * apply (Hnext y z); [left; reflexivity | right; exact Hz | exact Hyx |].
        rewrite List.Forall_forall in Hall. apply Hall. exact Hz.
Qed.

(** Sorting with a functor that is asymmetric, with a transitive
    complement, puts no element before one it should follow. *)
Lemma stable_sort_sorted (c : A -> A -> bool) (l : list A) :
  (forall a b, c a b = true -> c b a = false) ->
  (forall a b d, c a b = false -> c b d = false -> c a d = false) ->
  StronglySorted (fun a b => c b a = false) (stable_sort c l).
Proof.
  intros Hasym Hneg.
  induction l as [|x l IH]; simpl; [constructor|].
  apply stable_insert_sorted; [exact IH | | |].
  - intros y _. apply Hasym.
  - intros y _ Hyx. exact Hyx.
  - intros y z _ _ Hyx Hzy. exact (Hneg _ _ _ Hzy Hyx).
Qed.

(** Two stable sorts in a row: the second functor decides, the first
    breaks its ties. *)
Lemma stable_sort_twice (c1 c2 : A -> A -> bool) (l : list A) :
  (forall a b, c1 a b = true -> c1 b a = false) ->
  (forall a b d, c1 a b = false -> c1 b d = false -> c1 a d = false) ->
  (forall a b d, c2 a b = true -> c2 b d = true -> c2 a d = true) ->
  (forall a b d, c2 a b = false -> c2 b d = false -> c2 a d = false) ->
  StronglySorted (fun a b => c2 a b = true \/ (c2 b a = false /\ c1 b a = false))
                 (stable_sort c2 (stable_sort c1 l)).
Proof.
  intros Hasym1 Hneg1 Htrans2 Hneg2.
  pose proof (stable_sort_sorted c1 l Hasym1 Hneg1) as Hfirst.
  induction Hfirst as [|x s Hs IH Hall]; simpl; [constructor|].
  assert (Hall' : forall y, In y (stable_sort c2 s) -> c1 y x = false).
  { intros y Hy. rewrite List.Forall_forall in Hall. apply Hall.
    eapply Permutation_in; [symmetry; apply stable_sort_Permutation | exact Hy]. }
  apply stable_insert_sorted; [exact IH | | |].
  - intros y _ Hyx. left. exact Hyx.
  - intros y Hy Hyx. right. split; [exact Hyx | apply Hall'; exact Hy].
  - intros y z Hy Hz Hyx [Hyz|[Hzy _]].
    + right. split; [|apply Hall'; exact Hz].
      destruct (c2 z x) eqn:Hzx; [|reflexivity].
      rewrite (Htrans2 _ _ _ Hyz Hzx) in Hyx. discriminate.
    + right. split; [|apply Hall'; exact Hz].
      exact (Hneg2 _ _ _ Hzy Hyx).
Qed.

End StableSort.

Lemma StronglySorted_weaken {A : Type} (R S : A -> A -> Prop) (l : list A) :
  (forall a b, R a b -> S a b) -> StronglySorted R l -> StronglySorted S l.
Proof.
  intros HRS. induction 1 as [|x l Hl IH Hall]; constructor; [exact IH|].
  eapply List.Forall_impl; [|exact Hall]. intros b. apply HRS.
Qed.

(** ** The last dot of a name *)

Lemma find_last_of_dotFree (s : string) :
  find_last_of "." s = None <-> dotFree s = true.
Proof.
  induction s as [|c s IH]; simpl; [tauto|].
  destruct (find_last_of "." s).
  - split; [discriminate|]. intros H. apply andb_true_iff in H. destruct H as [_ H].
    apply IH in H. discriminate.
  - destruct (Ascii.eqb c "."); simpl; [split; discriminate|].
    split; [intros _; apply IH; reflexivity | reflexivity].
Qed.

Lemma find_last_of_append (base ext : string) :
  dotFree ext = true ->
  find_last_of "." (base +:+ "." +:+ ext) = Some (String.length base).
Proof.
  intros Hext. induction base as [|c base IH].
  - change ("" +:+ "." +:+ ext) with (String "." ext). simpl.
    apply find_last_of_dotFree in Hext. rewrite Hext. reflexivity.
  - change (String c base +:+ "." +:+ ext) with (String c (base +:+ "." +:+ ext)).
    simpl. rewrite IH. reflexivity.
Qed.

Lemma substring_prefix (base rest : string) :
  substring 0 (String.length base) (base +:+ rest) = base.
Proof.
  induction base as [|c base IH]; [destruct rest; reflexivity|].
  change (String c base +:+ rest) with (String c (base +:+ rest)).
  simpl. rewrite IH. reflexivity.
Qed.

Lemma removeExt_split (name : string) :
  (dotFree name = true /\ removeExt name = name) \/
  (exists ext : string, dotFree ext = true /\ name = removeExt name +:+ "." +:+ ext).
Proof.
  unfold removeExt.
  induction name as [|c name IH]; [left; split; reflexivity|].
  simpl. destruct (find_last_of "." name) as [pos|] eqn:Hpos.
  - right. destruct IH as [[Hfree _]|(ext & Hext & Hname)].
    + apply find_last_of_dotFree in Hfree. congruence.
    + exists ext. split; [exact Hext|].
      change (String c (substring 0 pos name) +:+ "." +:+ ext)
        with (String c (substring 0 pos name +:+ "." +:+ ext)).
      rewrite <- Hname. reflexivity.
  - destruct (Ascii.eqb_spec c ".") as [->|Hc].
    + right. exists name. split; [apply find_last_of_dotFree; exact Hpos | reflexivity].
    + left. destruct IH as [[Hfree _]|(ext & _ & Hname)].
      * split; [|reflexivity]. simpl. rewrite Hfree.
        destruct (Ascii.eqb_spec c "."); [contradiction | reflexivity].
      * exfalso. apply find_last_of_dotFree in Hpos. rewrite Hname in Hpos.
        rewrite !dotFree_append in Hpos. simpl in Hpos.
        rewrite andb_false_r in Hpos. discriminate.
Qed.

(** X10. [removeExt] cuts a name at its last dot: a name without dot is
    kept, a name that ends in a dot and an extension without dot loses
    both, and every name with a dot is what [removeExt] returns followed by
    a dot and a text without dot. Only the last extension goes: of a.b.c
    the part a.b stays. *)
Theorem removeExt_cuts_last_extension :
  (forall name : string, dotFree name = true -> removeExt name = name) /\
  (forall base ext : string,
      dotFree ext = true -> removeExt (base +:+ "." +:+ ext) = base) /\
  (forall name : string,
      dotFree name = false ->
      exists ext : string, dotFree ext = true /\ name = removeExt name +:+ "." +:+ ext).
Proof.
  split; [|split].
  - intros name Hfree. unfold removeExt.
    apply find_last_of_dotFree in Hfree. rewrite Hfree. reflexivity.
  - intros base ext Hext. unfold removeExt.
    rewrite find_last_of_append by exact Hext. apply substring_prefix.
  - intros name Hdot. destruct (removeExt_split name) as [[Hfree _]|Hsplit].
    + congruence.
    + exact Hsplit.
Qed.

(** ** Properties of the file manager *)

Module AnalFileMgrFacts.

Import AnalFileMgr.

Section Handler.

Variable bits : N.
(** [FileSystem::Path::getExt], defined in the FileSystem package. *)
Variable getExt : string -> Ext.

Local Abbreviation file := (AnalFileMgr.file bits getExt).
Local Abbreviation dir := (AnalFileMgr.dir bits).
Local Abbreviation notify := (AnalFileMgr.notify bits getExt).
Local Abbreviation deliver := (AnalFileMgr.deliver bits getExt).
Local Abbreviation filedUnder := (AnalFileMgr.filedUnder getExt).
Local Abbreviation keyedByExtension := (AnalFileMgr.keyedByExtension getExt).

Lemma size_incr_exact (n : N) :
  (n + 1 < 2 ^ bits)%N -> size_incr bits n = (n + 1)%N.
Proof.
  intros Hlt. unfold size_incr, size_wrap.
  assert (Hpow : Z.of_N (2 ^ bits) = (2 ^ Z.of_N bits)%Z) by (rewrite N2Z.inj_pow; reflexivity).
  rewrite Z.mod_small by lia. lia.
Qed.

Lemma storedFiles_push (fm : FileMap) (p : Pattern) (fqf : File) :
  storedFiles (<[p := subscript [] fm p ++ [fqf]]> fm) = S (storedFiles fm).
Proof.
  unfold storedFiles.
  assert (Hcomm : forall (m : FileMap) (j1 j2 : string) (z1 z2 : Files) (y : nat),
             j1 <> j2 -> m !! j1 = Some z1 -> m !! j2 = Some z2 ->
             length z1 + (length z2 + y) = length z2 + (length z1 + y)) by (intros; lia).
  unfold subscript.
  destruct (fm !! p) as [l|] eqn:Hp; simpl.
  - rewrite <- insert_delete_eq.
    rewrite map_fold_insert_L; [| apply Hcomm | apply lookup_delete_eq].
    rewrite (map_fold_delete_L _ _ p l fm); [| apply Hcomm | exact Hp].
    rewrite length_app. simpl. lia.
  - rewrite map_fold_insert_L; [| apply Hcomm | exact Hp]. reflexivity.
Qed.

(** One [file] call: the joined path goes to the end of its pattern's
    vector, every other vector is left alone. *)
Lemma file_appends (f : File) (m : t) (p : Pattern) :
  subscript [] (fileMap_ (file f m)) p =
    if decide (p = "*." +:+ getExt (d_ m +:+ "\" +:+ f))
    then subscript [] (fileMap_ m) p ++ [d_ m +:+ "\" +:+ f]
    else subscript [] (fileMap_ m) p.
Proof.
  unfold file, subscript; simpl. destruct (decide _) as [->|Hne].
  - rewrite lookup_insert_eq. reflexivity.
  - rewrite lookup_insert_ne by congruence. reflexivity.
Qed.

Lemma deliver_fileMap (ns : list Notification) :
  forall (m : t) (p : Pattern),
    subscript [] (fileMap_ (deliver ns m)) p =
      subscript [] (fileMap_ m) p ++ filedUnder p (d_ m) ns.
Proof.
  unfold deliver.
  induction ns as [|n ns IH]; intros m p; cbn [fold_left AnalFileMgr.filedUnder].
  - symmetry. apply app_nil_r.
  - destruct n as [d|f|]; cbn [AnalFileMgr.notify]; rewrite IH.
    + reflexivity.
    + rewrite file_appends. cbn [AnalFileMgr.file d_].
      destruct (decide _); [rewrite <- app_assoc|]; reflexivity.
    + reflexivity.
Qed.

Lemma deliver_storedFiles (ns : list Notification) :
  forall m : t,
    storedFiles (fileMap_ (deliver ns m)) = countFiles ns + storedFiles (fileMap_ m).
Proof.
  unfold deliver.
  induction ns as [|n ns IH]; intros m; cbn [fold_left countFiles]; [reflexivity|].
  destruct n as [d|f|]; cbn [AnalFileMgr.notify]; rewrite IH;
    [reflexivity | | reflexivity].
  cbn [AnalFileMgr.file fileMap_]. rewrite storedFiles_push. lia.
Qed.

Lemma deliver_numFiles (ns : list Notification) :
  forall m : t,
    (numFiles_ m + N.of_nat (countFiles ns) < 2 ^ bits)%N ->
    numFiles_ (deliver ns m) = (numFiles_ m + N.of_nat (countFiles ns))%N.
Proof.
  unfold deliver.
  induction ns as [|n ns IH]; intros m Hlt; [simpl in *; lia|].
  destruct n as [d|f|]; cbn [fold_left AnalFileMgr.notify countFiles] in *.
  - rewrite IH by exact Hlt. reflexivity.
  - rewrite Nat2N.inj_succ in *.
    assert (Hs : size_incr bits (numFiles_ m) = (numFiles_ m + 1)%N)
      by (apply size_incr_exact; lia).
    rewrite IH; cbn [AnalFileMgr.file numFiles_]; rewrite Hs; lia.
  - rewrite IH by exact Hlt. reflexivity.
Qed.

Lemma deliver_numDirs (ns : list Notification) :
  forall m : t,
    (numDirs_ m + N.of_nat (countDirs ns) < 2 ^ bits)%N ->
    numDirs_ (deliver ns m) = (numDirs_ m + N.of_nat (countDirs ns))%N.
Proof.
  unfold deliver.
  induction ns as [|n ns IH]; intros m Hlt; [simpl in *; lia|].
  destruct n as [d|f|]; cbn [fold_left AnalFileMgr.notify countDirs] in *.
  - rewrite Nat2N.inj_succ in *.
    assert (Hs : size_incr bits (numDirs_ m) = (numDirs_ m + 1)%N)
      by (apply size_incr_exact; lia).
    rewrite IH; cbn [AnalFileMgr.dir numDirs_]; rewrite Hs; lia.
  - rewrite IH by exact Hlt. reflexivity.
  - rewrite IH by exact Hlt. reflexivity.
Qed.

Lemma file_keyedByExtension (f : File) (m : t) :
  keyedByExtension (fileMap_ m) -> keyedByExtension (fileMap_ (file f m)).
Proof.
  intros Hwf key files g Hkey Hin. unfold file in Hkey; simpl in Hkey.
  destruct (decide ("*." +:+ getExt (d_ m +:+ "\" +:+ f) = key)) as [<-|Hne].
  - rewrite lookup_insert_eq in Hkey. injection Hkey as <-.
    apply in_app_or in Hin. destruct Hin as [Hold|[<-|[]]]; [|reflexivity].
    unfold subscript in Hold.
    destruct (fileMap_ m !! _) as [old|] eqn:Hlook; [|destruct Hold].
    exact (Hwf _ old g Hlook Hold).
  - rewrite lookup_insert_ne in Hkey by exact Hne. exact (Hwf key files g Hkey Hin).
Qed.

Lemma deliver_keyedByExtension (ns : list Notification) :
  forall m : t,
    keyedByExtension (fileMap_ m) -> keyedByExtension (fileMap_ (deliver ns m)).
Proof.
  unfold deliver. induction ns as [|n ns IH]; intros m Hwf; simpl; [exact Hwf|].
  apply IH. destruct n as [d|f|]; simpl; [exact Hwf | | exact Hwf].
  apply file_keyedByExtension. exact Hwf.
Qed.

(** C7. Whatever directory and file notifications a search delivers to a
    newly built file manager, each notified file ends up, as the current
    directory joined with the file name, at the end of the vector kept under
    the pattern "*." followed by the path's extension; and after the search
    [numFiles()] is the number of files this manager stored in the map and
    [numDirs()] the number of directories it was told about. The counters
    are [size_t], so the counts are required to fit. *)
Theorem search_fills_file_map (path : Path) (fm : FileMap) (ns : list Notification) :
  (N.of_nat (countFiles ns) < 2 ^ bits)%N ->
  (N.of_nat (countDirs ns) < 2 ^ bits)%N ->
  let m := deliver ns (AnalFileMgr path fm) in
  (forall p : Pattern,
      subscript [] (fileMap_ m) p = subscript [] fm p ++ filedUnder p "" ns) /\
  storedFiles (fileMap_ m) = N.to_nat (numFiles m) + storedFiles fm /\
  numFiles m = N.of_nat (countFiles ns) /\
  numDirs m = N.of_nat (countDirs ns).
Proof.
  intros Hf Hd m. subst m. unfold numFiles, numDirs.
  rewrite deliver_numFiles, deliver_numDirs by (simpl; lia). simpl.
  repeat split.
  - intros p. apply (deliver_fileMap ns (AnalFileMgr path fm) p).
  - rewrite deliver_storedFiles. simpl. lia.
Qed.

End Handler.

(** A search over [C:\src] and a subdirectory: three files, two directories. *)
Lemma search_fills_file_map_witness :
  let m := deliver 64 sampleExt sampleSearch (AnalFileMgr "C:\src" ∅) in
  subscript [] (fileMap_ m) "*.h" = ["C:\src\a.h"; "C:\src\sub\b.h"] /\
  storedFiles (fileMap_ m) = 3 /\
  numFiles m = 3%N /\ numDirs m = 2%N.
Proof.
  destruct (search_fills_file_map 64 sampleExt "C:\src" ∅ sampleSearch eq_refl eq_refl)
    as (Hmap & Hstored & Hf & Hd).
  split; [| split; [| split]].
  - rewrite Hmap. reflexivity.
  - rewrite Hstored, Hf. reflexivity.
  - exact Hf.
  - exact Hd.
Defined.

End AnalFileMgrFacts.

(** ** Properties of the executive *)

Module ExecutiveFacts.

Import Executive.

Section Program.

Variable env : Env.
Variable throws : list Event -> Call -> option string.

Local Abbreviation CodeAnalysisExecutive := (Executive.CodeAnalysisExecutive env).
Local Abbreviation showCommandLineArguments := (Executive.showCommandLineArguments env).
Local Abbreviation ProcessCommandLine := (Executive.ProcessCommandLine env).
Local Abbreviation getSourceFiles := (Executive.getSourceFiles env).
Local Abbreviation cppHeaderFiles := (Executive.cppHeaderFiles env).
Local Abbreviation cppImplemFiles := (Executive.cppImplemFiles env).
Local Abbreviation csharpFiles := (Executive.csharpFiles env).
Local Abbreviation setLanguage := (Executive.setLanguage env).
Local Abbreviation parseNext := (Executive.parseNext env).
Local Abbreviation processFile := (Executive.processFile env).
Local Abbreviation processSourceCode := (Executive.processSourceCode env).
Local Abbreviation complexityAnalysis := (Executive.complexityAnalysis env).
Local Abbreviation sizeInLines := (Executive.sizeInLines env).
Local Abbreviation metricsLine := (Executive.metricsLine env).
Local Abbreviation displayMetricsLine := (Executive.displayMetricsLine env).
Local Abbreviation setLogFile := (Executive.setLogFile env).
Local Abbreviation setDisplayMode := (Executive.setDisplayMode env).
Local Abbreviation setDisplayModes := (Executive.setDisplayModes env).
Local Abbreviation startLogger := (Executive.startLogger env).
Local Abbreviation call := (Executive.call throws).
Local Abbreviation trySearch := (Executive.trySearch env throws).
Local Abbreviation tryGetSourceFiles := (Executive.tryGetSourceFiles env throws).
Local Abbreviation tryProcessFile := (Executive.tryProcessFile env throws).
Local Abbreviation tryProcessSourceCode := (Executive.tryProcessSourceCode env throws).
Local Abbreviation tryComplexityAnalysis := (Executive.tryComplexityAnalysis env throws).
Local Abbreviation tryBlock := (Executive.tryBlock env throws).
Local Abbreviation main := (Executive.main env throws).
Local Abbreviation ofDialect := (Executive.ofDialect env).
Local Abbreviation quiet := (Executive.quiet throws).
Local Abbreviation thrown := (Executive.thrown throws).
Local Abbreviation behaves := (Executive.behaves throws).
Local Abbreviation phaseFiles := (Executive.phaseFiles env).
Local Abbreviation fileEvents := (Executive.fileEvents env).
Local Abbreviation parsedTree := (Executive.parsedTree env).
Local Abbreviation storedByExtension := (Executive.storedByExtension env).
Local Abbreviation sourcesCollected := (Executive.sourcesCollected env).

Local Abbreviation attachOf := (Executive.attachOf env).
Local Abbreviation recordFile := (Executive.recordFile env).
Local Abbreviation recordedSlocs := (Executive.recordedSlocs env).
Local Abbreviation processedFiles := (Executive.processedFiles env).

Local Abbreviation modeEvents := (Executive.modeEvents env).

(** ** Retrieval of the files of a dialect *)

Lemma pushFiles_app (src : Files) : forall dst : Files, pushFiles dst src = dst ++ src.
Proof.
  unfold pushFiles. induction src as [|f src IH]; intros dst; simpl.
  - symmetry. apply app_nil_r.
  - rewrite IH, <- app_assoc. reflexivity.
Qed.

Lemma retrieve_flat_map (text : string) (items : list (Pattern * Files)) :
  retrieve text items =
    flat_map (fun item => if contains (fst item) text then snd item else []) items.
Proof.
  unfold retrieve.
  enough (Hgen : forall acc : Files,
             fold_left (fun dst item =>
                          if contains (fst item) text then pushFiles dst (snd item) else dst)
                       items acc
             = acc ++ flat_map (fun item => if contains (fst item) text then snd item else [])
                               items)
    by (rewrite Hgen; reflexivity).
  induction items as [|[key files] items IH]; intros acc; simpl.
  - symmetry. apply app_nil_r.
  - rewrite IH. destruct (contains key text).
    + rewrite pushFiles_app, <- app_assoc. reflexivity.
    + reflexivity.
Qed.

(** A file is retrieved exactly when some entry whose key contains the
    text lists it. *)
Lemma retrieve_In (text : string) (items : list (Pattern * Files)) (file : File) :
  In file (retrieve text items) <->
  exists (key : Pattern) (files : Files),
    In (key, files) items /\ contains key text = true /\ In file files.
Proof.
  rewrite retrieve_flat_map, in_flat_map. split.
  - intros ([key files] & Hin & Hf). simpl in Hf.
    destruct (contains key text) eqn:Hc; [|contradiction].
    exists key, files. auto.
  - intros (key & files & Hin & Hc & Hf). exists (key, files).
    split; [exact Hin|]. simpl. rewrite Hc. exact Hf.
Qed.

(** ** One round of a loop of [processSourceCode] *)

Lemma sameSettings_refl (e : Exec) : sameSettings e e.
Proof. repeat split. Qed.

Lemma sameSettings_trans (e1 e2 e3 : Exec) :
  sameSettings e1 e2 -> sameSettings e2 e3 -> sameSettings e1 e3.
Proof.
  unfold sameSettings. intros (?&?&?&?&?&?&?) (?&?&?&?&?&?&?).
  repeat split; congruence.
Qed.

(** The parse loop adds one [Parse] per token group and changes nothing
    but the tree. *)
Lemma parse_loop (ses : list SemiExp) :
  forall e : Exec,
    let e' := fold_left parseNext ses e in
    trace e' = trace e ++ map Parse ses /\
    slocMap_ e' = slocMap_ e /\
    package (pRepo_ e') = package (pRepo_ e) /\
    language (pRepo_ e') = language (pRepo_ e) /\
    currentPath (pRepo_ e') = currentPath (pRepo_ e) /\
    sameSettings e e'.
Proof.
  induction ses as [|se ses IH]; intros e; simpl.
  - rewrite app_nil_r. repeat split.
  - destruct (IH (parseNext e se)) as (Ht & Hs & Hp & Hl & Hc & Hset).
    simpl in *. rewrite Ht, <- app_assoc.
    repeat split; try assumption; apply Hset.
Qed.

Lemma parse_loop_tree (ses : list SemiExp) :
  forall e : Exec,
    getGlobalScope (pRepo_ (fold_left parseNext ses e)) =
      parsedTree (package (pRepo_ e)) (language (pRepo_ e)) (currentPath (pRepo_ e))
                 ses (getGlobalScope (pRepo_ e)).
Proof.
  unfold parsedTree.
  induction ses as [|se ses IH]; intros e; simpl; [reflexivity|].
  rewrite IH. simpl. destruct (pRepo_ e); reflexivity.
Qed.

Lemma recordSlocs_trace (slocs : N) (e : Exec) :
  trace (recordSlocs slocs e) = trace e ++ [RecordSloc (package (pRepo_ e)) slocs].
Proof. reflexivity. Qed.

(** Takes the state apart: every flag and the phase become constants. *)
Ltac by_cases e showProc ph :=
  destruct e as [? ? ? ? ? ? ? [? ? ? ?] [[] [] []] ?], showProc, ph; simpl.

(** A round appends exactly the events of its file. *)
Lemma processFile_trace (ph : Phase) (showProc : bool) (e : Exec) (file : File) :
  trace (processFile ph showProc e file) =
    trace e ++ fileEvents ph showProc (loggers e) file.
Proof.
  unfold processFile, fileEvents, showActivity.
  destruct (openFile env file) as [src|].
  - rewrite recordSlocs_trace.
    match goal with |- context [fold_left parseNext _ ?e0] =>
      destruct (parse_loop (semiExps src) e0) as (Ht & _ & Hp & _)
    end.
    cbv zeta in Ht, Hp. rewrite Ht, Hp. clear Ht Hp.
    by_cases e showProc ph; rewrite <- ?app_assoc; reflexivity.
  - by_cases e showProc ph; rewrite <- ?app_assoc; reflexivity.
Qed.

Lemma processFile_settings (ph : Phase) (showProc : bool) (e : Exec) (file : File) :
  sameSettings e (processFile ph showProc e file).
Proof.
  unfold processFile, showActivity.
  destruct (openFile env file) as [src|].
  - match goal with |- context [fold_left parseNext _ ?e0] =>
      set (e1 := e0); destruct (parse_loop (semiExps src) e1) as (_ & _ & _ & _ & _ & Hset)
    end.
    cbv zeta in Hset.
    eapply sameSettings_trans; [| eapply sameSettings_trans; [exact Hset|]].
    + subst e1. by_cases e showProc ph; repeat split.
    + repeat split.
  - by_cases e showProc ph; repeat split.
Qed.

(** A whole loop appends the events of its files, one file after the
    other, and keeps the settings. *)
Lemma loop_trace (ph : Phase) (showProc : bool) (files : Files) :
  forall e : Exec,
    trace (fold_left (processFile ph showProc) files e) =
      trace e ++ flat_map (fileEvents ph showProc (loggers e)) files /\
    sameSettings e (fold_left (processFile ph showProc) files e).
Proof.
  induction files as [|file files IH]; intros e; simpl.
  - rewrite app_nil_r. split; [reflexivity | apply sameSettings_refl].
  - destruct (IH (processFile ph showProc e file)) as [Ht Hset].
    pose proof (processFile_settings ph showProc e file) as Hset1.
    split.
    + rewrite Ht, processFile_trace, <- app_assoc.
      destruct Hset1 as (_&_&_&_&_&_&->). reflexivity.
    + eapply sameSettings_trans; eassumption.
Qed.

Lemma sameSettings_phaseFiles (ph : Phase) (e e' : Exec) :
  sameSettings e e' -> phaseFiles ph e' = phaseFiles ph e.
Proof.
  intros (_&_&_&Hfm&_). destruct ph; simpl;
    unfold cppHeaderFiles, cppImplemFiles, csharpFiles; rewrite Hfm; reflexivity.
Qed.

(** The calls of [processSourceCode]: three blocks and the closing. *)
Lemma processSourceCode_trace (showProc : bool) (e : Exec) :
  trace (processSourceCode showProc e) =
    trace e
    ++ flat_map (fileEvents Headers showProc (loggers e)) (cppHeaderFiles e)
    ++ flat_map (fileEvents Implems showProc (loggers e)) (cppImplemFiles e)
    ++ flat_map (fileEvents CSharps showProc (loggers e)) (csharpFiles e)
    ++ closingEvents showProc (loggers e).
Proof.
  unfold processSourceCode.
  set (e1 := fold_left (processFile Headers showProc) (cppHeaderFiles e) e).
  set (e2 := fold_left (processFile Implems showProc) (cppImplemFiles e1) e1).
  set (e3 := fold_left (processFile CSharps showProc) (csharpFiles e2) e2).
  destruct (loop_trace Headers showProc (cppHeaderFiles e) e) as [Ht1 Hs1].
  destruct (loop_trace Implems showProc (cppImplemFiles e1) e1) as [Ht2 Hs2].
  destruct (loop_trace CSharps showProc (csharpFiles e2) e2) as [Ht3 Hs3].
  fold e1 in Ht1, Hs1. fold e2 in Ht2, Hs2. fold e3 in Ht3, Hs3.
  pose proof (sameSettings_trans _ _ _ Hs1 Hs2) as Hs12.
  pose proof (sameSettings_phaseFiles Implems _ _ Hs1) as Hf2.
  pose proof (sameSettings_phaseFiles CSharps _ _ Hs12) as Hf3.
  simpl in Hf2, Hf3.
  assert (Hl1 : loggers e1 = loggers e) by apply Hs1.
  assert (Hl2 : loggers e2 = loggers e) by apply Hs12.
  assert (Hl3 : loggers e3 = loggers e)
    by (destruct Hs3 as (_&_&_&_&_&_&->); exact Hl2).
  assert (Hclose : forall e0 : Exec,
             trace (emit (Write Rslt (CR +:+ "  " +:+ setwLeft 77 " "))
                         (if showProc then clearActivity e0 else e0))
             = trace e0 ++ closingEvents showProc (loggers e0)).
  { intros e0. unfold closingEvents, clearActivity.
    destruct showProc, (running Rslt (loggers e0)); simpl;
      rewrite <- ?app_assoc; reflexivity. }
  rewrite Hclose, Ht3, Ht2, Ht1, Hl3, Hl2, Hl1, Hf3, Hf2.
  rewrite <- !app_assoc. reflexivity.
Qed.

Lemma flat_map_split {A B : Type} (f : A -> list B) (x : A) (l : list A) :
  In x l -> exists before after : list B, flat_map f l = before ++ f x ++ after.
Proof.
  intros Hin. destruct (in_split _ _ Hin) as (l1 & l2 & ->).
  exists (flat_map f l1), (flat_map f l2).
  rewrite flat_map_app. reflexivity.
Qed.

(** The complete round of every file of a loop is part of the run, and
    the run goes on to its end after it. *)
Lemma processSourceCode_block (ph : Phase) (showProc : bool) (e : Exec) (file : File) :
  In file (phaseFiles ph e) ->
  exists t1 t2 : list Event,
    trace (processSourceCode showProc e) =
      t1 ++ fileEvents ph showProc (loggers e) file ++ t2
         ++ closingEvents showProc (loggers e).
Proof.
  intros Hin. rewrite processSourceCode_trace.
  destruct (flat_map_split (fileEvents ph showProc (loggers e)) _ _ Hin) as (a & b & Hsplit).
  destruct ph; simpl in Hsplit; rewrite Hsplit.
  - exists (trace e ++ a),
      (b ++ flat_map (fileEvents Implems showProc (loggers e)) (cppImplemFiles e)
         ++ flat_map (fileEvents CSharps showProc (loggers e)) (csharpFiles e)).
    rewrite <- !app_assoc. reflexivity.
  - exists (trace e ++ flat_map (fileEvents Headers showProc (loggers e)) (cppHeaderFiles e)
                    ++ a),
      (b ++ flat_map (fileEvents CSharps showProc (loggers e)) (csharpFiles e)).
    rewrite <- !app_assoc. reflexivity.
  - exists (trace e ++ flat_map (fileEvents Headers showProc (loggers e)) (cppHeaderFiles e)
                    ++ flat_map (fileEvents Implems showProc (loggers e)) (cppImplemFiles e)
                    ++ a), b.
    rewrite <- !app_assoc. reflexivity.
Qed.

(** ** Files that cannot be opened *)

Lemma processFile_unopened (ph : Phase) (showProc : bool) (e : Exec) (file : File) :
  openFile env file = None ->
  let e' := processFile ph showProc e file in
  slocMap_ e' = slocMap_ e /\
  getGlobalScope (pRepo_ e') = getGlobalScope (pRepo_ e) /\
  language (pRepo_ e') = language (pRepo_ e) /\
  currentPath (pRepo_ e') = currentPath (pRepo_ e) /\
  package (pRepo_ e') = getName env file.
Proof.
  intros Hopen. unfold processFile, showActivity. rewrite Hopen.
  by_cases e showProc ph; repeat split.
Qed.

Lemma fileEvents_unopened (ph : Phase) (showProc : bool) (lg : Running) (file : File) :
  openFile env file = None ->
  In (Write Rslt (couldNotOpen file)) (fileEvents ph showProc lg file) /\
  occurrences isParse (fileEvents ph showProc lg file) = 0 /\
  occurrences isRecordSloc (fileEvents ph showProc lg file) = 0.
Proof.
  intros Hopen. unfold fileEvents, occurrences. rewrite Hopen.
  destruct showProc, ph, lg as [[] [] []]; simpl; intuition.
Qed.

Lemma couldNotOpen_names (file : File) : occursIn file (couldNotOpen file).
Proof. exists (NL +:+ "  could not open file "), NL. reflexivity. Qed.

(** C3. A file whose attach fails gets a warning on [Rslt] that contains
    its path; it causes no call of the parser and no line count entry, the
    tree and the line count table stay as they were, and the loop goes on
    with the files that follow from the state the warning left. In the run
    of [processSourceCode] the round of such a file is followed by the rest
    of the run, up to its closing calls. *)
Theorem unopenable_file_is_skipped
  (ph : Phase) (showProc : bool) (e : Exec) (before after : Files) (file : File) :
  openFile env file = None ->
  let e0 := fold_left (processFile ph showProc) before e in
  let e1 := processFile ph showProc e0 file in
  let calls := fileEvents ph showProc (loggers e0) file in
  trace e1 = trace e0 ++ calls /\
  In (Write Rslt (couldNotOpen file)) calls /\
  occursIn file (couldNotOpen file) /\
  occurrences isParse calls = 0 /\
  occurrences isRecordSloc calls = 0 /\
  getGlobalScope (pRepo_ e1) = getGlobalScope (pRepo_ e0) /\
  slocMap_ e1 = slocMap_ e0 /\
  fold_left (processFile ph showProc) (before ++ file :: after) e =
    fold_left (processFile ph showProc) after e1 /\
  (In file (phaseFiles ph e) ->
   exists t1 t2 : list Event,
     trace (processSourceCode showProc e) =
       t1 ++ fileEvents ph showProc (loggers e) file ++ t2
          ++ closingEvents showProc (loggers e)).
Proof.
  intros Hopen e0 e1 calls.
  destruct (processFile_unopened ph showProc e0 file Hopen) as (Hs & Hg & _).
  destruct (fileEvents_unopened ph showProc (loggers e0) file Hopen) as (Hw & Hp & Hr).
  repeat match goal with |- _ /\ _ => split end; try assumption.
  - apply processFile_trace.
  - apply couldNotOpen_names.
  - rewrite fold_left_app. reflexivity.
  - apply processSourceCode_block.
Qed.

(** ** Files that are attached and parsed *)

Lemma processFile_opened
  (ph : Phase) (showProc : bool) (e : Exec) (file : File) (src : Source) :
  openFile env file = Some src ->
  let e' := processFile ph showProc e file in
  package (pRepo_ e') = getName env file /\
  language (pRepo_ e') = phaseLanguage ph /\
  currentPath (pRepo_ e') = file /\
  getGlobalScope (pRepo_ e') =
    parsedTree (getName env file) (phaseLanguage ph) file (semiExps src)
               (getGlobalScope (pRepo_ e)) /\
  slocMap_ e' = <[getName env file := currentLineCount src]> (slocMap_ e).
Proof.
  intros Hopen. unfold processFile, showActivity. rewrite Hopen. cbv zeta.
  match goal with |- context [fold_left parseNext _ ?e0] =>
    set (e1 := e0);
    destruct (parse_loop (semiExps src) e1) as (_ & Hs & Hp & Hl & Hc & _);
    pose proof (parse_loop_tree (semiExps src) e1) as Ht
  end.
  cbv zeta in Hs, Hp, Hl, Hc.
  unfold recordSlocs; cbn [pRepo_ slocMap_ emit with_slocMap_].
  rewrite Hs, Hp, Hl, Hc, Ht. subst e1.
  by_cases e showProc ph; repeat split.
Qed.

Lemma occurrences_app (P : Event -> bool) (l1 l2 : list Event) :
  occurrences P (l1 ++ l2) = occurrences P l1 + occurrences P l2.
Proof. unfold occurrences. rewrite List.filter_app, length_app. reflexivity. Qed.

Lemma filter_Parse (P : Event -> bool) (ses : list SemiExp) :
  (forall se, P (Parse se) = false) -> List.filter P (map Parse ses) = [].
Proof.
  intros HP. induction ses as [|se ses IH]; simpl; [reflexivity|].
  rewrite HP. exact IH.
Qed.

(** The calls for an opened file: one write of each context field, the
    parse of every token group, and the line count last. *)
Lemma fileEvents_opened
  (ph : Phase) (showProc : bool) (lg : Running) (file : File) (src : Source) :
  openFile env file = Some src ->
  let calls := fileEvents ph showProc lg file in
  occurrences isSetPackage calls = 1 /\ In (SetPackage (getName env file)) calls /\
  occurrences isSetLanguage calls = 1 /\ In (SetLanguage (phaseLanguage ph)) calls /\
  occurrences isSetCurrentPath calls = 1 /\ In (SetCurrentPath file) calls /\
  occurrences isRecordSloc calls = 1 /\
  exists earlier : list Event,
    calls = earlier ++ map Parse (semiExps src)
                    ++ [RecordSloc (getName env file) (currentLineCount src)].
Proof.
  intros Hopen calls. subst calls. unfold fileEvents. rewrite Hopen.
  repeat match goal with |- _ /\ _ => split end.
  8: { match goal with
       | |- exists _, ?a ++ ?b ++ ?c ++ ?d ++ ?f ++ ?g ++ ?h ++ ?i ++ ?j = _ =>
           exists (a ++ b ++ c ++ d ++ f ++ g ++ h)
       end.
       rewrite <- !app_assoc. reflexivity. }
  all: destruct showProc, ph, lg as [[] [] []]; cbn [andb negb running rsltRunning demoRunning app phaseLanguage].
  all: try (unfold occurrences; cbn [List.filter isSetPackage isSetLanguage isSetCurrentPath isRecordSloc length];
    rewrite List.filter_app, filter_Parse by reflexivity; reflexivity).
  all: cbn [In]; repeat (first [left; reflexivity | right]).
Qed.

Lemma phaseFiles_In (ph : Phase) (e : Exec) (file : File) :
  In file (phaseFiles ph e) <->
  exists (key : Pattern) (files : Files),
    In (key, files) (bucketOrder env (fileMap_ e)) /\
    contains key (match ph with Headers => "*.h" | Implems => "*.cpp" | CSharps => "*.cs" end)
      = true /\
    In file files.
Proof. destruct ph; apply retrieve_In. Qed.

(** With files stored by extension, the loop that runs over a [.h], [.cpp]
    or [.cs] file is the one of its dialect. *)
Lemma phase_of_extension (ph : Phase) (e : Exec) (file : File) :
  storedByExtension (bucketOrder env (fileMap_ e)) ->
  In file (phaseFiles ph e) ->
  (getExt env file = "h" -> ph = Headers) /\
  (getExt env file = "cpp" -> ph = Implems) /\
  (getExt env file = "cs" -> ph = CSharps).
Proof.
  intros Hwf Hin. apply phaseFiles_In in Hin.
  destruct Hin as (key & files & Hitem & Hc & Hfile).
  rewrite (Hwf key files file Hitem Hfile) in Hc.
  repeat split; intros Hext; rewrite Hext in Hc;
    destruct ph; first [reflexivity | discriminate Hc].
Qed.

(** [getSourceFiles] leaves a map in which files are stored by extension,
    when it starts from one (the empty map of a new executive is one). *)
Lemma getSourceFiles_storedByExtension (e : Exec) :
  AnalFileMgr.keyedByExtension (getExt env) (fileMap_ e) ->
  bucketOrder env (fileMap_ (getSourceFiles e))
    ≡ₚ map_to_list (fileMap_ (getSourceFiles e)) ->
  storedByExtension (bucketOrder env (fileMap_ (getSourceFiles e))).
Proof.
  intros Hwf Hperm key files file Hitem Hfile.
  apply list_elem_of_In in Hitem. rewrite Hperm in Hitem.
  apply elem_of_map_to_list in Hitem.
  unfold getSourceFiles in Hitem; simpl in Hitem.
  eapply AnalFileMgrFacts.deliver_keyedByExtension; [| exact Hitem | exact Hfile].
  exact Hwf.
Qed.

(** The language [setLanguage] derives from the extension. *)
Lemma setLanguage_language (file : File) (e : Exec) :
  (getExt env file = "h" \/ getExt env file = "cpp" ->
   language (pRepo_ (setLanguage file e)) = Cpp) /\
  (getExt env file = "cs" -> language (pRepo_ (setLanguage file e)) = CSharp).
Proof.
  unfold setLanguage. split.
  - intros [->| ->]; reflexivity.
  - intros ->. reflexivity.
Qed.

(** C5. A file that is attached and parsed has the repository's context
    written once: the package is set to the file's name, the language to
    that of its loop (Cpp for a [.h] or [.cpp] file, CSharp for a [.cs]
    file, when files are stored by extension, which is also what
    [setLanguage] derives from the extension), the current path to the
    file's path; and one line count is recorded, under the package name,
    after the last token group has been parsed. *)
Theorem opened_file_sets_context_once
  (ph : Phase) (showProc : bool) (e : Exec) (file : File) (src : Source) :
  storedByExtension (bucketOrder env (fileMap_ e)) ->
  In file (phaseFiles ph e) ->
  openFile env file = Some src ->
  let e1 := processFile ph showProc e file in
  let calls := fileEvents ph showProc (loggers e) file in
  trace e1 = trace e ++ calls /\
  (occurrences isSetPackage calls = 1 /\ In (SetPackage (getName env file)) calls) /\
  (occurrences isSetLanguage calls = 1 /\ In (SetLanguage (phaseLanguage ph)) calls) /\
  (occurrences isSetCurrentPath calls = 1 /\ In (SetCurrentPath file) calls) /\
  (occurrences isRecordSloc calls = 1 /\
   exists earlier : list Event,
     calls = earlier ++ map Parse (semiExps src)
                     ++ [RecordSloc (getName env file) (currentLineCount src)]) /\
  package (pRepo_ e1) = getName env file /\
  currentPath (pRepo_ e1) = file /\
  language (pRepo_ e1) = phaseLanguage ph /\
  (getExt env file = "h" \/ getExt env file = "cpp" -> language (pRepo_ e1) = Cpp) /\
  (getExt env file = "cs" -> language (pRepo_ e1) = CSharp) /\
  (getExt env file = "h" \/ getExt env file = "cpp" \/ getExt env file = "cs" ->
   language (pRepo_ e1) = language (pRepo_ (setLanguage file e))) /\
  slocMap_ e1 = <[getName env file := currentLineCount src]> (slocMap_ e).
Proof.
  intros Hwf Hin Hopen e1 calls.
  destruct (processFile_opened ph showProc e file src Hopen) as (Hp & Hl & Hc & _ & Hs).
  destruct (fileEvents_opened ph showProc (loggers e) file src Hopen)
    as (Hn1 & Hi1 & Hn2 & Hi2 & Hn3 & Hi3 & Hn4 & Hlast).
  destruct (phase_of_extension ph e file Hwf Hin) as (Hh & Hcpp & Hcs).
  split; [apply processFile_trace|].
  repeat match goal with |- _ /\ _ => split end; try assumption.
  - intros [Hext|Hext]; subst e1; rewrite Hl;
      [rewrite (Hh Hext) | rewrite (Hcpp Hext)]; reflexivity.
  - intros Hext. subst e1. rewrite Hl, (Hcs Hext). reflexivity.
  - destruct (setLanguage_language file e) as [Hset1 Hset2].
    intros [Hext|[Hext|Hext]]; subst e1; rewrite Hl.
    + rewrite (Hh Hext), Hset1 by (left; exact Hext). reflexivity.
    + rewrite (Hcpp Hext), Hset1 by (right; exact Hext). reflexivity.
    + rewrite (Hcs Hext), Hset2 by exact Hext. reflexivity.
Qed.

(** C9. The dialect of a file is decided by whether its pattern key
    contains "*.h", "*.cpp" or "*.cs" somewhere, not by equality with it.
    [cppHeaderFiles()] returns exactly the files that the file map holds
    under a key in which "*.h" occurs, so the files under "*.hpp" or
    "*.html" too and no file whose keys are all without it; every such file
    is processed in the loop of the header files. Likewise for "*.cpp" and
    the implementation files, "*.cs" and the C# files. *)
Theorem dialect_by_substring_of_key (showProc : bool) (e : Exec) (ph : Phase) :
  bucketOrder env (fileMap_ e) ≡ₚ map_to_list (fileMap_ e) ->
  let text := match ph with Headers => "*.h" | Implems => "*.cpp" | CSharps => "*.cs" end in
  (forall file : File,
      In file (phaseFiles ph e) <->
      exists (key : Pattern) (files : Files),
        fileMap_ e !! key = Some files /\ In file files /\ occursIn text key) /\
  (forall (key : Pattern) (files : Files) (file : File),
      fileMap_ e !! key = Some files -> In file files -> occursIn text key ->
      In file (phaseFiles ph e) /\
      exists t1 t2 : list Event,
        trace (processSourceCode showProc e) =
          t1 ++ fileEvents ph showProc (loggers e) file ++ t2) /\
  (forall file : File,
      (forall (key : Pattern) (files : Files),
          fileMap_ e !! key = Some files -> In file files -> ~ occursIn text key) ->
      ~ In file (phaseFiles ph e)).
Proof.
  intros Hperm text.
  assert (Hitem : forall key files,
             In (key, files) (bucketOrder env (fileMap_ e)) <-> fileMap_ e !! key = Some files).
  { intros key files. rewrite <- list_elem_of_In, Hperm. apply elem_of_map_to_list. }
  assert (Hne : text <> "") by (subst text; destruct ph; discriminate).
  assert (Hiff : forall file : File,
             In file (phaseFiles ph e) <->
             exists (key : Pattern) (files : Files),
               fileMap_ e !! key = Some files /\ In file files /\ occursIn text key).
  { intros file. rewrite phaseFiles_In. fold text. split.
    - intros (key & files & Hin & Hc & Hfile). exists key, files.
      split; [apply Hitem; exact Hin|]. split; [exact Hfile|].
      apply (contains_occursIn key text Hne). exact Hc.
    - intros (key & files & Hkey & Hfile & Hocc). exists key, files.
      split; [apply Hitem; exact Hkey|]. split; [|exact Hfile].
      apply (contains_occursIn key text Hne). exact Hocc. }
  split; [exact Hiff|]. split.
  - intros key files file Hkey Hfile Hocc.
    assert (Hin : In file (phaseFiles ph e))
      by (apply Hiff; exists key, files; auto).
    split; [exact Hin|].
    destruct (processSourceCode_block ph showProc e file Hin) as (t1 & t2 & Ht).
    exists t1, (t2 ++ closingEvents showProc (loggers e)). exact Ht.
  - intros file Hnone Hin. apply Hiff in Hin.
    destruct Hin as (key & files & Hkey & Hfile & Hocc).
    exact (Hnone key files Hkey Hfile Hocc).
Qed.

(** ** The order of the dialects *)

Lemma filter_all {A : Type} (p : A -> bool) (l : list A) :
  (forall x, In x l -> p x = true) -> List.filter p l = l.
Proof.
  induction l as [|x l IH]; intros H; simpl; [reflexivity|].
  rewrite (H x (or_introl eq_refl)), IH; [reflexivity|].
  intros y Hy. apply H. right. exact Hy.
Qed.

Lemma filter_none {A : Type} (p : A -> bool) (l : list A) :
  (forall x, In x l -> p x = false) -> List.filter p l = [].
Proof.
  induction l as [|x l IH]; intros H; simpl; [reflexivity|].
  rewrite (H x (or_introl eq_refl)). apply IH.
  intros y Hy. apply H. right. exact Hy.
Qed.

(** With files stored by extension, what a retrieval collects from the
    entries is what a filter on the extension leaves of all their files. *)
Lemma retrieve_by_extension (ph : Phase) (items : list (Pattern * Files)) :
  storedByExtension items ->
  (forall f : File, dotFree (getExt env f) = true) ->
  retrieve ("*." +:+ phaseExt ph) items = ofDialect ph (flat_map snd items).
Proof.
  intros Hstored Hdot. rewrite retrieve_flat_map. unfold Executive.ofDialect.
  induction items as [|[key files] items IH]; [reflexivity|].
  cbn [flat_map fst snd]. rewrite List.filter_app, <- IH.
  2:{ intros k fs f Hin Hf. apply (Hstored k fs f); [right; exact Hin | exact Hf]. }
  f_equal.
  assert (Hkey : forall f, In f files ->
             contains key ("*." +:+ phaseExt ph) = String.prefix (phaseExt ph) (getExt env f)).
  { intros f Hf. rewrite (Hstored key files f (or_introl eq_refl) Hf).
    apply key_contains_prefix. apply Hdot. }
  destruct (contains key ("*." +:+ phaseExt ph)) eqn:Hc.
  - symmetry. apply filter_all. intros f Hf. rewrite <- (Hkey f Hf). reflexivity.
  - symmetry. apply filter_none. intros f Hf. rewrite <- (Hkey f Hf). reflexivity.
Qed.

Lemma one_dialect (ph ph' : Phase) (ext : string) :
  String.prefix (phaseExt ph) ext = true -> String.prefix (phaseExt ph') ext = true ->
  ph = ph'.
Proof.
  intros H H'.
  destruct (prefix_yields_rest _ _ H) as [rest Hrest].
  destruct (prefix_yields_rest _ _ H') as [rest' Hrest'].
  rewrite Hrest in Hrest'. destruct ph, ph'; try reflexivity; discriminate Hrest'.
Qed.

Lemma ofDialect_In (ph : Phase) (files : Files) (file : File) :
  In file (ofDialect ph files) <->
  In file files /\ String.prefix (phaseExt ph) (getExt env file) = true.
Proof.
  exact (List.filter_In (fun f => String.prefix (phaseExt ph) (getExt env f)) file files).
Qed.

(** C1. Let the file map hold the files that were discovered, each under
    the pattern of its extension, as the search stores them; let the map
    yield its entries in any order. Then the header files that
    [processSourceCode] goes through are exactly the discovered files whose
    extension begins with h, its implementation files those whose extension
    begins with cpp, its C# files those whose extension begins with cs, and
    no file is of two kinds. Its calls come in three blocks: the complete
    processing of every discovered header file, then that of every
    discovered implementation file, then that of every discovered C# file.
    So all of the processing of a header comes before any of an
    implementation file, and all of that before any of a C# file. *)
Theorem headers_then_implems_then_csharp (showProc : bool) (e : Exec) :
  bucketOrder env (fileMap_ e) ≡ₚ map_to_list (fileMap_ e) ->
  storedByExtension (bucketOrder env (fileMap_ e)) ->
  (forall f : File, dotFree (getExt env f) = true) ->
  let lg := loggers e in
  let run := trace (processSourceCode showProc e) in
  let discovered := flat_map snd (bucketOrder env (fileMap_ e)) in
  discovered ≡ₚ flat_map snd (map_to_list (fileMap_ e)) /\
  (forall (key : Pattern) (files : Files) (file : File),
      fileMap_ e !! key = Some files -> In file files -> In file discovered) /\
  (forall ph : Phase, phaseFiles ph e = ofDialect ph discovered) /\
  (forall (ph ph' : Phase) (file : File),
      In file (ofDialect ph discovered) -> In file (ofDialect ph' discovered) -> ph = ph') /\
  run = trace e
        ++ flat_map (fileEvents Headers showProc lg) (ofDialect Headers discovered)
        ++ flat_map (fileEvents Implems showProc lg) (ofDialect Implems discovered)
        ++ flat_map (fileEvents CSharps showProc lg) (ofDialect CSharps discovered)
        ++ closingEvents showProc lg /\
  (forall h i : File,
      In h (ofDialect Headers discovered) -> In i (ofDialect Implems discovered) ->
      exists t1 t2 t3 : list Event,
        run = t1 ++ fileEvents Headers showProc lg h
                 ++ t2 ++ fileEvents Implems showProc lg i ++ t3) /\
  (forall i c : File,
      In i (ofDialect Implems discovered) -> In c (ofDialect CSharps discovered) ->
      exists t1 t2 t3 : list Event,
        run = t1 ++ fileEvents Implems showProc lg i
                 ++ t2 ++ fileEvents CSharps showProc lg c ++ t3) /\
  (forall h c : File,
      In h (ofDialect Headers discovered) -> In c (ofDialect CSharps discovered) ->
      exists t1 t2 t3 : list Event,
        run = t1 ++ fileEvents Headers showProc lg h
                 ++ t2 ++ fileEvents CSharps showProc lg c ++ t3).
Proof.
  intros Hperm Hstored Hdot lg run discovered.
  assert (Hphase : forall ph : Phase, phaseFiles ph e = ofDialect ph discovered).
  { intros ph. subst discovered.
    rewrite <- (retrieve_by_extension ph _ Hstored Hdot). destruct ph; reflexivity. }
  assert (Hrun : run = trace e
        ++ flat_map (fileEvents Headers showProc lg) (ofDialect Headers discovered)
        ++ flat_map (fileEvents Implems showProc lg) (ofDialect Implems discovered)
        ++ flat_map (fileEvents CSharps showProc lg) (ofDialect CSharps discovered)
        ++ closingEvents showProc lg).
  { subst run lg. rewrite processSourceCode_trace.
    rewrite <- (Hphase Headers), <- (Hphase Implems), <- (Hphase CSharps). reflexivity. }
  split; [subst discovered; apply Permutation_flat_map; exact Hperm|].
  split.
  { intros key files file Hkey Hfile. subst discovered. apply in_flat_map.
    exists (key, files). split; [|exact Hfile].
    apply list_elem_of_In. rewrite Hperm. apply elem_of_map_to_list. exact Hkey. }
  split; [exact Hphase|]. split.
  { intros ph ph' file Hin Hin'. apply ofDialect_In in Hin. apply ofDialect_In in Hin'.
    exact (one_dialect ph ph' _ (proj2 Hin) (proj2 Hin')). }
  split; [exact Hrun|].
  rewrite Hrun. clear Hrun. split; [|split].
  - intros h i Hh Hi.
    destruct (flat_map_split (fileEvents Headers showProc lg) _ _ Hh) as (a1 & b1 & ->).
    destruct (flat_map_split (fileEvents Implems showProc lg) _ _ Hi) as (a2 & b2 & ->).
    exists (trace e ++ a1), (b1 ++ a2),
      (b2 ++ flat_map (fileEvents CSharps showProc lg) (ofDialect CSharps discovered)
          ++ closingEvents showProc lg).
    rewrite <- !app_assoc. reflexivity.
  - intros i c Hi Hc.
    destruct (flat_map_split (fileEvents Implems showProc lg) _ _ Hi) as (a2 & b2 & ->).
    destruct (flat_map_split (fileEvents CSharps showProc lg) _ _ Hc) as (a3 & b3 & ->).
    exists (trace e ++ flat_map (fileEvents Headers showProc lg)
                                (ofDialect Headers discovered) ++ a2),
      (b2 ++ a3), (b3 ++ closingEvents showProc lg).
    rewrite <- !app_assoc. reflexivity.
  - intros h c Hh Hc.
    destruct (flat_map_split (fileEvents Headers showProc lg) _ _ Hh) as (a1 & b1 & ->).
    destruct (flat_map_split (fileEvents CSharps showProc lg) _ _ Hc) as (a3 & b3 & ->).
    exists (trace e ++ a1),
      (b1 ++ flat_map (fileEvents Implems showProc lg) (ofDialect Implems discovered) ++ a3),
      (b3 ++ closingEvents showProc lg).
    rewrite <- !app_assoc. reflexivity.
Qed.

(** ** The line count lookup *)

Lemma subscripted_lookup {V : Type} (dflt : V) (m : gmap string V) (k k' : string) :
  subscript dflt (subscripted dflt m k) k' = subscript dflt m k'.
Proof.
  unfold subscript, subscripted. destruct (m !! k) as [v|] eqn:Hk; [reflexivity|].
  destruct (decide (k = k')) as [<-|Hne].
  - rewrite lookup_insert_eq, Hk. reflexivity.
  - rewrite lookup_insert_ne by exact Hne. reflexivity.
Qed.

(** C6, as the code has it. [fileSLOCs] returns the count recorded for the
    name, or zero when there is none, and never changes what any later
    lookup returns nor any recorded entry; a name that has an entry leaves
    the table as it was, a name that has none gets an entry of zero. *)
Theorem fileSLOCs_keeps_every_lookup (file : File) (e : Exec) :
  let slocs := fst (fileSLOCs file e) in
  let e' := snd (fileSLOCs file e) in
  slocs = subscript 0%N (slocMap_ e) file /\
  (forall pkg : string,
      subscript 0%N (slocMap_ e') pkg = subscript 0%N (slocMap_ e) pkg) /\
  (forall (pkg : string) (n : N),
      slocMap_ e !! pkg = Some n -> slocMap_ e' !! pkg = Some n) /\
  (is_Some (slocMap_ e !! file) -> slocMap_ e' = slocMap_ e) /\
  (slocMap_ e !! file = None ->
   slocs = 0%N /\ slocMap_ e' = <[file := 0%N]> (slocMap_ e)) /\
  trace e' = trace e /\ pRepo_ e' = pRepo_ e /\ fileMap_ e' = fileMap_ e.
Proof.
  simpl. split; [reflexivity|]. split; [|split; [|split; [|split]]].
  - intros pkg. apply subscripted_lookup.
  - intros pkg n Hpkg. unfold subscripted.
    destruct (slocMap_ e !! file) eqn:Hf; [exact Hpkg|].
    rewrite lookup_insert_ne; [exact Hpkg | congruence].
  - intros [n Hn]. unfold subscripted. rewrite Hn. reflexivity.
  - intros Hnone. unfold subscript, subscripted. rewrite Hnone. split; reflexivity.
  - repeat split.
Qed.

(** ** The size column of the metrics table *)

Lemma size_wrap_value (b : N) (z : Z) :
  Z.of_N (size_wrap b z) = (z mod 2 ^ Z.of_N b)%Z.
Proof.
  unfold size_wrap. rewrite Z2N.id; [reflexivity|].
  apply Z.mod_pos_bound. apply Z.pow_pos_nonneg; lia.
Qed.

Lemma sizeInLines_value (pNode : ASTNode) :
  Z.of_N (sizeInLines pNode) =
    ((Z.of_N (endLineCount_ pNode) - Z.of_N (startLineCount_ pNode) + 1)
       mod 2 ^ Z.of_N (bits env))%Z.
Proof.
  unfold sizeInLines, size_add, size_sub.
  rewrite !size_wrap_value. change (Z.of_N 1) with 1%Z.
  apply Zplus_mod_idemp_l.
Qed.

(** C8, as the code has it. The line written for a node has, after the
    file name, the scope kind, the scope name and the start line, a size
    column that shows end line minus start line plus one computed in
    [size_t], that is modulo [2 ^ bits], and last the complexity. The size
    is the number of lines from start to end whenever the end line is not
    more than one line before the start line and the number fits. *)
Theorem size_column_is_wrapped_difference (file : File) (pNode : ASTNode) (e : Exec) :
  let first := Z.of_N (startLineCount_ pNode) in
  let last := Z.of_N (endLineCount_ pNode) in
  trace (displayMetricsLine file pNode e) =
    trace e ++ [Write Rslt (metricsLine file pNode)] /\
  (let shown :=
     ((((NL +:+ " ") +:+ setwRight 25 (trunc file 23)) +:+ setwRight 12 (type_ pNode))
        +:+ setwRight 35 (trunc (name_ pNode) 33))
       +:+ setwRight 8 (pretty (startLineCount_ pNode)) in
   metricsLine file pNode =
     (shown +:+ setwRight 8 (pretty (sizeInLines pNode)))
       +:+ setwRight 8 (pretty (complexity_ pNode))) /\
  Z.of_N (sizeInLines pNode) = ((last - first + 1) mod 2 ^ Z.of_N (bits env))%Z /\
  ((first <= last + 1)%Z -> (last - first + 1 < 2 ^ Z.of_N (bits env))%Z ->
   Z.of_N (sizeInLines pNode) = (last - first + 1)%Z).
Proof.
  intros first last. split; [reflexivity|]. split.
  - reflexivity.
  - split; [apply sizeInLines_value|].
    intros Hle Hlt. rewrite sizeInLines_value. apply Z.mod_small.
    subst first last. lia.
Qed.

(** ** The command line *)

Lemma readArguments (args : list string) :
  forall e : Exec,
    let e' := fold_left readArgument args e in
    options_ e' = options_ e ++ map (fun arg => charAt arg 1) (List.filter isOption args) /\
    patterns_ e' = patterns_ e ++ List.filter isPattern args /\
    path_ e' = path_ e /\ trace e' = trace e.
Proof.
  induction args as [|arg args IH]; intros e; simpl.
  - rewrite !app_nil_r. repeat split.
  - destruct (IH (readArgument e arg)) as (Ho & Hp & Hpath & Ht).
    rewrite Ho, Hp, Hpath, Ht. unfold readArgument, isPattern, isOption.
    destruct (Ascii.eqb (charAt arg 0) "/"); simpl;
      rewrite <- ?app_assoc; repeat split.
Qed.

Lemma no_pattern_iff (args : list string) :
  List.filter isPattern args = [] <-> (forall arg, In arg args -> isOption arg = true).
Proof.
  unfold isPattern. induction args as [|arg args IH]; simpl.
  - split; [intros _ ? [] | reflexivity].
  - destruct (isOption arg) eqn:Ho; simpl.
    + rewrite IH. split.
      * intros H a [<-|Hin]; [exact Ho | apply H; exact Hin].
      * intros H a Hin. apply H. right. exact Hin.
    + split; [discriminate|]. intros H.
      specialize (H arg (or_introl eq_refl)). congruence.
Qed.

(** C10. On an executive that holds no pattern yet, [ProcessCommandLine]
    returns false exactly when there are fewer than two arguments, or the
    path resolved from the first one does not exist, or every argument
    after the path is an option; and when it returns true the options are
    the second characters of the arguments that start with '/' and the
    patterns are the other arguments, both in command line order. *)
Theorem ProcessCommandLine_result (argv : list string) (e : Exec) :
  patterns_ e = [] ->
  let args := skipn 2 argv in
  let path := getFullFileSpec env (nth 1 argv "") in
  let succeeded := fst (ProcessCommandLine argv e) in
  let e' := snd (ProcessCommandLine argv e) in
  (succeeded = false <->
   length argv < 2 \/ dirExists env path = false \/
   (forall arg, In arg args -> isOption arg = true)) /\
  (succeeded = true ->
   path_ e' = path /\
   options_ e' = options_ e ++ map (fun arg => charAt arg 1) (List.filter isOption args) /\
   patterns_ e' = List.filter isPattern args).
Proof.
  intros Hfresh args path succeeded e'. subst succeeded e' args path.
  unfold ProcessCommandLine.
  destruct (Nat.ltb_spec (length argv) 2) as [Hlt|Hge]; simpl.
  - split; [|discriminate]. split; [intros _; left; exact Hlt | reflexivity].
  - destruct (dirExists env (getFullFileSpec env (nth 1 argv ""))) eqn:Hdir; simpl.
    + match goal with |- context [fold_left readArgument _ ?e0] =>
        destruct (readArguments (skipn 2 argv) e0) as (Ho & Hp & Hpath & Ht)
      end.
      cbv zeta in Ho, Hp, Hpath, Ht. simpl in Ho, Hp, Hpath.
      rewrite Hfresh in Hp. simpl in Hp.
      destruct (Nat.eqb_spec (length (patterns_ (fold_left readArgument (skipn 2 argv)
                  (with_path_ (getFullFileSpec env (nth 1 argv "")) e)))) 0) as [Hz|Hnz];
        simpl.
      * split; [|discriminate]. split; [|reflexivity].
        intros _. right. right. apply no_pattern_iff.
        rewrite <- Hp. apply length_zero_iff_nil. exact Hz.
      * split.
        -- split; [discriminate|]. intros [Hlt|[Hno|Hall]]; [lia | discriminate |].
           apply no_pattern_iff in Hall. rewrite Hp, Hall in Hnz. contradiction.
        -- intros _. repeat split; assumption.
    + split; [|discriminate]. split; [|reflexivity].
      intros _. right. left. reflexivity.
Qed.

(** ** The run as a whole *)

Lemma addsOnly_refl (P : Event -> bool) (e : Exec) : addsOnly P e e.
Proof. exists []. rewrite app_nil_r. split; reflexivity. Qed.

Lemma addsOnly_trans (P : Event -> bool) (e1 e2 e3 : Exec) :
  addsOnly P e1 e2 -> addsOnly P e2 e3 -> addsOnly P e1 e3.
Proof.
  intros (l1 & H1 & F1) (l2 & H2 & F2). exists (l1 ++ l2).
  rewrite H2, H1, <- app_assoc, forallb_app, F1, F2. split; reflexivity.
Qed.

Lemma addsOnly_emit (P : Event -> bool) (ev : Event) (e : Exec) :
  P ev = true -> addsOnly P e (emit ev e).
Proof. intros HP. exists [ev]. simpl. rewrite HP. split; reflexivity. Qed.

Lemma addsOnly_loop {A : Type} (P : Event -> bool) (step : Exec -> A -> Exec) (l : list A) :
  (forall e a, addsOnly P e (step e a)) ->
  forall e, addsOnly P e (fold_left step l e).
Proof.
  intros Hstep. induction l as [|a l IH]; intros e; simpl.
  - apply addsOnly_refl.
  - eapply addsOnly_trans; [apply Hstep | apply IH].
Qed.

Lemma addsOnly_same_trace (P : Event -> bool) (e e' : Exec) :
  trace e' = trace e -> addsOnly P e e'.
Proof. intros Ht. exists []. rewrite app_nil_r. split; [exact Ht | reflexivity]. Qed.

Ltac emits_setup :=
  repeat first [ apply addsOnly_same_trace; reflexivity
               | eapply addsOnly_trans; [| apply addsOnly_emit; reflexivity] ].

Lemma setDisplayMode_setup (e : Exec) (opt : ascii) : addsOnly isSetup e (setDisplayMode e opt).
Proof.
  unfold setDisplayMode, setLogFile, attach, start.
  repeat match goal with
         | |- context [if ?c then _ else _] => destruct c
         end;
    emits_setup.
Qed.

Lemma setDisplayModes_setup (e : Exec) : addsOnly isSetup e (setDisplayModes e).
Proof. unfold setDisplayModes. apply addsOnly_loop. apply setDisplayMode_setup. Qed.

Lemma startLogger_setup (out : Stream) (e : Exec) : addsOnly isSetup e (startLogger out e).
Proof.
  unfold startLogger. eapply addsOnly_trans; [| apply setDisplayModes_setup].
  unfold attach. emits_setup.
Qed.

Lemma showCommandLineArguments_setup (argv : list string) (e : Exec) :
  addsOnly isSetup e (showCommandLineArguments argv e).
Proof. unfold showCommandLineArguments. cbv zeta. emits_setup. Qed.

Lemma getSourceFiles_setup (e : Exec) : addsOnly isSetup e (getSourceFiles e).
Proof. exists []. rewrite app_nil_r. split; reflexivity. Qed.

Lemma sourcesCollected_setup (argv : list string) (e : Exec) :
  addsOnly isSetup e (sourcesCollected argv e).
Proof.
  unfold sourcesCollected.
  eapply addsOnly_trans; [| apply getSourceFiles_setup].
  eapply addsOnly_trans; [| apply addsOnly_emit; reflexivity].
  eapply addsOnly_trans; [| apply showCommandLineArguments_setup].
  eapply addsOnly_trans; [| apply startLogger_setup].
  apply setDisplayModes_setup.
Qed.

Lemma fileEvents_no_pass (ph : Phase) (showProc : bool) (lg : Running) (file : File) :
  forallb (fun ev => negb (isPass ev)) (fileEvents ph showProc lg file) = true.
Proof.
  unfold fileEvents.
  assert (Hparse : forall ses, forallb (fun ev => negb (isPass ev)) (map Parse ses) = true)
    by (induction ses; simpl; auto).
  destruct (openFile env file) as [src|], showProc, ph, lg as [[] [] []]; simpl;
    rewrite ?forallb_app, ?Hparse; reflexivity.
Qed.

Lemma processSourceCode_no_pass (showProc : bool) (e : Exec) :
  addsOnly (fun ev => negb (isPass ev)) e (processSourceCode showProc e).
Proof.
  eexists. split; [apply processSourceCode_trace|].
  assert (Hblock : forall ph files,
             forallb (fun ev => negb (isPass ev))
                     (flat_map (fileEvents ph showProc (loggers e)) files) = true).
  { intros ph files. induction files as [|f files IH]; simpl; [reflexivity|].
    rewrite forallb_app, fileEvents_no_pass, IH. reflexivity. }
  rewrite !forallb_app, !Hblock. unfold closingEvents.
  destruct (showProc && running Rslt (loggers e)); reflexivity.
Qed.

Lemma ProcessCommandLine_trace (argv : list string) (e e' : Exec) (succeeded : bool) :
  ProcessCommandLine argv e = (succeeded, e') ->
  if succeeded then trace e' = trace e
  else exists text : Console, trace e' = trace e ++ [Cout text].
Proof.
  unfold ProcessCommandLine.
  destruct (length argv <? 2)%nat.
  { intros [= <- <-]. exists Usage. reflexivity. }
  destruct (dirExists env _); simpl.
  - match goal with |- context [fold_left readArgument _ ?e0] =>
      destruct (readArguments (skipn 2 argv) e0) as (_ & _ & _ & Ht)
    end.
    cbv zeta in Ht. simpl in Ht.
    destruct (length _ =? 0)%nat; intros [= <- <-].
    + exists Usage. simpl. rewrite Ht. reflexivity.
    + exact Ht.
  - intros [= <- <-]. eexists. reflexivity.
Qed.

Lemma occurrences_none (P Q : Event -> bool) (evs : list Event) :
  (forall ev, Q ev = true -> P ev = false) ->
  forallb Q evs = true -> occurrences P evs = 0.
Proof.
  intros HPQ. unfold occurrences. induction evs as [|ev evs IH]; simpl; [reflexivity|].
  intros [Hq Hall]%andb_prop. rewrite (HPQ ev Hq). apply IH. exact Hall.
Qed.

Lemma trace_emit (ev : Event) (e : Exec) : trace (emit ev e) = trace e ++ [ev].
Proof. reflexivity. Qed.

Lemma trace_complexityAnalysis (e : Exec) :
  trace (complexityAnalysis e) = trace e ++ [ComplexityEval].
Proof. reflexivity. Qed.

Lemma trace_flushLogger (e : Exec) :
  trace (flushLogger e) = trace e ++ [Flush Rslt; Flush Demo; Flush Dbug].
Proof. unfold flushLogger. rewrite !trace_emit, <- !app_assoc. reflexivity. Qed.

Lemma trace_stop (lg : Logger) (e : Exec) : trace (stop lg e) = trace e ++ [Stop lg].
Proof. reflexivity. Qed.

Lemma trace_stopLogger (e : Exec) :
  trace (stopLogger e) =
    trace e ++ [Flush Rslt; Flush Demo; Flush Dbug; Stop Rslt; Stop Demo; Stop Dbug].
Proof.
  unfold stopLogger. rewrite !trace_stop, trace_flushLogger, <- !app_assoc. reflexivity.
Qed.

Lemma occurrences_within (P Q : Event -> bool) (evs : list Event) :
  (forall ev, P ev = true -> Q ev = true) ->
  occurrences Q evs = 0 -> occurrences P evs = 0.
Proof.
  intros HPQ. unfold occurrences.
  induction evs as [|ev evs IH]; simpl; [reflexivity|].
  destruct (Q ev) eqn:HQ; [discriminate|].
  destruct (P ev) eqn:HP; [rewrite (HPQ ev HP) in HQ; discriminate|].
  exact IH.
Qed.

(** ** Computations that may throw *)

Lemma bind_Ok {A B : Type} (m : Try A) (k : A -> Try B) (e e' : Exec) (a : A) :
  m e = (Ok a, e') -> bind m k e = k a e'.
Proof. intros H. unfold bind. rewrite H. reflexivity. Qed.

Lemma bind_Throw {A B : Type} (m : Try A) (k : A -> Try B) (e e' : Exec) (what : string) :
  m e = (Throw what, e') -> bind m k e = (Throw what, e').
Proof. intros H. unfold bind. rewrite H. reflexivity. Qed.

Lemma bind_returns {B : Type} (f : Exec -> Exec) (k : unit -> Try B) (e : Exec) :
  bind (returns f) k e = k tt (f e).
Proof. reflexivity. Qed.

Lemma bind_call {B : Type} (c : Call) (k : unit -> Try B) (e : Exec) :
  bind (call c) k e =
    match throws (trace e) c with
    | Some what => (Throw what, e)
    | None => k tt e
    end.
Proof. unfold bind, Executive.call. destruct (throws (trace e) c); reflexivity. Qed.

Lemma bind_bind {A B C : Type} (m : Try A) (k1 : A -> Try B) (k2 : B -> Try C) (e : Exec) :
  bind (bind m k1) k2 e = bind m (fun a => bind (k1 a) k2) e.
Proof. unfold bind. destruct (m e) as [[a|what] e1]; reflexivity. Qed.

Lemma behaves_ret {A : Type} (P : Event -> bool) (a : A) : behaves P (ret a) (fun e => e).
Proof. intros e. split; [apply addsOnly_refl | reflexivity]. Qed.

Lemma behaves_returns (P : Event -> bool) (f : Exec -> Exec) :
  (forall e, addsOnly P e (f e)) -> behaves P (returns f) f.
Proof. intros H e. split; [apply H | reflexivity]. Qed.

Lemma behaves_call (P : Event -> bool) (c : Call) : behaves P (call c) (fun e => e).
Proof.
  intros e. unfold Executive.call.
  destruct (throws (trace e) c) as [what|] eqn:H; cbn [fst snd].
  - split; [apply addsOnly_refl | unfold Executive.thrown; exists (trace e), c; exact H].
  - split; [apply addsOnly_refl | reflexivity].
Qed.

Lemma behaves_bind {A B : Type} (P : Event -> bool) (m : Try A) (k : A -> Try B)
  (f g : Exec -> Exec) :
  behaves P m f -> (forall a, behaves P (k a) g) ->
  behaves P (bind m k) (fun e => g (f e)).
Proof.
  intros Hm Hk e. unfold bind. destruct (Hm e) as [Hadd Hres].
  destruct (m e) as [[a|what] e1]; cbn [fst snd] in *.
  - destruct (Hk a e1) as [Hadd' Hres'].
    split; [exact (addsOnly_trans P _ _ _ Hadd Hadd')|].
    rewrite <- Hres. exact Hres'.
  - split; [exact Hadd | exact Hres].
Qed.

Lemma behaves_forEach {A : Type} (P : Event -> bool) (body : A -> Try unit)
  (step : Exec -> A -> Exec) (l : list A) :
  (forall x, behaves P (body x) (fun e => step e x)) ->
  behaves P (forEach l body) (fun e => fold_left step l e).
Proof.
  intros Hbody. induction l as [|x l IH].
  - apply behaves_ret.
  - exact (behaves_bind P (body x) (fun _ => forEach l body)
             (fun e => step e x) (fun e => fold_left step l e) (Hbody x) (fun _ => IH)).
Qed.

Lemma behaves_loop {A : Type} (P : Event -> bool) (files : Exec -> list A)
  (body : A -> Try unit) (step : Exec -> A -> Exec) :
  (forall x, behaves P (body x) (fun e => step e x)) ->
  behaves P (fun e => forEach (files e) body e) (fun e => fold_left step (files e) e).
Proof. intros Hbody e. exact (behaves_forEach P body step (files e) Hbody e). Qed.

Lemma behaves_ext {A : Type} (P : Event -> bool) (m : Try A) (f g : Exec -> Exec) :
  behaves P m f -> (forall e, f e = g e) -> behaves P m g.
Proof.
  intros Hm Hfg e. destruct (Hm e) as [Hadd Hres]. split; [exact Hadd|].
  destruct (fst (m e)); [rewrite <- Hfg; exact Hres | exact Hres].
Qed.

(** ** The analysis inside the try block *)

Lemma trySearch_runs (ns : list AnalFileMgr.Notification) :
  forall (delivered : nat) (fm : AnalFileMgr.t) (e : Exec),
    fileMap_ e = AnalFileMgr.fileMap_ fm ->
    trace (snd (trySearch ns delivered fm e)) = trace e /\
    match fst (trySearch ns delivered fm e) with
    | Ok fm' =>
        fm' = AnalFileMgr.deliver (bits env) (getExt env) ns fm /\
        forall files dirs : N,
          with_counts files dirs (snd (trySearch ns delivered fm e))
          = with_counts files dirs (with_fileMap_ (AnalFileMgr.fileMap_ fm') e)
    | Throw what => thrown what
    end.
Proof.
  induction ns as [|n ns IH]; intros delivered fm e Hmap;
    cbn [Executive.trySearch]; rewrite !bind_call;
    destruct (throws (trace e) (CallSearch delivered)) as [what|] eqn:Hthrow;
    cbn [fst snd ret].
  - split; [reflexivity | unfold Executive.thrown; exists (trace e), (CallSearch delivered); exact Hthrow].
  - split; [reflexivity|]. split; [reflexivity|].
    intros files dirs. unfold with_counts, with_fileMap_.
    cbn [path_ patterns_ options_ fileMap_ slocMap_ pRepo_ loggers trace numFiles_ numDirs_].
    rewrite Hmap. reflexivity.
  - split; [reflexivity | unfold Executive.thrown; exists (trace e), (CallSearch delivered); exact Hthrow].
  - rewrite bind_returns.
    set (fm1 := AnalFileMgr.notify (bits env) (getExt env) fm n).
    destruct (IH (S delivered) fm1 (with_fileMap_ (AnalFileMgr.fileMap_ fm1) e) eq_refl)
      as [Htrace Hres].
    split; [exact Htrace|].
    destruct (fst (trySearch ns (S delivered) fm1
                             (with_fileMap_ (AnalFileMgr.fileMap_ fm1) e)));
      [|exact Hres].
    destruct Hres as [Hfm Hcounts]. split; [exact Hfm|].
    intros files dirs. rewrite Hcounts. reflexivity.
Qed.

Lemma tryGetSourceFiles_behaves (P : Event -> bool) :
  behaves P tryGetSourceFiles getSourceFiles.
Proof.
  intros e. unfold Executive.tryGetSourceFiles, bind.
  destruct (trySearch_runs (search env (path_ e) (patterns_ e)) 0
              (AnalFileMgr.AnalFileMgr (path_ e) (fileMap_ e)) e eq_refl) as [Htrace Hres].
  destruct (trySearch (search env (path_ e) (patterns_ e)) 0
                      (AnalFileMgr.AnalFileMgr (path_ e) (fileMap_ e)) e)
    as [[fm|what] e1]; cbn [fst snd] in *.
  - destruct Hres as [-> Hcounts]. unfold returns. cbn [fst snd]. split.
    + apply addsOnly_same_trace. exact Htrace.
    + rewrite Hcounts. reflexivity.
  - split; [apply addsOnly_same_trace; exact Htrace | exact Hres].
Qed.

Ltac adds_no_pass :=
  intros;
  repeat match goal with
         | |- context [if ?b then _ else _] => destruct b
         | |- context [match ?ph with Headers => _ | Implems => _ | CSharps => _ end] =>
             destruct ph
         end;
  repeat first [ apply addsOnly_same_trace; reflexivity
               | eapply addsOnly_trans; [| apply addsOnly_emit; reflexivity] ].

Ltac behaves_steps :=
  repeat first [ eapply behaves_bind; [|intros _]
               | apply behaves_call
               | apply behaves_returns
               | apply behaves_forEach; intros ?
               | apply behaves_loop; intros ? ].

Lemma tryProcessFile_behaves (ph : Phase) (showProc : bool) (file : File) :
  behaves noPass (tryProcessFile ph showProc file) (fun e => processFile ph showProc e file).
Proof.
  unfold Executive.tryProcessFile, Executive.processFile.
  destruct (openFile env file) as [src|].
  - eapply behaves_ext; [behaves_steps|intros e; reflexivity].
    all: try (unfold Executive.flushAfterAttach, assignPackage, assignLanguage,
               assignCurrentPath, Executive.parseNext, assignGlobalScope, recordSlocs,
               showActivity; cbv zeta; adds_no_pass).
  - eapply behaves_ext; [behaves_steps|intros e; reflexivity].
    all: try (unfold Executive.flushAfterWarning, assignPackage, showActivity;
              cbv zeta; adds_no_pass).
Qed.

Lemma tryProcessSourceCode_behaves (showProc : bool) :
  behaves noPass (tryProcessSourceCode showProc) (processSourceCode showProc).
Proof.
  unfold Executive.tryProcessSourceCode.
  eapply behaves_ext.
  - eapply behaves_bind; [apply behaves_loop; intros file; apply tryProcessFile_behaves|].
    intros _.
    eapply behaves_bind; [apply behaves_loop; intros file; apply tryProcessFile_behaves|].
    intros _.
    eapply behaves_bind; [apply behaves_loop; intros file; apply tryProcessFile_behaves|].
    intros _.
    eapply behaves_bind; [apply behaves_returns|intros _; apply behaves_returns].
    + unfold clearActivity. adds_no_pass.
    + adds_no_pass.
  - intros e. reflexivity.
Qed.

(** ** The runs of [main] *)

Lemma constructed_has_no_trace (exec : Exec) :
  CodeAnalysisExecutive = Ok exec -> trace exec = [].
Proof.
  unfold CodeAnalysisExecutive. destruct (Build env); [|discriminate].
  intros [= <-]. reflexivity.
Qed.

(** [main] after the constructor: the block, and the handler behind it. *)
Lemma main_of_block (argv : list string) (exec : Exec) :
  CodeAnalysisExecutive = Ok exec ->
  main argv =
    match tryBlock argv exec with
    | (Ok (Some status), x) => (Returned status, trace x)
    | (Ok None, x) => (Returned 0, trace x)
    | (Throw what, x) => (Returned 1, trace x ++ caught what)
    end.
Proof.
  intros Hctor. unfold Executive.main. rewrite Hctor.
  destruct (tryBlock argv exec) as [[[status|]|what] x]; try reflexivity.
  cbv zeta. rewrite trace_stopLogger, trace_emit, trace_flushLogger, <- !app_assoc.
  reflexivity.
Qed.

Lemma main_rejected (argv : list string) (exec : Exec) :
  CodeAnalysisExecutive = Ok exec ->
  fst (ProcessCommandLine argv exec) = false ->
  exists text : Console, main argv = (Returned 1, [Cout text]).
Proof.
  intros Hctor Hcmd. rewrite (main_of_block argv exec Hctor). unfold Executive.tryBlock.
  destruct (ProcessCommandLine argv exec) as [succeeded exec'] eqn:Hpcl.
  simpl in Hcmd. subst succeeded. cbn [negb].
  destruct (ProcessCommandLine_trace _ _ _ _ Hpcl) as [text Ht].
  exists text. rewrite Ht, (constructed_has_no_trace exec Hctor). reflexivity.
Qed.

(** The try block after an accepted command line: it runs to its end, or a
    call throws before the first pass has returned, or the dependency
    analysis throws, or the publisher does. *)
Lemma tryBlock_accepted (argv : list string) (exec exec' : Exec) :
  ProcessCommandLine argv exec = (true, exec') ->
  let e := sourcesCollected argv exec' in
  let parsed := trace (processSourceCode true e) in
  (exists x : Exec,
      tryBlock argv exec = (Ok None, x) /\
      trace x = parsed ++ [ComplexityEval] ++ betweenPasses
                       ++ [DependencyTable argv] ++ afterPasses) \/
  (exists (what : string) (x : Exec) (evs : list Event),
      tryBlock argv exec = (Throw what, x) /\ thrown what /\
      trace x = trace e ++ evs /\ forallb noPass evs = true) \/
  (exists (what : string) (x : Exec),
      tryBlock argv exec = (Throw what, x) /\ thrown what /\
      trace x = parsed ++ [ComplexityEval] ++ betweenPasses) \/
  (exists (what : string) (x : Exec),
      tryBlock argv exec = (Throw what, x) /\ thrown what /\
      trace x = parsed ++ [ComplexityEval] ++ betweenPasses ++ [DependencyTable argv]).
Proof.
  intros Hcmd e parsed. unfold Executive.tryBlock. rewrite Hcmd. cbn [negb].
  rewrite !bind_returns.
  set (e0 := emit (Write Rslt NL)
               (showCommandLineArguments argv (startLogger StdCout (setDisplayModes exec')))).
  assert (He : e = getSourceFiles e0) by reflexivity.
  assert (Hte : trace e = trace e0) by reflexivity.
  (* the search *)
  destruct (tryGetSourceFiles_behaves noPass e0) as [Hadd1 Hres1].
  destruct (tryGetSourceFiles e0) as [[[]|what] e1] eqn:H1; cbn [fst snd] in Hadd1, Hres1.
  2:{ right. left. destruct Hadd1 as (evs & Ht & Hall).
      exists what, e1, evs. rewrite (bind_Throw _ _ _ _ _ H1).
      split; [reflexivity|]. split; [exact Hres1|]. rewrite Hte. split; assumption. }
  rewrite (bind_Ok _ _ _ _ _ H1). rewrite Hres1, <- He. clear H1 Hadd1 Hres1 e1.
  (* the three loops *)
  destruct (tryProcessSourceCode_behaves true e) as [Hadd2 Hres2].
  destruct (tryProcessSourceCode true e) as [[[]|what] e2] eqn:H2; cbn [fst snd] in Hadd2, Hres2.
  2:{ right. left. destruct Hadd2 as (evs & Ht & Hall).
      exists what, e2, evs. rewrite (bind_Throw _ _ _ _ _ H2).
      split; [reflexivity|]. split; [exact Hres2|]. split; assumption. }
  rewrite (bind_Ok _ _ _ _ _ H2). rewrite Hres2. clear H2 Hadd2 Hres2 e2.
  set (p := processSourceCode true e). fold p in parsed.
  destruct (processSourceCode_no_pass true e) as (evs & Hp & Hevs). fold p in Hp.
  unfold Executive.tryComplexityAnalysis. rewrite bind_bind, bind_call.
  destruct (throws (trace p) CallComplexityEval) as [what|] eqn:H3.
  { right. left. exists what, p, evs.
    split; [reflexivity|]. split; [exists (trace p), CallComplexityEval; exact H3|].
    split; assumption. }
  rewrite !bind_returns, bind_call.
  set (q := stopLogger (emit (Write Rslt NL) (flushLogger (complexityAnalysis p)))).
  assert (Hq : trace q = parsed ++ [ComplexityEval] ++ betweenPasses).
  { subst q parsed. rewrite trace_stopLogger, trace_emit, trace_flushLogger,
      trace_complexityAnalysis, <- !app_assoc. reflexivity. }
  destruct (throws (trace q) CallDependencyTable) as [what|] eqn:H4.
  { right. right. left. exists what, q.
    split; [reflexivity|]. split; [exists (trace q), CallDependencyTable; exact H4|].
    exact Hq. }
  rewrite bind_returns, bind_call.
  destruct (throws (trace (emit (DependencyTable argv) q)) CallCallingPublisher)
    as [what|] eqn:H5.
  { right. right. right. exists what, (emit (DependencyTable argv) q).
    split; [reflexivity|].
    split; [exists (trace (emit (DependencyTable argv) q)), CallCallingPublisher; exact H5|].
    rewrite trace_emit, Hq, <- !app_assoc. reflexivity. }
  left. rewrite !bind_returns. eexists. split; [reflexivity|].
  rewrite !trace_emit, Hq, <- !app_assoc. reflexivity.
Qed.

(** Under the same conditions, the run of [main]. *)
Lemma main_accepted (argv : list string) (exec exec' : Exec) :
  CodeAnalysisExecutive = Ok exec ->
  ProcessCommandLine argv exec = (true, exec') ->
  let e := sourcesCollected argv exec' in
  let parsed := trace (processSourceCode true e) in
  main argv = (Returned 0, parsed ++ [ComplexityEval] ++ betweenPasses
                                  ++ [DependencyTable argv] ++ afterPasses) \/
  (exists (what : string) (evs : list Event),
      thrown what /\ forallb noPass evs = true /\
      main argv = (Returned 1, (trace e ++ evs) ++ caught what)) \/
  (exists what : string,
      thrown what /\
      main argv = (Returned 1, (parsed ++ [ComplexityEval] ++ betweenPasses) ++ caught what)) \/
  (exists what : string,
      thrown what /\
      main argv = (Returned 1, (parsed ++ [ComplexityEval] ++ betweenPasses
                                       ++ [DependencyTable argv]) ++ caught what)).
Proof.
  intros Hctor Hcmd e parsed. rewrite (main_of_block argv exec Hctor).
  destruct (tryBlock_accepted argv exec exec' Hcmd)
    as [(x & -> & Hx)|[(what & x & evs & -> & Hw & Hx & Hevs)
                      |[(what & x & -> & Hw & Hx)|(what & x & -> & Hw & Hx)]]];
    fold e in Hx; fold parsed in Hx; rewrite Hx.
  - left. reflexivity.
  - right. left. exists what, evs. auto.
  - right. right. left. exists what. auto.
  - right. right. right. exists what. auto.
Qed.


Ltac count_calls :=
  unfold occurrences, betweenPasses, afterPasses, caught; simpl; lia.

(** C2. In a run that gets past the command line, the complexity
    evaluation and the dependency analysis are each called at most once; a
    pass is called only after [processSourceCode] has gone through all
    three loops, so after every input file has been processed, and no call
    that belongs to a source file comes after it. In a run that [main] ends
    with [return 0] each of the two is called exactly once, the first right
    behind the three loops; and this is every such run unless a call of the
    analysis throws, in which case [main]'s handler ends the run. In a run
    that ends at the constructor or at the command line neither pass is
    called. *)
Theorem passes_once_after_all_parsing (argv : list string) :
  (forall exec exec' : Exec,
      CodeAnalysisExecutive = Ok exec ->
      ProcessCommandLine argv exec = (true, exec') ->
      let e := sourcesCollected argv exec' in
      let parsed := trace (processSourceCode true e) in
      let run := snd (main argv) in
      parsed = trace e
                 ++ flat_map (fileEvents Headers true (loggers e)) (cppHeaderFiles e)
                 ++ flat_map (fileEvents Implems true (loggers e)) (cppImplemFiles e)
                 ++ flat_map (fileEvents CSharps true (loggers e)) (csharpFiles e)
                 ++ closingEvents true (loggers e) /\
      occurrences isPass parsed = 0 /\
      occurrences isComplexityEval run <= 1 /\
      occurrences isDependencyTable run <= 1 /\
      (0 < occurrences isPass run ->
       exists rest : list Event,
         run = parsed ++ [ComplexityEval] ++ rest /\
         occurrences isFileEvent rest = 0 /\
         occurrences isComplexityEval rest = 0) /\
      (fst (main argv) = Returned 0 ->
       run = parsed ++ [ComplexityEval] ++ betweenPasses
                    ++ [DependencyTable argv] ++ afterPasses /\
       occurrences isComplexityEval run = 1 /\
       occurrences isDependencyTable run = 1) /\
      (fst (main argv) <> Returned 0 ->
       exists (what : string) (before : list Event),
         thrown what /\ fst (main argv) = Returned 1 /\ run = before ++ caught what) /\
      (quiet -> fst (main argv) = Returned 0)) /\
  (forall what : string,
      CodeAnalysisExecutive = Throw what -> occurrences isPass (snd (main argv)) = 0) /\
  (forall exec : Exec,
      CodeAnalysisExecutive = Ok exec ->
      fst (ProcessCommandLine argv exec) = false ->
      occurrences isPass (snd (main argv)) = 0).
Proof.
  split; [|split].
  - intros exec exec' Hctor Hcmd e parsed run.
    assert (Hblocks : parsed = trace e
                 ++ flat_map (fileEvents Headers true (loggers e)) (cppHeaderFiles e)
                 ++ flat_map (fileEvents Implems true (loggers e)) (cppImplemFiles e)
                 ++ flat_map (fileEvents CSharps true (loggers e)) (csharpFiles e)
                 ++ closingEvents true (loggers e))
      by apply processSourceCode_trace.
    assert (Hsetup : occurrences isPass (trace e) = 0).
    { pose proof (ProcessCommandLine_trace _ _ _ _ Hcmd) as Ht0. simpl in Ht0.
      rewrite (constructed_has_no_trace exec Hctor) in Ht0.
      destruct (sourcesCollected_setup argv exec') as (l1 & H1 & F1). fold e in H1.
      rewrite H1, Ht0. simpl.
      apply (occurrences_none isPass isSetup); [|exact F1].
      intros ev Hev. unfold isSetup in Hev. apply andb_prop in Hev.
      apply negb_true_iff. apply Hev. }
    assert (Hnone : forall evs, forallb noPass evs = true -> occurrences isPass evs = 0).
    { intros evs. apply (occurrences_none isPass noPass).
      intros ev Hev. apply negb_true_iff. exact Hev. }
    assert (Hquiet : occurrences isPass parsed = 0).
    { destruct (processSourceCode_no_pass true e) as (l2 & H2 & F2).
      subst parsed. rewrite H2, occurrences_app, Hsetup, (Hnone l2 F2). reflexivity. }
    assert (Hsub : forall (P : Event -> bool) (evs : list Event),
               (forall ev, P ev = true -> isPass ev = true) ->
               occurrences isPass evs = 0 -> occurrences P evs = 0)
      by (intros P evs HP; apply (occurrences_within P isPass); exact HP).
    assert (Hce : forall evs, occurrences isPass evs = 0 -> occurrences isComplexityEval evs = 0)
      by (intros evs; apply Hsub; intros [] H; try discriminate H; reflexivity).
    assert (Hdt : forall evs, occurrences isPass evs = 0 -> occurrences isDependencyTable evs = 0)
      by (intros evs; apply Hsub; intros [] H; try discriminate H; reflexivity).
    split; [exact Hblocks|]. split; [exact Hquiet|].
    pose proof (main_accepted argv exec exec' Hctor Hcmd) as Hruns.
    cbv zeta in Hruns. fold e in Hruns. fold parsed in Hruns.
    clear Hblocks. clearbody parsed.
    destruct Hruns
      as [Hmain|[(what & evs & Hw & Hevs & Hmain)|[(what & Hw & Hmain)|(what & Hw & Hmain)]]];
      subst run; rewrite Hmain; cbn [fst snd].
    + rewrite !occurrences_app, (Hce _ Hquiet), (Hdt _ Hquiet).
      split; [count_calls|]. split; [count_calls|]. split.
      { intros _. eexists. split; [reflexivity|]. split; reflexivity. }
      split.
      { intros _. split; [reflexivity|]. split; reflexivity. }
      split; [|reflexivity].
      intros H. contradiction H. reflexivity.
    + assert (Hzero : occurrences isPass ((trace e ++ evs) ++ caught what) = 0)
        by (rewrite !occurrences_app, Hsetup, (Hnone evs Hevs); reflexivity).
      rewrite (Hce _ Hzero), (Hdt _ Hzero), Hzero.
      split; [lia|]. split; [lia|]. split; [intros H; inversion H|].
      split; [discriminate|].
      split; [intros _; exists what; eexists; split; [exact Hw | split; reflexivity] |].
      intros Hq. destruct Hw as (t & c & Ht). rewrite Hq in Ht. discriminate.
    + rewrite !occurrences_app, (Hce _ Hquiet), (Hdt _ Hquiet).
      split; [count_calls|]. split; [count_calls|]. split.
      { intros _. exists (betweenPasses ++ caught what).
        rewrite <- !app_assoc. split; [reflexivity|]. split; reflexivity. }
      split; [discriminate|].
      split; [intros _; exists what; eexists; split; [exact Hw | split; reflexivity] |].
      intros Hq. destruct Hw as (t & c & Ht). rewrite Hq in Ht. discriminate.
    + rewrite !occurrences_app, (Hce _ Hquiet), (Hdt _ Hquiet).
      split; [count_calls|]. split; [count_calls|]. split.
      { intros _. exists (betweenPasses ++ [DependencyTable argv] ++ caught what).
        rewrite <- !app_assoc. split; [reflexivity|]. split; reflexivity. }
      split; [discriminate|].
      split; [intros _; exists what; eexists; split; [exact Hw | split; reflexivity] |].
      intros Hq. destruct Hw as (t & c & Ht). rewrite Hq in Ht. discriminate.
  - intros what Hctor. unfold Executive.main. rewrite Hctor. reflexivity.
  - intros exec Hctor Hcmd.
    destruct (main_rejected argv exec Hctor Hcmd) as [text ->]. reflexivity.
Qed.


(** ** Further properties of the executive *)

Lemma listed_file_key (ph : Phase) (e : Exec) (file : File) :
  storedByExtension (bucketOrder env (fileMap_ e)) ->
  In file (phaseFiles ph e) ->
  contains ("*." +:+ getExt env file)
           (match ph with Headers => "*.h" | Implems => "*.cpp" | CSharps => "*.cs" end)
    = true.
Proof.
  intros Hwf Hin. apply phaseFiles_In in Hin.
  destruct Hin as (key & files & Hitem & Hc & Hfile).
  rewrite <- (Hwf key files file Hitem Hfile). exact Hc.
Qed.

(** X2. When files are stored by extension and extensions hold no dot, the
    three retrieval functions return disjoint sets of files: a file that
    [cppHeaderFiles()] returns is returned neither by [cppImplemFiles()]
    nor by [csharpFiles()], and one that [cppImplemFiles()] returns is not
    returned by [csharpFiles()]. So no file is parsed by two loops. *)
Theorem no_file_in_two_loops (e : Exec) (file : File) :
  storedByExtension (bucketOrder env (fileMap_ e)) ->
  (forall f : File, dotFree (getExt env f) = true) ->
  (In file (cppHeaderFiles e) ->
   ~ In file (cppImplemFiles e) /\ ~ In file (csharpFiles e)) /\
  (In file (cppImplemFiles e) -> ~ In file (csharpFiles e)).
Proof.
  intros Hwf Hdot.
  destruct (key_of_one_dialect (getExt env file) (Hdot file)) as [Hh Hcpp].
  pose proof (listed_file_key Headers e file Hwf) as Kh.
  pose proof (listed_file_key Implems e file Hwf) as Ki.
  pose proof (listed_file_key CSharps e file Hwf) as Kc.
  cbn [phaseFiles] in Kh, Ki, Kc.
  split.
  - intros Hin. destruct (Hh (Kh Hin)) as [Hn1 Hn2]. split; intros Hin'.
    + rewrite (Ki Hin') in Hn1. discriminate.
    + rewrite (Kc Hin') in Hn2. discriminate.
  - intros Hin Hin'. pose proof (Hcpp (Ki Hin)) as Hn.
    rewrite (Kc Hin') in Hn. discriminate.
Qed.

Lemma fileEvents_attach (ph : Phase) (showProc : bool) (lg : Running) (file : File) :
  List.filter isAttach (fileEvents ph showProc lg file) = [attachOf file].
Proof.
  unfold fileEvents, Executive.attachOf.
  destruct (openFile env file) as [src|], showProc, ph, lg as [[] [] []]; simpl;
    rewrite ?List.filter_app, ?filter_Parse by reflexivity; reflexivity.
Qed.

Lemma block_attach (ph : Phase) (showProc : bool) (lg : Running) (files : Files) :
  List.filter isAttach (flat_map (fileEvents ph showProc lg) files) = map attachOf files.
Proof.
  induction files as [|f files IH]; simpl; [reflexivity|].
  rewrite List.filter_app, fileEvents_attach, IH. reflexivity.
Qed.

(** X3. [processSourceCode] attaches exactly the files its three retrieval
    functions return, each once per listing and in their order, headers
    first; a file that is listed by none of them (one stored under "*.txt",
    say) is never attached, so never parsed. *)
Theorem attaches_exactly_the_listed_files (showProc : bool) (e : Exec) :
  exists added : list Event,
    trace (processSourceCode showProc e) = trace e ++ added /\
    List.filter isAttach added = map attachOf (processedFiles e) /\
    (forall (file : File) (opened : bool),
        In (Attach file opened) added -> In file (processedFiles e)).
Proof.
  eexists. split; [apply processSourceCode_trace|].
  assert (Hfilter :
    List.filter isAttach
      (flat_map (fileEvents Headers showProc (loggers e)) (cppHeaderFiles e)
       ++ flat_map (fileEvents Implems showProc (loggers e)) (cppImplemFiles e)
       ++ flat_map (fileEvents CSharps showProc (loggers e)) (csharpFiles e)
       ++ closingEvents showProc (loggers e))
    = map attachOf (processedFiles e)).
  { rewrite !List.filter_app, !block_attach. unfold Executive.processedFiles.
    rewrite !map_app.
    assert (Hclose : List.filter isAttach (closingEvents showProc (loggers e)) = [])
      by (unfold closingEvents; destruct (showProc && running Rslt (loggers e)); reflexivity).
    rewrite Hclose, app_nil_r. reflexivity. }
  split; [exact Hfilter|].
  intros file opened Hin.
  assert (Hatt : In (Attach file opened) (map attachOf (processedFiles e))).
  { rewrite <- Hfilter. apply List.filter_In. split; [exact Hin | reflexivity]. }
  apply in_map_iff in Hatt. destruct Hatt as (f & Heq & Hf).
  unfold Executive.attachOf in Heq. injection Heq as -> _. exact Hf.
Qed.

(** ** The line count table after a run *)

Lemma processFile_slocMap (ph : Phase) (showProc : bool) (e : Exec) (file : File) :
  slocMap_ (processFile ph showProc e file) = recordFile (slocMap_ e) file.
Proof.
  unfold Executive.recordFile.
  destruct (openFile env file) as [src|] eqn:Hopen.
  - apply (processFile_opened ph showProc e file src Hopen).
  - apply (processFile_unopened ph showProc e file Hopen).
Qed.

Lemma loop_slocMap (ph : Phase) (showProc : bool) (files : Files) :
  forall e : Exec,
    slocMap_ (fold_left (processFile ph showProc) files e)
      = recordedSlocs files (slocMap_ e).
Proof.
  unfold Executive.recordedSlocs.
  induction files as [|f files IH]; intros e; simpl; [reflexivity|].
  rewrite IH, processFile_slocMap. reflexivity.
Qed.

Lemma processSourceCode_slocMap (showProc : bool) (e : Exec) :
  slocMap_ (processSourceCode showProc e) = recordedSlocs (processedFiles e) (slocMap_ e).
Proof.
  unfold Executive.processSourceCode.
  set (e1 := fold_left (processFile Headers showProc) (cppHeaderFiles e) e).
  set (e2 := fold_left (processFile Implems showProc) (cppImplemFiles e1) e1).
  set (e3 := fold_left (processFile CSharps showProc) (csharpFiles e2) e2).
  destruct (loop_trace Headers showProc (cppHeaderFiles e) e) as [_ Hs1].
  destruct (loop_trace Implems showProc (cppImplemFiles e1) e1) as [_ Hs2].
  fold e1 in Hs1. fold e2 in Hs2.
  pose proof (sameSettings_trans _ _ _ Hs1 Hs2) as Hs12.
  pose proof (sameSettings_phaseFiles Implems _ _ Hs1) as Hf2.
  pose proof (sameSettings_phaseFiles CSharps _ _ Hs12) as Hf3.
  cbn [Executive.phaseFiles] in Hf2, Hf3.
  assert (Hclose : forall e0 : Exec,
             slocMap_ (emit (Write Rslt (CR +:+ "  " +:+ setwLeft 77 " "))
                            (if showProc then clearActivity e0 else e0))
             = slocMap_ e0).
  { intros e0. unfold clearActivity.
    destruct showProc, (running Rslt (loggers e0)); reflexivity. }
  assert (H1 : slocMap_ e1 = recordedSlocs (cppHeaderFiles e) (slocMap_ e))
    by apply loop_slocMap.
  assert (H2 : slocMap_ e2 = recordedSlocs (cppImplemFiles e1) (slocMap_ e1))
    by apply loop_slocMap.
  assert (H3 : slocMap_ e3 = recordedSlocs (csharpFiles e2) (slocMap_ e2))
    by apply loop_slocMap.
  rewrite Hclose, H3, H2, H1, Hf3, Hf2.
  unfold Executive.recordedSlocs, Executive.processedFiles.
  rewrite !fold_left_app. reflexivity.
Qed.

Lemma recordedSlocs_untouched (files : Files) (name : string) :
  (forall g : File, In g files -> getName env g = name -> openFile env g = None) ->
  forall m : gmap string N, recordedSlocs files m !! name = m !! name.
Proof.
  unfold Executive.recordedSlocs.
  induction files as [|f files IH]; intros Hnone m; simpl; [reflexivity|].
  rewrite IH by (intros g Hg; apply Hnone; right; exact Hg).
  unfold Executive.recordFile.
  destruct (openFile env f) as [src|] eqn:Hopen; [|reflexivity].
  apply lookup_insert_ne. intros Hname.
  rewrite (Hnone f (or_introl eq_refl) Hname) in Hopen. discriminate.
Qed.

(** X4. The line count table is keyed by file name alone. After
    [processSourceCode] the entry of a name is the count of the last
    processed file of that name that could be opened, wherever that file
    lies, so two files of one name in different directories share one
    entry; and a name that no opened file bears keeps the entry it had
    before, or none. *)
Theorem line_count_of_a_name_is_the_last_parsed (showProc : bool) (e : Exec) :
  let table := slocMap_ (processSourceCode showProc e) in
  (forall (before after : Files) (file : File) (src : Source),
      processedFiles e = before ++ file :: after ->
      openFile env file = Some src ->
      (forall g : File, In g after -> getName env g = getName env file ->
                        openFile env g = None) ->
      table !! getName env file = Some (currentLineCount src)) /\
  (forall name : string,
      (forall g : File, In g (processedFiles e) -> getName env g = name ->
                        openFile env g = None) ->
      table !! name = slocMap_ e !! name).
Proof.
  intros table. subst table. rewrite processSourceCode_slocMap. split.
  - intros before after file src Hsplit Hopen Hlater. rewrite Hsplit.
    unfold Executive.recordedSlocs. rewrite fold_left_app. simpl.
    fold (recordedSlocs after (recordFile (fold_left recordFile before (slocMap_ e)) file)).
    rewrite recordedSlocs_untouched by exact Hlater.
    unfold Executive.recordFile at 1. rewrite Hopen. apply lookup_insert_eq.
  - intros name Hnone. apply recordedSlocs_untouched. exact Hnone.
Qed.

(** X5. A file that cannot be opened still has its name written to the
    repository's package field, while the current path, the language, the
    tree and the line count table stay those left by the file before it: after
    an opened file and then a failed one, the package names the failed file
    and the current path the opened one. *)
Theorem failed_attach_renames_package_only
  (ph : Phase) (showProc : bool) (e : Exec) (opened failed : File) (src : Source) :
  openFile env opened = Some src ->
  openFile env failed = None ->
  let e1 := processFile ph showProc e opened in
  let e2 := processFile ph showProc e1 failed in
  package (pRepo_ e2) = getName env failed /\
  currentPath (pRepo_ e2) = opened /\
  language (pRepo_ e2) = phaseLanguage ph /\
  getGlobalScope (pRepo_ e2) = getGlobalScope (pRepo_ e1) /\
  slocMap_ e2 = <[getName env opened := currentLineCount src]> (slocMap_ e).
Proof.
  intros Hopen Hfail e1 e2.
  destruct (processFile_opened ph showProc e opened src Hopen) as (_ & Hl & Hc & _ & Hs).
  destruct (processFile_unopened ph showProc e1 failed Hfail) as (Hs2 & Hg2 & Hl2 & Hc2 & Hp2).
  fold e1 in Hl, Hc, Hs. fold e2 in Hs2, Hg2, Hl2, Hc2, Hp2.
  repeat split; congruence.
Qed.

(** ** Collecting the source files *)

Lemma getSourceFiles_fields (e : Exec) :
  let ns := search env (path_ e) (patterns_ e) in
  let e1 := getSourceFiles e in
  (forall p : Pattern,
      subscript [] (fileMap_ e1) p =
        subscript [] (fileMap_ e) p ++ AnalFileMgr.filedUnder (getExt env) p "" ns) /\
  AnalFileMgr.storedFiles (fileMap_ e1) =
    AnalFileMgr.countFiles ns + AnalFileMgr.storedFiles (fileMap_ e) /\
  path_ e1 = path_ e /\ patterns_ e1 = patterns_ e /\ options_ e1 = options_ e /\
  slocMap_ e1 = slocMap_ e /\ pRepo_ e1 = pRepo_ e /\ loggers e1 = loggers e /\
  trace e1 = trace e.
Proof.
  intros ns e1. subst e1. unfold Executive.getSourceFiles. cbv zeta.
  cbn [fileMap_ with_counts with_fileMap_ path_ patterns_ options_ slocMap_ pRepo_
       loggers trace].
  fold ns. split; [|split; [|repeat split]].
  - intros p.
    apply (AnalFileMgrFacts.deliver_fileMap (bits env) (getExt env) ns
             (AnalFileMgr.AnalFileMgr (path_ e) (fileMap_ e)) p).
  - apply (AnalFileMgrFacts.deliver_storedFiles (bits env) (getExt env) ns
             (AnalFileMgr.AnalFileMgr (path_ e) (fileMap_ e))).
Qed.

Lemma getSourceFiles_counts (e : Exec) :
  let ns := search env (path_ e) (patterns_ e) in
  (N.of_nat (AnalFileMgr.countFiles ns) < 2 ^ bits env)%N ->
  (N.of_nat (AnalFileMgr.countDirs ns) < 2 ^ bits env)%N ->
  numFiles (getSourceFiles e) = N.of_nat (AnalFileMgr.countFiles ns) /\
  numDirs (getSourceFiles e) = N.of_nat (AnalFileMgr.countDirs ns).
Proof.
  intros ns Hf Hd. unfold Executive.getSourceFiles, numFiles, numDirs. cbv zeta.
  cbn [numFiles_ numDirs_ with_counts]. fold ns.
  unfold AnalFileMgr.numFiles, AnalFileMgr.numDirs.
  rewrite AnalFileMgrFacts.deliver_numFiles, AnalFileMgrFacts.deliver_numDirs
    by (simpl; lia).
  split; reflexivity.
Qed.

(** X6. [getSourceFiles] never clears the file map: it appends what the
    search finds to the vectors the map already holds, while [numFiles()]
    and [numDirs()] report the latest search alone. Run twice on the same
    directory, it stores every file twice, and [numFiles()] is then half of
    what the map gained. Nothing else of the executive changes. *)
Theorem getSourceFiles_appends_to_the_map (e : Exec) :
  let ns := search env (path_ e) (patterns_ e) in
  let found := fun p => AnalFileMgr.filedUnder (getExt env) p "" ns in
  (N.of_nat (AnalFileMgr.countFiles ns) < 2 ^ bits env)%N ->
  (N.of_nat (AnalFileMgr.countDirs ns) < 2 ^ bits env)%N ->
  let e1 := getSourceFiles e in
  let e2 := getSourceFiles e1 in
  (forall p : Pattern,
      subscript [] (fileMap_ e1) p = subscript [] (fileMap_ e) p ++ found p) /\
  numFiles e1 = N.of_nat (AnalFileMgr.countFiles ns) /\
  numDirs e1 = N.of_nat (AnalFileMgr.countDirs ns) /\
  (forall p : Pattern,
      subscript [] (fileMap_ e2) p = subscript [] (fileMap_ e) p ++ found p ++ found p) /\
  numFiles e2 = N.of_nat (AnalFileMgr.countFiles ns) /\
  AnalFileMgr.storedFiles (fileMap_ e2) =
    2 * AnalFileMgr.countFiles ns + AnalFileMgr.storedFiles (fileMap_ e) /\
  (path_ e1 = path_ e /\ patterns_ e1 = patterns_ e /\ options_ e1 = options_ e /\
   slocMap_ e1 = slocMap_ e /\ pRepo_ e1 = pRepo_ e /\ loggers e1 = loggers e /\
   trace e1 = trace e).
Proof.
  intros ns found Hf Hd e1 e2.
  destruct (getSourceFiles_fields e) as (Hmap1 & Hst1 & Hpath & Hpat & Hrest).
  fold ns e1 in Hmap1, Hst1, Hpath, Hpat, Hrest.
  destruct (getSourceFiles_fields e1) as (Hmap2 & Hst2 & _).
  fold e2 in Hmap2, Hst2. rewrite Hpath, Hpat in Hmap2, Hst2. fold ns in Hmap2, Hst2.
  destruct (getSourceFiles_counts e Hf Hd) as [Hn1 Hd1]. fold ns e1 in Hn1, Hd1.
  assert (Hf' : (N.of_nat (AnalFileMgr.countFiles (search env (path_ e1) (patterns_ e1)))
                 < 2 ^ bits env)%N) by (rewrite Hpath, Hpat; exact Hf).
  assert (Hd' : (N.of_nat (AnalFileMgr.countDirs (search env (path_ e1) (patterns_ e1)))
                 < 2 ^ bits env)%N) by (rewrite Hpath, Hpat; exact Hd).
  destruct (getSourceFiles_counts e1 Hf' Hd') as [Hn2 _].
  fold e2 in Hn2. rewrite Hpath, Hpat in Hn2. fold ns in Hn2.
  split; [exact Hmap1|]. split; [exact Hn1|]. split; [exact Hd1|].
  split; [|split; [exact Hn2|split]].
  - intros p. rewrite Hmap2, Hmap1, <- app_assoc. reflexivity.
  - rewrite Hst2, Hst1. lia.
  - split; [exact Hpath|]. split; [exact Hpat|]. exact Hrest.
Qed.

(** ** The command line, on any executive *)

(** X7. What [ProcessCommandLine] keeps of a command line, also when it
    returns false. It returns true exactly when there are at least two
    arguments, the path exists and the executive holds a pattern afterwards,
    one it held before or one just read: the patterns and options of earlier
    calls stay. With fewer than two arguments it only shows the usage. In
    every other case the path member is overwritten; when the path does not
    exist nothing is read from the arguments; when it exists, all options
    and patterns are recorded, even if the call then fails for lack of a
    pattern. *)
Theorem ProcessCommandLine_keeps_what_it_read (argv : list string) (e : Exec) :
  let args := skipn 2 argv in
  let path := getFullFileSpec env (nth 1 argv "") in
  let succeeded := fst (ProcessCommandLine argv e) in
  let e' := snd (ProcessCommandLine argv e) in
  (succeeded = true <->
   2 <= length argv /\ dirExists env path = true /\
   patterns_ e ++ List.filter isPattern args <> []) /\
  (length argv < 2 -> e' = showUsage e) /\
  (2 <= length argv -> path_ e' = path) /\
  (2 <= length argv -> dirExists env path = false ->
   options_ e' = options_ e /\ patterns_ e' = patterns_ e /\
   trace e' = trace e ++ [Cout (PathDoesNotExist path)]) /\
  (2 <= length argv -> dirExists env path = true ->
   options_ e' = options_ e ++ map (fun arg => charAt arg 1) (List.filter isOption args) /\
   patterns_ e' = patterns_ e ++ List.filter isPattern args).
Proof.
  intros args path succeeded e'. subst succeeded e' args path.
  unfold Executive.ProcessCommandLine.
  destruct (Nat.ltb_spec (length argv) 2) as [Hlt|Hge]; cbn [fst snd].
  { split; [split; [discriminate | intros (H & _); lia]|].
    split; [reflexivity|]. repeat split; intros; lia. }
  cbv zeta. cbn [path_ with_path_].
  destruct (dirExists env (getFullFileSpec env (nth 1 argv ""))) eqn:Hdir; cbn [negb fst snd].
  - match goal with |- context [fold_left readArgument _ ?e0] =>
      destruct (readArguments (skipn 2 argv) e0) as (Ho & Hp & Hpath & Ht);
      set (e1 := fold_left readArgument (skipn 2 argv) e0) in *
    end.
    cbv zeta in Ho, Hp, Hpath, Ht. cbn [options_ patterns_ path_ with_path_] in Ho, Hp, Hpath.
    assert (Hshow : forall x : Exec, path_ (showUsage x) = path_ x /\
                      options_ (showUsage x) = options_ x /\
                      patterns_ (showUsage x) = patterns_ x) by (intros; repeat split).
    destruct (Nat.eqb_spec (length (patterns_ e1)) 0) as [Hz|Hnz]; cbn [fst snd].
    + apply length_zero_iff_nil in Hz.
      split; [split; [discriminate|]|].
      { intros (_ & _ & Hne). rewrite <- Hp in Hne. contradiction. }
      split; [intros; lia|].
      split; [intros _; rewrite (proj1 (Hshow e1)); exact Hpath|].
      split; [intros _; discriminate|]. intros _ _.
      destruct (Hshow e1) as (_ & -> & ->). split; assumption.
    + split; [split; [intros _|reflexivity]|].
      { split; [exact Hge|]. split; [reflexivity|]. rewrite <- Hp. intros Hnil.
        rewrite Hnil in Hnz. contradiction. }
      split; [intros; lia|]. split; [intros _; exact Hpath|].
      split; [intros _; discriminate|]. intros _ _. split; assumption.
  - split; [split; [discriminate | intros (_ & H & _); discriminate]|].
    split; [intros; lia|]. split; [reflexivity|].
    split; [intros _ _; repeat split | intros _; discriminate].
Qed.

(** ** The display modes *)

Lemma startedBy_cons (opt : ascii) (opts : list ascii) (r : Running) :
  startedBy (opt :: opts) r = startedBy opts (startedBy [opt] r).
Proof.
  unfold startedBy. cbn [existsb rsltRunning demoRunning dbugRunning].
  rewrite !orb_false_r, !orb_assoc. reflexivity.
Qed.

Lemma startedBy_nil (r : Running) : startedBy [] r = r.
Proof. destruct r. unfold startedBy. simpl. rewrite !orb_false_r. reflexivity. Qed.

Lemma setDisplayMode_fields (e : Exec) (opt : ascii) :
  let e' := setDisplayMode e opt in
  trace e' = trace e ++ modeEvents (path_ e) opt /\
  loggers e' = startedBy [opt] (loggers e) /\
  path_ e' = path_ e /\ options_ e' = options_ e /\ patterns_ e' = patterns_ e /\
  fileMap_ e' = fileMap_ e /\ slocMap_ e' = slocMap_ e /\ pRepo_ e' = pRepo_ e /\
  numFiles_ e' = numFiles_ e /\ numDirs_ e' = numDirs_ e.
Proof.
  unfold Executive.setDisplayMode, Executive.modeEvents, startedBy.
  cbn [existsb].
  destruct (Ascii.eqb_spec opt "r") as [->|_].
  { cbv zeta. split; [reflexivity|]. split; [|repeat split].
    cbn. rewrite !orb_false_r, orb_true_r. reflexivity. }
  destruct (Ascii.eqb_spec opt "d") as [->|_].
  { cbv zeta. split; [reflexivity|]. split; [|repeat split].
    cbn. rewrite !orb_false_r, orb_true_r. reflexivity. }
  destruct (Ascii.eqb_spec opt "b") as [->|_].
  { cbv zeta. split; [reflexivity|]. split; [|repeat split].
    cbn. rewrite !orb_false_r, orb_true_r. reflexivity. }
  assert (Hsame : mkRunning (rsltRunning (loggers e) || (false || false))
                            (demoRunning (loggers e) || (false || false))
                            (dbugRunning (loggers e) || (false || false)) = loggers e)
    by (destruct (loggers e); cbn; rewrite !orb_false_r; reflexivity).
  destruct (Ascii.eqb opt "f").
  { unfold Executive.setLogFile, getAnalysisPath. cbv zeta.
    destruct (good env _); cbv zeta.
    - split; [unfold attach; rewrite !trace_emit, <- !app_assoc; reflexivity|].
      split; [rewrite Hsame; reflexivity | repeat split].
    - split; [reflexivity|]. split; [rewrite Hsame; reflexivity | repeat split]. }
  destruct (knownOption opt); cbv zeta.
  - split; [rewrite app_nil_r; reflexivity|].
    split; [rewrite Hsame; reflexivity | repeat split].
  - split; [reflexivity|]. split; [rewrite Hsame; reflexivity | repeat split].
Qed.

Lemma setDisplayMode_loop (opts : list ascii) :
  forall e : Exec,
    let e' := fold_left setDisplayMode opts e in
    trace e' = trace e ++ flat_map (modeEvents (path_ e)) opts /\
    loggers e' = startedBy opts (loggers e) /\
    path_ e' = path_ e /\ options_ e' = options_ e /\ patterns_ e' = patterns_ e /\
    fileMap_ e' = fileMap_ e /\ slocMap_ e' = slocMap_ e /\ pRepo_ e' = pRepo_ e /\
    numFiles_ e' = numFiles_ e /\ numDirs_ e' = numDirs_ e.
Proof.
  induction opts as [|opt opts IH]; intros e; cbv zeta.
  - cbn [fold_left flat_map]. rewrite app_nil_r, startedBy_nil. repeat split.
  - cbn [fold_left flat_map].
    destruct (setDisplayMode_fields e opt)
      as (Ht & Hl & Hp & Ho & Hpat & Hfm & Hs & Hr & Hnf & Hnd).
    destruct (IH (setDisplayMode e opt))
      as (Ht' & Hl' & Hp' & Ho' & Hpat' & Hfm' & Hs' & Hr' & Hnf' & Hnd').
    cbv zeta in *.
    rewrite Ht', Hl', Hp', Ho', Hpat', Hfm', Hs', Hr', Hnf', Hnd'.
    rewrite Ht, Hl, Hp, Ho, Hpat, Hfm, Hs, Hr, Hnf, Hnd.
    rewrite <- app_assoc, <- startedBy_cons. repeat split.
Qed.



Lemma startLogger_fields (out : Stream) (e : Exec) :
  trace (startLogger out e) =
    trace e ++ [AttachStream Rslt out; AttachStream Demo out; AttachStream Dbug out]
            ++ flat_map (modeEvents (path_ e)) (options_ e).
Proof.
  unfold Executive.startLogger.
  destruct (setDisplayMode_loop (options_ (attach out e)) (attach out e)) as (Ht & _).
  fold (setDisplayModes (attach out e)) in Ht. rewrite Ht.
  unfold attach. rewrite !trace_emit, <- !app_assoc. reflexivity.
Qed.

(** X9. [main] applies the display options twice: once by its own call of
    [setDisplayModes] and once more inside [startLogger], after the
    standard output has been attached to the three loggers. So a run that
    gets past the command line starts with the calls of the options, the
    three attachments, and the same calls of the options again; a log file
    asked for with /f is opened twice and every unknown option is reported
    twice. *)
Theorem main_applies_display_modes_twice (argv : list string) (exec exec' : Exec) :
  CodeAnalysisExecutive = Ok exec ->
  ProcessCommandLine argv exec = (true, exec') ->
  let modes := flat_map (modeEvents (path_ exec')) (options_ exec') in
  exists (text : string) (rest : list Event),
    snd (main argv) =
      modes
      ++ [AttachStream Rslt StdCout; AttachStream Demo StdCout; AttachStream Dbug StdCout]
      ++ modes
      ++ [Write Rslt text; Flush Rslt; Write Rslt NL]
      ++ rest.
Proof.
  intros Hctor Hcmd modes.
  assert (Hrun : exists rest0 : list Event,
             snd (main argv) = trace (sourcesCollected argv exec') ++ rest0).
  { destruct (main_accepted argv exec exec' Hctor Hcmd)
      as [->|[(what & evs & _ & _ & ->)|[(what & _ & ->)|(what & _ & ->)]]];
      cbn [snd]; rewrite ?processSourceCode_trace, <- ?app_assoc; eexists; reflexivity. }
  destruct Hrun as [rest0 Hrun]. rewrite Hrun.
  set (e := sourcesCollected argv exec').
  assert (Hnil : trace exec' = []).
  { pose proof (ProcessCommandLine_trace argv exec exec' true Hcmd) as Ht.
    cbn in Ht. rewrite Ht. apply (constructed_has_no_trace exec Hctor). }
  destruct (setDisplayMode_loop (options_ exec') exec') as (Ht & _ & Hp & Ho & _).
  fold (setDisplayModes exec') in Ht, Hp, Ho.
  assert (He : exists text : string,
             trace e = modes
               ++ [AttachStream Rslt StdCout; AttachStream Demo StdCout;
                   AttachStream Dbug StdCout]
               ++ modes ++ [Write Rslt text; Flush Rslt; Write Rslt NL]).
  { subst e. unfold Executive.sourcesCollected.
    destruct (getSourceFiles_fields
                (emit (Write Rslt NL)
                   (showCommandLineArguments argv
                      (startLogger StdCout (setDisplayModes exec')))))
      as (_ & _ & _ & _ & _ & _ & _ & _ & Hg).
    rewrite Hg. unfold Executive.showCommandLineArguments. cbv zeta.
    rewrite !trace_emit, startLogger_fields, Ht, Hp, Ho, Hnil.
    eexists. cbn [app]. rewrite <- !app_assoc. reflexivity. }
  destruct He as [text He]. rewrite He.
  exists text, rest0. rewrite <- !app_assoc. reflexivity.
Qed.

(** ** Columns *)

Lemma length_spaces (n : nat) : String.length (spaces n) = n.
Proof. induction n as [|n IH]; [reflexivity|]. simpl. rewrite <- IH at 2. reflexivity. Qed.

Lemma length_setwRight (w : nat) (s : string) :
  String.length (setwRight w s) = Nat.max w (String.length s).
Proof. unfold setwRight. rewrite length_append, length_spaces. lia. Qed.

Lemma length_setwLeft (w : nat) (s : string) :
  String.length (setwLeft w s) = Nat.max w (String.length s).
Proof. unfold setwLeft. rewrite length_append, length_spaces. lia. Qed.

Lemma length_trunc (s : string) :
  forall count : nat, String.length (trunc s count) = Nat.min count (String.length s).
Proof.
  unfold trunc. induction s as [|c s IH]; intros [|count]; try reflexivity.
  simpl. rewrite IH. reflexivity.
Qed.

Lemma trunc_short (s : string) :
  forall count : nat, String.length s <= count -> trunc s count = s.
Proof.
  unfold trunc. induction s as [|c s IH]; intros [|count] Hlen; try reflexivity.
  - simpl in Hlen. lia.
  - simpl. rewrite IH by (simpl in Hlen; lia). reflexivity.
Qed.

(** X17. The activity line has a fixed width: whatever the file name,
    [showActivity] shows exactly 80 characters after its label, the name
    followed by blanks when it is shorter and its first 80 characters when
    it is longer, so that a line written over the previous one leaves
    nothing of it. Nothing is shown unless the results logger runs. *)
Theorem showActivity_has_fixed_width (file : File) (e : Exec) :
  (running Rslt (loggers e) = false -> showActivity file e = e) /\
  (running Rslt (loggers e) = true ->
   exists shown : string,
     showActivity file e = emit (Cout (ProcessingFile shown)) e /\
     String.length shown = 80 /\
     (String.length file <= 80 -> shown = file +:+ spaces (80 - String.length file)) /\
     (80 <= String.length file -> shown = substring 0 80 file)).
Proof.
  unfold showActivity. split; intros Hrun; rewrite Hrun; [reflexivity|].
  exists (setwLeft 80 (trunc file 80)). split; [reflexivity|].
  split; [rewrite length_setwLeft, length_trunc; lia|]. split.
  - intros Hshort. rewrite (trunc_short file 80 Hshort). reflexivity.
  - intros Hlong. unfold setwLeft. rewrite length_trunc.
    replace (80 - Nat.min 80 (String.length file)) with 0 by lia.
    apply append_empty_r.
Qed.

(** X18. The width of a metrics line. The file name and the node's name
    never leave their columns, because they are cut to 23 and to 33
    characters; the type and the three numbers are not cut, so each
    widens the line by what it has beyond its column of 12 or of 8. A line
    whose type has at most 12 characters and whose numbers have at most 8
    digits is 98 characters long. *)
Theorem metrics_line_width (file : File) (pNode : ASTNode) :
  let beyond := fun (w : nat) (s : string) => String.length s - w in
  String.length (metricsLine file pNode)
  = 98 + beyond 12 (type_ pNode) + beyond 8 (pretty (startLineCount_ pNode))
       + beyond 8 (pretty (sizeInLines pNode)) + beyond 8 (pretty (complexity_ pNode)).
Proof.
  cbv beta zeta. unfold Executive.metricsLine. cbv zeta.
  rewrite !length_append, !length_setwRight, !length_trunc.
  change (String.length NL) with 1. change (String.length " ") with 1. lia.
Qed.

(** ** The command line as it is shown *)

Lemma listed_arguments (args : list string) :
  forall (out last : string),
    fold_left (fun out arg => out +:+ arg +:+ ", ") args out +:+ last
    = out +:+ String.concat ", " (args ++ [last]).
Proof.
  induction args as [|arg args IH]; intros out last; [reflexivity|].
  cbn [fold_left app]. rewrite IH.
  assert (Hconcat : String.concat ", " (arg :: args ++ [last])
                    = arg +:+ ", " +:+ String.concat ", " (args ++ [last])).
  { destruct args; reflexivity. }
  rewrite Hconcat, !append_associative. reflexivity.
Qed.

Lemma firstn_then_last (l : list string) :
  l <> [] -> firstn (length l - 1) l ++ [nth (length l - 1) l ""] = l.
Proof.
  induction l as [|x l IH]; [congruence|]. intros _.
  destruct l as [|y l]; [reflexivity|].
  assert (IH' : firstn (length (y :: l) - 1) (y :: l)
                ++ [nth (length (y :: l) - 1) (y :: l) ""] = y :: l)
    by (apply IH; congruence).
  replace (length (x :: y :: l) - 1) with (S (length (y :: l) - 1)) by (simpl; lia).
  set (n := length (y :: l) - 1) in *.
  cbn [firstn nth app]. f_equal. exact IH'.
Qed.

(** X19. What [showCommandLineArguments] writes after the path. With three
    arguments or more it is the list of the arguments behind the path,
    separated by a comma and a blank and without one at the end. With no
    argument behind the path it is the path as it was typed, not an empty
    list: [argv[argc - 1]] is then [argv[1]]. *)
Theorem showCommandLineArguments_lists_the_arguments (argv : list string) (e : Exec) :
  let head := NL +:+ "     Path: " +:+ DQ +:+ getFullFileSpec env (nth 1 argv "")
              +:+ DQ +:+ NL +:+ "     Args: " in
  (3 <= length argv ->
   showCommandLineArguments argv e
   = emit (Flush Rslt) (emit (Write Rslt (head +:+ String.concat ", " (skipn 2 argv))) e)) /\
  (length argv = 2 ->
   showCommandLineArguments argv e
   = emit (Flush Rslt) (emit (Write Rslt (head +:+ nth 1 argv "")) e)).
Proof.
  intros head. unfold Executive.showCommandLineArguments. cbv zeta. fold head. split.
  - intros Hlen.
    destruct argv as [|a0 [|a1 args]]; try (simpl in Hlen; lia).
    assert (Hargs : args <> []) by (destruct args; [simpl in Hlen; lia | congruence]).
    change (skipn 2 (a0 :: a1 :: args)) with args.
    replace (length (a0 :: a1 :: args) - 3) with (length args - 1) by (simpl; lia).
    replace (nth (length (a0 :: a1 :: args) - 1) (a0 :: a1 :: args) "")
      with (nth (length args - 1) args "").
    + rewrite listed_arguments, (firstn_then_last args Hargs). reflexivity.
    + destruct args as [|a2 args]; [congruence|]. simpl. rewrite Nat.sub_0_r. reflexivity.
  - intros Hlen.
    destruct argv as [|a0 [|a1 [|a2 args]]]; try (simpl in Hlen; lia).
    reflexivity.
Qed.

End Program.

(** ** Properties of the displays *)

(** ** The order of the line count display *)

Lemma size_wrap_small (bits : N) (z : Z) :
  (0 <= z < 2 ^ Z.of_N bits)%Z -> size_wrap bits z = Z.to_N z.
Proof. intros Hz. unfold size_wrap. rewrite Z.mod_small by exact Hz. reflexivity. Qed.

Lemma pow_bits (bits : N) : Z.of_N (2 ^ bits) = (2 ^ Z.of_N bits)%Z.
Proof. rewrite N2Z.inj_pow. reflexivity. Qed.

Lemma npos_value (bits : N) : npos bits = (2 ^ bits - 1)%N.
Proof.
  unfold npos, size_wrap.
  assert (Hpos : (0 < 2 ^ Z.of_N bits)%Z) by (apply Z.pow_pos_nonneg; lia).
  replace (-1)%Z with (2 ^ Z.of_N bits - 1 + (-1) * 2 ^ Z.of_N bits)%Z by lia.
  rewrite Z.mod_add by lia. rewrite Z.mod_small by lia.
  rewrite <- pow_bits. lia.
Qed.

Lemma length_append3 (base ext : string) :
  String.length (base +:+ "." +:+ ext) = String.length base + 1 + String.length ext.
Proof.
  induction base as [|c base IH]; [reflexivity|].
  change (String c base +:+ "." +:+ ext) with (String c (base +:+ "." +:+ ext)).
  simpl. rewrite IH. reflexivity.
Qed.

Lemma charAt_after_dot (base ext : string) :
  charAt (base +:+ "." +:+ ext) (String.length base + 1) = charAt ext 0.
Proof.
  induction base as [|c base IH]; [destruct ext; reflexivity|].
  change (String c base +:+ "." +:+ ext) with (String c (base +:+ "." +:+ ext)).
  exact IH.
Qed.

Lemma setChar_after_dot (base : string) (c x : ascii) (rest : string) :
  setChar (base +:+ "." +:+ String x rest) (String.length base + 1) c
  = base +:+ "." +:+ String c rest.
Proof.
  induction base as [|y base IH]; [reflexivity|].
  change (String y base +:+ "." +:+ String x rest)
    with (String y (base +:+ "." +:+ String x rest)).
  simpl. rewrite IH. reflexivity.
Qed.

(** What [ChangeFirstCharOfExt] returns for a name that [size_t] can
    measure. *)
Lemma ChangeFirstCharOfExt_value (bits : N) (fileName : string) :
  (N.of_nat (String.length fileName) < 2 ^ bits)%N ->
  (dotFree fileName = true -> ChangeFirstCharOfExt bits fileName = fileName) /\
  (forall base ext : string,
      fileName = base +:+ "." +:+ ext -> dotFree ext = true ->
      ChangeFirstCharOfExt bits fileName = base +:+ "." +:+ headerFirst ext).
Proof.
  intros Hlen. unfold ChangeFirstCharOfExt. cbv zeta.
  assert (Hpow : Z.of_N (2 ^ bits) = (2 ^ Z.of_N bits)%Z) by apply pow_bits.
  split.
  - intros Hfree. apply find_last_of_dotFree in Hfree. rewrite Hfree.
    rewrite npos_value.
    destruct (N.ltb_spec (2 ^ bits - 1) (size_sub bits (N.of_nat (String.length fileName)) 1))
      as [Hlt|_]; [|reflexivity].
    exfalso. unfold size_sub, size_wrap in Hlt.
    assert (Hmod : (0 <= (Z.of_N (N.of_nat (String.length fileName)) - Z.of_N 1)
                         mod 2 ^ Z.of_N bits < 2 ^ Z.of_N bits)%Z)
      by (apply Z.mod_pos_bound; lia).
    lia.
  - intros base ext -> Hext.
    rewrite find_last_of_append by exact Hext.
    rewrite length_append3 in *.
    assert (Hsub : size_sub bits (N.of_nat (String.length base + 1 + String.length ext)) 1
                   = N.of_nat (String.length base + String.length ext)).
    { unfold size_sub. rewrite size_wrap_small by lia. lia. }
    rewrite Hsub.
    destruct (N.ltb_spec (N.of_nat (String.length base))
                (N.of_nat (String.length base + String.length ext))) as [Hlt|Hge].
    + assert (Hadd : N.to_nat (size_add bits (N.of_nat (String.length base)) 1)
                     = String.length base + 1).
      { unfold size_add. rewrite size_wrap_small by lia. lia. }
      rewrite Hadd, charAt_after_dot.
      destruct ext as [|x rest]; [simpl in Hlt; lia|].
      unfold charAt, headerFirst. simpl.
      destruct (Ascii.eqb x "h"); [apply setChar_after_dot | reflexivity].
    + destruct ext as [|x rest]; [reflexivity | simpl in Hge; lia].
Qed.

(** X11. How [compFiles] orders two files of the same folder and base name:
    by their extensions, where a leading h is read as an a. So a header
    x.h or x.hpp is listed before x.cpp, x.c and x.cs; and two files whose
    extensions differ only in a leading h against a leading a are not
    ordered at all, which makes them one key of a [std::map] ordered by
    [compFiles]. *)
Theorem compFiles_reads_leading_h_as_a (bits : N) (base ext1 ext2 : string) :
  (N.of_nat (String.length (base +:+ "." +:+ ext1)) < 2 ^ bits)%N ->
  (N.of_nat (String.length (base +:+ "." +:+ ext2)) < 2 ^ bits)%N ->
  dotFree ext1 = true -> dotFree ext2 = true ->
  compFiles bits (base +:+ "." +:+ ext1) (base +:+ "." +:+ ext2)
  = String.ltb (headerFirst ext1) (headerFirst ext2).
Proof.
  intros H1 H2 Hd1 Hd2. unfold compFiles.
  rewrite (proj2 (ChangeFirstCharOfExt_value bits _ H1) base ext1 eq_refl Hd1).
  rewrite (proj2 (ChangeFirstCharOfExt_value bits _ H2) base ext2 eq_refl Hd2).
  unfold String.ltb. rewrite compare_append.
  change ("." +:+ headerFirst ext1) with (String "." (headerFirst ext1)).
  change ("." +:+ headerFirst ext2) with (String "." (headerFirst ext2)).
  reflexivity.
Qed.

(** ** Walking the tree *)

(** Induction on a tree, with the property at hand for every child. *)
Lemma ASTNode_nested_ind (P : ASTNode -> Prop)
  (step : forall pItem : ASTNode, List.Forall P (children_ pItem) -> P pItem) :
  forall pItem : ASTNode, P pItem.
Proof.
  fix IH 1. intros pItem. apply step.
  destruct pItem as [type name package startLine endLine complexity children].
  cbn [children_].
  induction children as [|child rest IHrest]; constructor; [apply IH | exact IHrest].
Qed.

Lemma emits_app (a b : list Event) (e : Exec) : emits (a ++ b) e = emits b (emits a e).
Proof. unfold emits. apply fold_left_app. Qed.

Lemma emits_cons (ev : Event) (evs : list Event) (e : Exec) :
  emits (ev :: evs) e = emits evs (emit ev e).
Proof. reflexivity. Qed.

Lemma trace_emits (evs : list Event) :
  forall e : Exec, trace (emits evs e) = trace e ++ evs.
Proof.
  induction evs as [|ev evs IH]; intros e; [rewrite app_nil_r; reflexivity|].
  rewrite emits_cons, IH, trace_emit, <- app_assoc. reflexivity.
Qed.

Lemma size_incr_then_decr (bits n : N) :
  (n < 2 ^ bits)%N -> size_sub bits (size_incr bits n) 1 = n.
Proof.
  intros Hn. unfold size_sub, size_incr. rewrite size_wrap_value.
  unfold size_wrap. change (Z.of_N 1) with 1%Z.
  assert (Hpow : Z.of_N (2 ^ bits) = (2 ^ Z.of_N bits)%Z) by apply pow_bits.
  rewrite Zminus_mod_idemp_l.
  replace (Z.of_N n + 1 - 1)%Z with (Z.of_N n) by lia.
  rewrite Z.mod_small by lia. lia.
Qed.

(** ** A map ordered by a comparison functor *)

Section Assign.

Context {V : Type}.
Variable comp : string -> string -> bool.
Hypothesis comp_asym : forall a b, comp a b = true -> comp b a = false.
Hypothesis comp_trans : forall a b d, comp a b = true -> comp b d = true -> comp a d = true.

Lemma comp_irrefl (a : string) : comp a a = false.
Proof. destruct (comp a a) eqn:H; [|reflexivity]. rewrite (comp_asym a a H) in H. discriminate H. Qed.

Lemma assign_value (key : string) (v : V) (m : list (string * V)) :
  forall (k : string) (v' : V),
    In (k, v') (assign comp key v m) ->
    In (k, v') m \/ (v' = v /\ unordered comp k key /\ In k (key :: map fst m)).
Proof.
  induction m as [|[k0 v0] m IH]; intros k v'; simpl.
  - intros [[= <- <-]|[]]. right. repeat split; try apply comp_irrefl. left. reflexivity.
  - destruct (comp k0 key) eqn:H0.
    + intros [Heq|Hin]; [left; left; exact Heq|].
      destruct (IH k v' Hin) as [Hm|(Hv & Hu & [Hk|Hk])].
      * left. right. exact Hm.
      * right. repeat split; try apply Hu; [exact Hv | left; exact Hk].
      * right. repeat split; try apply Hu; [exact Hv | right; right; exact Hk].
    + destruct (comp key k0) eqn:H1.
      * intros [[= <- <-]|Hin]; [|left; exact Hin].
        right. repeat split; try apply comp_irrefl. left. reflexivity.
      * intros [[= <- <-]|Hin]; [|left; right; exact Hin].
        right. repeat split; try assumption. right. left. reflexivity.
Qed.

Lemma assign_keeps_keys (key : string) (v : V) (m : list (string * V)) :
  forall k : string, In k (map fst m) -> In k (map fst (assign comp key v m)).
Proof.
  induction m as [|[k0 v0] m IH]; intros k; simpl; [intros []|].
  destruct (comp k0 key); [|destruct (comp key k0)]; simpl; intuition.
Qed.

Lemma assign_stores (key : string) (v : V) (m : list (string * V)) :
  exists k : string, In (k, v) (assign comp key v m) /\ unordered comp k key.
Proof.
  induction m as [|[k0 v0] m (k & Hin & Hu)]; simpl.
  - exists key. split; [left; reflexivity | split; apply comp_irrefl].
  - destruct (comp k0 key) eqn:H0.
    + exists k. split; [right; exact Hin | exact Hu].
    + destruct (comp key k0) eqn:H1.
      * exists key. split; [left; reflexivity | split; apply comp_irrefl].
      * exists k0. split; [left; reflexivity | split; assumption].
Qed.

Lemma assign_sorted (key : string) (v : V) (m : list (string * V)) :
  StronglySorted (fun a b => comp (fst a) (fst b) = true) m ->
  StronglySorted (fun a b => comp (fst a) (fst b) = true) (assign comp key v m).
Proof.
  induction 1 as [|[k0 v0] m Hsorted IH Hall]; simpl; [repeat constructor|].
  rewrite List.Forall_forall in Hall.
  destruct (comp k0 key) eqn:H0.
  - constructor; [exact IH|].
    rewrite List.Forall_forall. intros [k v'] Hin.
    destruct (assign_value key v m k v' Hin) as [Hm|(_ & _ & [<-|Hk])].
    + apply (Hall (k, v') Hm).
    + exact H0.
    + apply in_map_iff in Hk. destruct Hk as ([k' v''] & <- & Hk). apply (Hall _ Hk).
  - destruct (comp key k0) eqn:H1.
    + constructor; [constructor; [exact Hsorted | rewrite List.Forall_forall; exact Hall]|].
      rewrite List.Forall_forall. intros [k v'] [[= <- <-]|Hin]; [exact H1|].
      apply (comp_trans _ _ _ H1 (Hall _ Hin)).
    + constructor; [exact Hsorted|].
      rewrite List.Forall_forall. intros b Hb. apply (Hall b Hb).
Qed.

End Assign.

Lemma compFiles_asym (bits : N) (a b : string) :
  compFiles bits a b = true -> compFiles bits b a = false.
Proof. apply ltb_asym. Qed.

Lemma compFiles_trans (bits : N) (a b d : string) :
  compFiles bits a b = true -> compFiles bits b d = true -> compFiles bits a d = true.
Proof. apply ltb_trans. Qed.

Lemma with_slocMap_same (e : Exec) : with_slocMap_ (slocMap_ e) e = e.
Proof. destruct e. reflexivity. Qed.

Lemma emits_members (evs : list Event) :
  forall e : Exec,
    emits evs e = mkExec (path_ e) (patterns_ e) (options_ e) (fileMap_ e) (slocMap_ e)
                         (numFiles_ e) (numDirs_ e) (pRepo_ e) (loggers e) (trace e ++ evs).
Proof.
  induction evs as [|ev evs IH]; intros e.
  - rewrite app_nil_r. destruct e. reflexivity.
  - rewrite emits_cons, IH. cbn [emit path_ patterns_ options_ fileMap_ slocMap_ numFiles_
                                 numDirs_ pRepo_ loggers trace].
    rewrite <- app_assoc. reflexivity.
Qed.

Section Displays.

Variable env : Env.
Variable show : ASTNode -> string.
Variable path_of : ASTNode -> Path.
Variable title : string -> list Event.
Variable sTitle : string -> nat -> nat -> list Event.

Local Abbreviation CompExts := (Executive.CompExts env).
Local Abbreviation CompNames := (Executive.CompNames env).

(** X12. The two stable sorts of [displayMetrics] and
    [displayMetricSummary], first with [CompExts] and then with
    [CompNames], rearrange the collection so that the names without
    extension ascend, and among entries of one such name the extensions
    descend: the nodes of X.h come before those of X.cpp. *)
Theorem sorted_by_name_then_by_descending_extension (fileNodes_ : list (File * ASTNode)) :
  let sorted := stable_sort CompNames (stable_sort CompExts fileNodes_) in
  let name := fun item : File * ASTNode => removeExt (getName env (fst item)) in
  let ext := fun item : File * ASTNode => getExt env (fst item) in
  Permutation fileNodes_ sorted /\
  StronglySorted
    (fun a b => String.ltb (name b) (name a) = false /\
                (name a = name b -> String.ltb (ext a) (ext b) = false))
    sorted.
Proof.
  intros sorted name ext. split.
  - subst sorted. rewrite <- !stable_sort_Permutation. reflexivity.
  - assert (Hs : StronglySorted
                   (fun a b => CompNames a b = true \/
                               (CompNames b a = false /\ CompExts b a = false)) sorted).
    { apply stable_sort_twice; unfold Executive.CompExts, Executive.CompNames; cbv zeta.
      - intros a b. apply ltb_asym.
      - intros a b d Hab Hbd. exact (ltb_negtrans _ _ _ Hbd Hab).
      - intros a b d. apply ltb_trans.
      - intros a b d. apply ltb_negtrans. }
    eapply StronglySorted_weaken; [|exact Hs].
    intros a b. unfold Executive.CompExts, Executive.CompNames. cbv zeta. fold (name a) (name b).
    intros [Hab|[Hba Hext]].
    + split; [apply ltb_asym; exact Hab|]. intros Heq. rewrite Heq, ltb_irrefl in Hab.
      discriminate.
    + split; [exact Hba|]. intros _. exact Hext.
Qed.

Local Abbreviation TreeWalk := (Executive.TreeWalk env show path_of).
Local Abbreviation displayAST := (Executive.displayAST env show path_of title).
Local Abbreviation walkLine := (Executive.walkLine show).

Local Abbreviation fits := (Executive.fits env).
Local Abbreviation walksPlainly := (Executive.walksPlainly env show path_of).

Lemma TreeWalk_children (children : list ASTNode) :
  List.Forall walksPlainly children ->
  forall (st : Static.t) (e : Exec),
    fits (flat_map (preorder (Static.indentLevel st)) children) ->
    fold_left (fun s child => TreeWalk child false s) children (st, e)
    = (st, emits (map walkLine (flat_map (preorder (Static.indentLevel st)) children)) e).
Proof.
  induction 1 as [|child children Hchild _ IH]; intros st e Hfits; [reflexivity|].
  cbn [fold_left flat_map] in *. unfold fits in Hfits.
  apply List.Forall_app in Hfits. destruct Hfits as [Hfirst Hrest].
  rewrite (Hchild st e Hfirst), (IH st _ Hrest), map_app, emits_app. reflexivity.
Qed.

Lemma TreeWalk_node (pItem : ASTNode) (details : bool) (st : Static.t) (e : Exec) :
  List.Forall walksPlainly (children_ pItem) ->
  fits (preorder (Static.indentLevel st) pItem) ->
  let shown := negb (String.eqb (Static.path st) (path_of pItem)) && details in
  TreeWalk pItem details (st, e)
  = (Static.mk (if shown then path_of pItem else Static.path st) (Static.indentLevel st),
     emits ((if shown then [Write Rslt (NL +:+ path_of pItem)] else [])
            ++ map walkLine (preorder (Static.indentLevel st) pItem)) e).
Proof.
  intros Hchildren Hfits shown.
  destruct pItem as [type name package startLine endLine complexity children].
  cbn [Executive.TreeWalk Executive.preorder children_] in *.
  fold shown.
  set (node := mkASTNode type name package startLine endLine complexity children) in *.
  unfold fits in Hfits. apply List.Forall_cons_iff in Hfits.
  destruct Hfits as [Hroot Hrest]. cbn [fst] in Hroot.
  set (level := Static.indentLevel st) in *.
  assert (Hpow : Z.of_N (2 ^ bits env) = (2 ^ Z.of_N (bits env))%Z) by apply pow_bits.
  assert (Hlevel : (level < 2 ^ bits env)%N) by lia.
  assert (Hindent : N.to_nat (size_wrap (bits env) (2 * Z.of_N level)) = 2 * N.to_nat level).
  { rewrite size_wrap_small by lia. lia. }
  assert (Hnext : flat_map (preorder (size_incr (bits env) level)) children
                  = flat_map (preorder (level + 1)) children).
  { destruct children as [|child rest]; [reflexivity|].
    destruct child as [t n p s0 e0 c ch].
    cbn [flat_map Executive.preorder app] in Hrest.
    apply List.Forall_cons_iff in Hrest. destruct Hrest as [Hchild _]. cbn [fst] in Hchild.
    rewrite AnalFileMgrFacts.size_incr_exact by lia. reflexivity. }
  assert (Hwalk : forall (p : string) (e1 : Exec),
             fold_left (fun s child => TreeWalk child false s) children
                       (Static.mk p (size_incr (bits env) level), e1)
             = (Static.mk p (size_incr (bits env) level),
                emits (map walkLine (flat_map (preorder (level + 1)) children)) e1)).
  { intros p e1. rewrite <- Hnext.
    apply (TreeWalk_children children Hchildren
             (Static.mk p (size_incr (bits env) level)) e1).
    cbn [Static.indentLevel]. rewrite Hnext. exact Hrest. }
  destruct shown; cbn [Static.path Static.indentLevel]; fold level;
    rewrite Hwalk; cbn [Static.path Static.indentLevel];
    rewrite size_incr_then_decr by exact Hlevel;
    rewrite Hindent; reflexivity.
Qed.

Lemma TreeWalk_plain (pItem : ASTNode) : walksPlainly pItem.
Proof.
  induction pItem as [pItem IH] using ASTNode_nested_ind.
  intros st e Hfits.
  rewrite (TreeWalk_node pItem false st e IH Hfits).
  rewrite andb_false_r. destruct st. reflexivity.
Qed.

Lemma children_walk_plainly (children : list ASTNode) : List.Forall walksPlainly children.
Proof. apply List.Forall_forall. intros child _. apply TreeWalk_plain. Qed.

(** X13. [TreeWalk] writes one line for every node of the tree, a node
    before its children and the children from the left, each indented by
    two blanks for every level below the level at which the walk started,
    and it returns with the static indentation level it found. Only a walk
    with [details] writes the path, at most once and before the first
    line, and remembers it; the calls for the children never do. Nothing
    else of the executive changes. *)
Theorem TreeWalk_writes_every_node_in_preorder
  (pItem : ASTNode) (details : bool) (st : Static.t) (e : Exec) :
  fits (preorder (Static.indentLevel st) pItem) ->
  let shown := negb (String.eqb (Static.path st) (path_of pItem)) && details in
  TreeWalk pItem details (st, e)
  = (Static.mk (if shown then path_of pItem else Static.path st) (Static.indentLevel st),
     emits ((if shown then [Write Rslt (NL +:+ path_of pItem)] else [])
            ++ map walkLine (preorder (Static.indentLevel st) pItem)) e).
Proof.
  intros Hfits. apply TreeWalk_node; [apply children_walk_plainly | exact Hfits].
Qed.

(** X14. [displayAST] flushes the loggers, shows the title, writes the
    lines of the whole tree and an empty line, and leaves the statics of
    [TreeWalk] as they were: it never writes a path line, and a second call
    writes the same lines again with the same indentation. *)
Theorem displayAST_writes_the_tree_and_keeps_the_statics (st : Static.t) (e : Exec) :
  let root := getGlobalScope (pRepo_ e) in
  fits (preorder (Static.indentLevel st) root) ->
  let shown :=
    [Flush Rslt; Flush Demo; Flush Dbug] ++ title "Abstract Syntax Tree"
    ++ map walkLine (preorder (Static.indentLevel st) root) ++ [Write Rslt NL] in
  displayAST (st, e) = (st, emits shown e) /\
  displayAST (displayAST (st, e)) = (st, emits (shown ++ shown) e).
Proof.
  intros root Hfits shown.
  assert (Hone : forall e1 : Exec,
             getGlobalScope (pRepo_ e1) = root ->
             displayAST (st, e1) = (st, emits shown e1)).
  { intros e1 Hroot. unfold Executive.displayAST. cbv zeta.
    assert (Hflush : flushLogger e1 = emits [Flush Rslt; Flush Demo; Flush Dbug] e1)
      by reflexivity.
    change (getGlobalScope (pRepo_ (flushLogger e1))) with (getGlobalScope (pRepo_ e1)).
    rewrite Hroot, (TreeWalk_plain root st _ Hfits), Hflush.
    subst shown. rewrite !emits_app. reflexivity. }
  assert (Hrepo : forall (evs : list Event) (e1 : Exec), pRepo_ (emits evs e1) = pRepo_ e1).
  { induction evs as [|ev evs IH]; intros e1; [reflexivity|].
    rewrite emits_cons, IH. reflexivity. }
  split; [apply Hone; reflexivity|].
  rewrite (Hone e eq_refl), (Hone (emits shown e)) by (rewrite Hrepo; reflexivity).
  rewrite emits_app. reflexivity.
Qed.

Local Abbreviation collectSloc := (Executive.collectSloc env).
Local Abbreviation writeSloc := (Executive.writeSloc env).
Local Abbreviation displaySlocs := (Executive.displaySlocs env sTitle).
Local Abbreviation storedInOrder := (Executive.storedInOrder env).
Local Abbreviation collected := (Executive.collected env).
Local Abbreviation totalLine := (Executive.totalLine env).

Lemma looked_subscript (names : list string) :
  forall (slocs : gmap string N) (name : string),
    subscript 0%N (looked names slocs) name = subscript 0%N slocs name.
Proof.
  induction names as [|n names IH]; intros slocs name; [reflexivity|].
  cbn [looked fold_left]. fold (looked names (subscripted 0%N slocs n)).
  rewrite IH. apply subscripted_lookup.
Qed.

Lemma collected_reads (files : Files) :
  forall (slocs slocs' : gmap string N) (fileColl : list (File * N)),
    (forall name, subscript 0%N slocs' name = subscript 0%N slocs name) ->
    collected slocs' files fileColl = collected slocs files fileColl.
Proof.
  induction files as [|file files IH]; intros slocs slocs' fileColl Hsame; [reflexivity|].
  unfold Executive.collected. cbn [fold_left]. rewrite Hsame.
  apply (IH slocs slocs' _ Hsame).
Qed.

Lemma collectSloc_loop (files : Files) :
  forall (e : Exec) (fileColl : list (File * N)),
    fold_left collectSloc files (e, fileColl)
    = (with_slocMap_ (looked (map (getName env) files) (slocMap_ e)) e,
       collected (slocMap_ e) files fileColl).
Proof.
  induction files as [|file files IH]; intros e fileColl.
  - cbn [fold_left map looked Executive.collected]. rewrite with_slocMap_same. reflexivity.
  - cbn [fold_left map]. unfold Executive.collectSloc at 2. cbv zeta.
    rewrite IH. cbn [slocMap_ with_slocMap_ path_ patterns_ options_ fileMap_ numFiles_
                     numDirs_ pRepo_ loggers trace].
    f_equal.
    rewrite (collected_reads files (slocMap_ e) (subscripted 0%N (slocMap_ e) (getName env file)))
      by (intros name; apply subscripted_lookup).
    reflexivity.
Qed.

Lemma collect_nested (items : list (Pattern * Files)) :
  forall s : Exec * list (File * N),
    fold_left (fun s item => fold_left collectSloc (snd item) s) items s
    = fold_left collectSloc (flat_map snd items) s.
Proof.
  induction items as [|item items IH]; intros s; [reflexivity|].
  cbn [fold_left flat_map]. rewrite fold_left_app. apply IH.
Qed.

Lemma writeSloc_loop (fileColl : list (File * N)) :
  forall (e : Exec) (slocCount : N),
    fold_left writeSloc fileColl (e, slocCount)
    = (emits (map slocLine fileColl) e,
       fold_left (size_add (bits env)) (map snd fileColl) slocCount).
Proof.
  induction fileColl as [|fitem fileColl IH]; intros e slocCount; [reflexivity|].
  cbn [fold_left map]. unfold Executive.writeSloc at 2. cbv zeta. rewrite IH. reflexivity.
Qed.

(** [displaySlocs] as a whole. *)
Lemma displaySlocs_value (e : Exec) :
  let fileColl := collected (slocMap_ e) (storedInOrder e) [] in
  displaySlocs e =
    mkExec (path_ e) (patterns_ e) (options_ e) (fileMap_ e)
           (looked (map (getName env) (storedInOrder e)) (slocMap_ e))
           (numFiles_ e) (numDirs_ e) (pRepo_ e) (loggers e)
           (trace e ++ [Flush Rslt; Flush Demo; Flush Dbug]
                   ++ sTitle "File Size - Source Lines of Code" 3 92
                   ++ map slocLine fileColl
                   ++ [totalLine fileColl; Write Rslt NL]).
Proof.
  intros fileColl. unfold Executive.displaySlocs. cbv zeta.
  assert (Hflush : flushLogger e = emits [Flush Rslt; Flush Demo; Flush Dbug] e)
    by reflexivity.
  rewrite Hflush, <- emits_app.
  set (e1 := emits _ e).
  assert (He1 : e1 = mkExec (path_ e) (patterns_ e) (options_ e) (fileMap_ e) (slocMap_ e)
                            (numFiles_ e) (numDirs_ e) (pRepo_ e) (loggers e)
                            (trace e ++ [Flush Rslt; Flush Demo; Flush Dbug]
                               ++ sTitle "File Size - Source Lines of Code" 3 92))
    by apply emits_members.
  rewrite collect_nested, collectSloc_loop.
  assert (Hmap : fileMap_ e1 = fileMap_ e) by (rewrite He1; reflexivity).
  assert (Hsloc : slocMap_ e1 = slocMap_ e) by (rewrite He1; reflexivity).
  rewrite Hmap, Hsloc. fold (storedInOrder e). fold fileColl.
  rewrite writeSloc_loop.
  change (emit (Write Rslt NL) (emit ?ev ?x)) with (emits [ev; Write Rslt NL] x).
  rewrite <- emits_app, emits_members.
  rewrite He1. cbn [path_ patterns_ options_ fileMap_ slocMap_ numFiles_ numDirs_ pRepo_
                    loggers trace with_slocMap_].
  rewrite <- !app_assoc. reflexivity.
Qed.

Lemma looked_keeps (names : list string) :
  forall (slocs : gmap string N) (name : string) (v : N),
    slocs !! name = Some v -> looked names slocs !! name = Some v.
Proof.
  induction names as [|n names IH]; intros slocs name v Hv; [exact Hv|].
  cbn [looked fold_left]. fold (looked names (subscripted 0%N slocs n)).
  apply IH. unfold subscripted. destruct (slocs !! n) eqn:Hn; [exact Hv|].
  rewrite lookup_insert_ne; [exact Hv|]. intros <-. congruence.
Qed.

Lemma looked_In (names : list string) :
  forall (slocs : gmap string N) (name : string),
    In name names -> looked names slocs !! name = Some (subscript 0%N slocs name).
Proof.
  induction names as [|n names IH]; intros slocs name; [intros []|].
  cbn [looked fold_left]. fold (looked names (subscripted 0%N slocs n)).
  destruct (decide (n = name)) as [->|Hne].
  - intros _. apply looked_keeps. unfold subscripted, subscript.
    destruct (slocs !! name) eqn:Hn; [exact Hn|]. apply lookup_insert_eq.
  - intros [Heq|Hin]; [contradiction|].
    rewrite (IH _ _ Hin), subscripted_lookup. reflexivity.
Qed.

Lemma looked_other (names : list string) :
  forall (slocs : gmap string N) (name : string),
    ~ In name names -> looked names slocs !! name = slocs !! name.
Proof.
  induction names as [|n names IH]; intros slocs name Hnot; [reflexivity|].
  cbn [looked fold_left]. fold (looked names (subscripted 0%N slocs n)).
  rewrite IH by (intros Hin; apply Hnot; right; exact Hin).
  unfold subscripted. destruct (slocs !! n); [reflexivity|].
  apply lookup_insert_ne. intros ->. apply Hnot. left. reflexivity.
Qed.

(** X15. [displaySlocs] reads the line counts with [slocMap_[fileName]], so
    showing them changes the table: afterwards it has an entry for the
    name of every file of the file map, zero for a name that had none, for
    instance of a file that could not be opened. Entries that exist keep
    their values, names of no stored file get no entry, and no other member
    of the executive changes. *)
Theorem displaySlocs_enters_every_stored_name (e : Exec) :
  let e' := displaySlocs e in
  (forall file : File,
      In file (storedInOrder e) ->
      slocMap_ e' !! getName env file = Some (subscript 0%N (slocMap_ e) (getName env file))) /\
  (forall name : string,
      ~ In name (map (getName env) (storedInOrder e)) ->
      slocMap_ e' !! name = slocMap_ e !! name) /\
  (forall (name : string) (v : N), slocMap_ e !! name = Some v -> slocMap_ e' !! name = Some v) /\
  path_ e' = path_ e /\ patterns_ e' = patterns_ e /\ options_ e' = options_ e /\
  fileMap_ e' = fileMap_ e /\ numFiles_ e' = numFiles_ e /\ numDirs_ e' = numDirs_ e /\
  pRepo_ e' = pRepo_ e /\ loggers e' = loggers e.
Proof.
  intros e'. subst e'. rewrite displaySlocs_value.
  cbn [path_ patterns_ options_ fileMap_ slocMap_ numFiles_ numDirs_ pRepo_ loggers].
  split; [|split; [|split; [|repeat split]]].
  - intros file Hin. apply looked_In. apply in_map. exact Hin.
  - intros name Hnot. apply looked_other. exact Hnot.
  - intros name v Hv. apply looked_keeps. exact Hv.
Qed.

Lemma assign_length {V : Type} (comp : string -> string -> bool) (key : string) (v : V)
  (m : list (string * V)) :
  length (assign comp key v m) <= S (length m).
Proof.
  induction m as [|[k0 v0] m IH]; simpl; [lia|].
  destruct (comp k0 key); [|destruct (comp key k0)]; simpl; lia.
Qed.

Lemma collected_invariant (slocs : gmap string N) (files : Files) :
  forall fileColl : list (File * N),
    let result := collected slocs files fileColl in
    let before := fun a b : File * N => compFiles (bits env) (fst a) (fst b) = true in
    (StronglySorted before fileColl -> StronglySorted before result) /\
    (forall (k : File) (v : N),
        In (k, v) result ->
        (In k (map fst fileColl) \/ In k files) /\
        (In (k, v) fileColl \/
         exists file : File,
           In file files /\ unordered (compFiles (bits env)) k file /\
           v = subscript 0%N slocs (getName env file))) /\
    (forall k : File, In k (map fst fileColl) -> In k (map fst result)) /\
    (forall file : File,
        In file files ->
        exists (k : File) (v : N),
          In (k, v) result /\ unordered (compFiles (bits env)) k file) /\
    length result <= length fileColl + length files.
Proof.
  induction files as [|file files IH]; intros fileColl result before.
  - subst result. cbn [Executive.collected fold_left].
    split; [auto|]. split.
    { intros k v Hin. split; [left; apply in_map_iff; exists (k, v); auto | left; exact Hin]. }
    split; [auto|]. split; [intros ? []|simpl; lia].
  - set (v0 := subscript 0%N slocs (getName env file)).
    set (next := assign (compFiles (bits env)) file v0 fileColl).
    assert (Hresult : result = collected slocs files next) by reflexivity.
    destruct (IH next) as (Hsorted & Hfrom & Hkeys & Hcover & Hlen).
    cbv zeta in Hsorted, Hfrom, Hkeys, Hcover, Hlen. rewrite <- Hresult in *.
    split; [|split; [|split; [|split]]].
    + intros Hs. apply Hsorted. subst next.
      apply assign_sorted; [apply compFiles_asym | apply compFiles_trans | exact Hs].
    + intros k v Hin. destruct (Hfrom k v Hin) as [Hkey Hval]. split.
      * destruct Hkey as [Hkey|Hkey]; [|right; right; exact Hkey].
        apply in_map_iff in Hkey. destruct Hkey as ([k' v'] & <- & Hk').
        destruct (assign_value _ (compFiles_asym (bits env)) file v0 fileColl k' v' Hk')
          as [Hold|(_ & _ & [<-|Hold])].
        -- left. apply in_map_iff. exists (k', v'). auto.
        -- right. left. reflexivity.
        -- left. exact Hold.
      * destruct Hval as [Hnext|(f & Hf & Hu & Hv)].
        -- destruct (assign_value _ (compFiles_asym (bits env)) file v0 fileColl k v Hnext)
             as [Hold|(Hv & Hu & _)]; [left; exact Hold|].
           right. exists file. split; [left; reflexivity | split; [exact Hu | exact Hv]].
        -- right. exists f. split; [right; exact Hf | split; [exact Hu | exact Hv]].
    + intros k Hk. apply Hkeys. subst next. apply assign_keeps_keys. exact Hk.
    + intros f [<-|Hf]; [|apply Hcover; exact Hf].
      destruct (assign_stores _ (compFiles_asym (bits env)) file v0 fileColl) as (k & Hin & Hu).
      fold next in Hin.
      assert (Hk : In k (map fst (collected slocs files next))).
      { rewrite <- Hresult. apply Hkeys. apply in_map_iff. exists (k, v0). auto. }
      rewrite <- Hresult in Hk.
      apply in_map_iff in Hk. destruct Hk as ([k' v'] & Heq & Hk). simpl in Heq. subst k'.
      exists k, v'. split; [exact Hk | exact Hu].
    + pose proof (assign_length (compFiles (bits env)) file v0 fileColl) as Hl.
      fold next in Hl. simpl. lia.
Qed.

(** X16. The lines of [displaySlocs]. The collection it shows is a map
    ordered by [compFiles], so the lines ascend in that order and no two of
    them have names that [compFiles] does not order. Every line names a
    file of the file map and shows the line count of a file that [compFiles]
    does not tell from it; every file of the file map is told from no
    line's file at least once. So a file stored twice, or two files such as
    x.h and x.a, share one line, and there are at most as many lines as
    stored files. The total is the wrapped sum of the counts shown. *)
Theorem displaySlocs_writes_one_line_per_key (e : Exec) :
  let fileColl := collected (slocMap_ e) (storedInOrder e) [] in
  trace (displaySlocs e) =
    trace e ++ [Flush Rslt; Flush Demo; Flush Dbug]
            ++ sTitle "File Size - Source Lines of Code" 3 92
            ++ map slocLine fileColl
            ++ [totalLine fileColl; Write Rslt NL] /\
  StronglySorted (fun a b => compFiles (bits env) (fst a) (fst b) = true) fileColl /\
  (forall (k : File) (v : N),
      In (k, v) fileColl ->
      In k (storedInOrder e) /\
      exists file : File,
        In file (storedInOrder e) /\ unordered (compFiles (bits env)) k file /\
        v = subscript 0%N (slocMap_ e) (getName env file)) /\
  (forall file : File,
      In file (storedInOrder e) ->
      exists (k : File) (v : N),
        In (k, v) fileColl /\ unordered (compFiles (bits env)) k file) /\
  length fileColl <= length (storedInOrder e).
Proof.
  intros fileColl.
  destruct (collected_invariant (slocMap_ e) (storedInOrder e) [])
    as (Hsorted & Hfrom & _ & Hcover & Hlen).
  cbv zeta in Hsorted, Hfrom, Hcover, Hlen. fold fileColl in Hsorted, Hfrom, Hcover, Hlen.
  split; [rewrite displaySlocs_value; reflexivity|].
  split; [apply Hsorted; constructor|].
  split; [|split; [exact Hcover | exact Hlen]].
  intros k v Hin. destruct (Hfrom k v Hin) as [[[]|Hkey] [[]|Hval]].
  split; [exact Hkey | exact Hval].
Qed.

End Displays.

(** The map yields "*.cs" first and "*.h" last, and still the headers are
    processed first. *)
Example sample_bucket_order :
  map fst (bucketOrder (sampleEnv true) (fileMap_ sampleExec))
    = ["*.cs"; "*.cpp"; "*.hpp"; "*.h"] /\
  cppHeaderFiles (sampleEnv true) sampleExec
    = ["C:\src\t.hpp"; "C:\src\a.h"; "C:\src\missing.h"] /\
  cppImplemFiles (sampleEnv true) sampleExec = ["C:\src\a.cpp"] /\
  csharpFiles (sampleEnv true) sampleExec = ["C:\src\p.cs"].
Proof. vm_compute. repeat split. Qed.

(** ** The statements at work on the sample installation *)

(** The sample run calls each pass once and returns 0; a run without
    arguments calls none; a parser that throws at [a.h] ends the run in the
    handler. *)
Lemma passes_once_after_all_parsing_witness :
  let run := snd (main (sampleEnv true) noThrow sampleArgv) in
  fst (main (sampleEnv true) noThrow sampleArgv) = Returned 0 /\
  occurrences isComplexityEval run = 1 /\
  occurrences isDependencyTable run = 1 /\
  occurrences isPass (snd (main (sampleEnv true) noThrow ["analyzer"])) = 0 /\
  exists (what : string) (before : list Event),
    thrown sampleThrows what /\
    snd (main (sampleEnv true) sampleThrows sampleArgv) = before ++ caught what.
Proof.
  destruct (passes_once_after_all_parsing (sampleEnv true) noThrow sampleArgv)
    as (Hok & _ & _).
  destruct (passes_once_after_all_parsing (sampleEnv true) noThrow ["analyzer"])
    as (_ & _ & Hno).
  destruct (passes_once_after_all_parsing (sampleEnv true) sampleThrows sampleArgv)
    as (Hbad & _ & _).
  assert (Hctor : CodeAnalysisExecutive (sampleEnv true) = Ok sampleConstructed)
    by reflexivity.
  assert (Hcmd : ProcessCommandLine (sampleEnv true) sampleArgv sampleConstructed
                 = (true, sampleRead)) by (vm_compute; reflexivity).
  destruct (Hok sampleConstructed sampleRead Hctor Hcmd)
    as (_ & _ & _ & _ & _ & Hzero & _ & Hquiet).
  assert (Hret : fst (main (sampleEnv true) noThrow sampleArgv) = Returned 0)
    by (apply Hquiet; intros t c; reflexivity).
  destruct (Hzero Hret) as (_ & H1 & H2).
  destruct (Hbad sampleConstructed sampleRead Hctor Hcmd)
    as (_ & _ & _ & _ & _ & _ & Hthrown & _).
  assert (Hne : fst (main (sampleEnv true) sampleThrows sampleArgv) <> Returned 0)
    by (vm_compute; discriminate).
  destruct (Hthrown Hne) as (what & before & Hw & _ & Hb).
  split; [exact Hret|]. split; [exact H1|]. split; [exact H2|]. split.
  - apply (Hno sampleConstructed Hctor). reflexivity.
  - exists what, before. split; [exact Hw | exact Hb].
Defined.

(** The header that cannot be opened, between two that can. *)
Lemma unopenable_file_is_skipped_witness :
  let env := sampleEnv true in
  let e0 := fold_left (processFile env Headers true) ["C:\src\t.hpp"; "C:\src\a.h"] sampleExec in
  let e1 := processFile env Headers true e0 "C:\src\missing.h" in
  openFile env "C:\src\missing.h" = None /\
  slocMap_ e1 = slocMap_ e0 /\
  getGlobalScope (pRepo_ e1) = getGlobalScope (pRepo_ e0) /\
  fold_left (processFile env Headers true)
            (["C:\src\t.hpp"; "C:\src\a.h"] ++ "C:\src\missing.h" :: ["C:\src\late.h"])
            sampleExec
    = fold_left (processFile env Headers true) ["C:\src\late.h"] e1.
Proof.
  intros env e0 e1.
  destruct (unopenable_file_is_skipped env Headers true sampleExec
              ["C:\src\t.hpp"; "C:\src\a.h"] ["C:\src\late.h"] "C:\src\missing.h" eq_refl)
    as (_ & _ & _ & _ & _ & Htree & Hsloc & Hrest & _).
  split; [reflexivity|]. split; [exact Hsloc|]. split; [exact Htree | exact Hrest].
Defined.


(** The sample file map is keyed by extension. *)
Lemma sample_stored_by_extension :
  storedByExtension (sampleEnv true) (bucketOrder (sampleEnv true) (fileMap_ sampleExec)).
Proof.
  intros key files file Hitem Hfile.
  assert (Hitems : bucketOrder (sampleEnv true) (fileMap_ sampleExec) =
                     [("*.cs", ["C:\src\p.cs"]); ("*.cpp", ["C:\src\a.cpp"]);
                      ("*.hpp", ["C:\src\t.hpp"]);
                      ("*.h", ["C:\src\a.h"; "C:\src\missing.h"])])
    by (vm_compute; reflexivity).
  rewrite Hitems in Hitem. clear Hitems. simpl in Hitem.
  repeat match goal with
         | H : _ \/ _ |- _ => destruct H as [H|H]
         | H : (_, _) = (_, _) |- _ => injection H as <- <-
         | H : False |- _ => destruct H
         end;
    simpl in Hfile;
    repeat match goal with
           | H : _ \/ _ |- _ => destruct H as [H|H]
           | H : False |- _ => destruct H
           end;
    subst file; reflexivity.
Qed.

(** The header [a.h] of the sample installation. *)
Lemma opened_file_sets_context_once_witness :
  let env := sampleEnv true in
  let e1 := processFile env Headers true sampleExec "C:\src\a.h" in
  package (pRepo_ e1) = "a.h" /\
  language (pRepo_ e1) = Cpp /\
  currentPath (pRepo_ e1) = "C:\src\a.h" /\
  slocMap_ e1 = <["a.h" := 2%N]> (slocMap_ sampleExec).
Proof.
  intros env e1.
  assert (Hin : In "C:\src\a.h" (phaseFiles env Headers sampleExec))
    by (vm_compute; tauto).
  destruct (opened_file_sets_context_once env Headers true sampleExec "C:\src\a.h"
              (mkSource [["class"; "a.h"; "{"]; ["}"]] 2)
              sample_stored_by_extension Hin eq_refl)
    as (_ & _ & _ & _ & _ & Hpkg & Hpath & _ & Hcpp & _ & _ & Hsloc).
  split; [exact Hpkg|]. split; [apply Hcpp; left; reflexivity|].
  split; [exact Hpath | exact Hsloc].
Defined.

(** A name with no entry: the table gains one. *)
Lemma fileSLOCs_adds_entry_for_unknown_name :
  slocMap_ sampleConstructed !! "nothing.h" = None /\
  slocMap_ (snd (fileSLOCs "nothing.h" sampleConstructed)) !! "nothing.h" = Some 0%N /\
  slocMap_ (snd (fileSLOCs "nothing.h" sampleConstructed)) <> slocMap_ sampleConstructed.
Proof.
  assert (Hnew : slocMap_ (snd (fileSLOCs "nothing.h" sampleConstructed)) !! "nothing.h"
                 = Some 0%N) by (vm_compute; reflexivity).
  assert (Hold : slocMap_ sampleConstructed !! "nothing.h" = None)
    by (vm_compute; reflexivity).
  split; [exact Hold|]. split; [exact Hnew|].
  intros H. rewrite H, Hold in Hnew. discriminate Hnew.
Qed.

(** A node whose end line lies two lines before its start line: the size
    shown is [2 ^ 64 - 1], not [3 - 5 + 1]. *)
Lemma size_column_wraps_when_end_precedes_start :
  let pNode := mkASTNode "function" "f" "a.cpp" 5 3 1 [] in
  sizeInLines (sampleEnv true) pNode = 18446744073709551615%N /\
  Z.of_N (sizeInLines (sampleEnv true) pNode)
    <> (Z.of_N (endLineCount_ pNode) - Z.of_N (startLineCount_ pNode) + 1)%Z.
Proof. split; [vm_compute; reflexivity|]. vm_compute. discriminate. Qed.

(** A function from line 12 to line 20 has size 9. *)
Lemma size_column_is_wrapped_difference_witness :
  let pNode := mkASTNode "function" "f" "a.cpp" 12 20 1 [] in
  Z.of_N (sizeInLines (sampleEnv true) pNode) = 9%Z.
Proof.
  intros pNode.
  destruct (size_column_is_wrapped_difference (sampleEnv true) "a.cpp" pNode sampleExec)
    as (_ & _ & _ & Hexact).
  apply Hexact; [vm_compute; discriminate | reflexivity].
Defined.

(** The file under "*.hpp" is a header file for the executive; the one
    under "*.cs" is not. *)
Lemma dialect_by_substring_of_key_witness :
  let env := sampleEnv true in
  fileMap_ sampleExec !! "*.hpp" = Some ["C:\src\t.hpp"] /\
  contains "*.hpp" "*.h" = true /\
  In "C:\src\t.hpp" (cppHeaderFiles env sampleExec) /\
  ~ In "C:\src\p.cs" (cppHeaderFiles env sampleExec).
Proof.
  intros env.
  assert (Hkey : fileMap_ sampleExec !! "*.hpp" = Some ["C:\src\t.hpp"])
    by (vm_compute; reflexivity).
  assert (Hocc : occursIn "*.h" "*.hpp") by (exists "", "pp"; reflexivity).
  destruct (dialect_by_substring_of_key env true sampleExec Headers (reflexivity _))
    as (_ & Hlisted & Hnone).
  split; [exact Hkey|]. split; [reflexivity|]. split.
  - exact (proj1 (Hlisted "*.hpp" ["C:\src\t.hpp"] "C:\src\t.hpp" Hkey
                    (or_introl eq_refl) Hocc)).
  - apply Hnone. intros key files Hk Hfile Hin.
    assert (Hmap : map_to_list (fileMap_ sampleExec) =
                     [("*.cs", ["C:\src\p.cs"]); ("*.cpp", ["C:\src\a.cpp"]);
                      ("*.hpp", ["C:\src\t.hpp"]);
                      ("*.h", ["C:\src\a.h"; "C:\src\missing.h"])])
      by (vm_compute; reflexivity).
    apply elem_of_map_to_list in Hk. rewrite Hmap in Hk. clear Hmap.
    apply list_elem_of_In in Hk.
    apply (contains_occursIn key "*.h") in Hin; [|discriminate].
    destruct Hk as [Hk|[Hk|[Hk|[Hk|[]]]]]; injection Hk as <- <-;
      [discriminate Hin | | | ];
      repeat (destruct Hfile as [Hfile|Hfile]; [discriminate Hfile|]); exact Hfile.
Defined.

(** The sample command line: two patterns, two options. *)
Lemma ProcessCommandLine_result_witness :
  fst (ProcessCommandLine (sampleEnv true) sampleArgv sampleConstructed) = true /\
  path_ sampleRead = "C:\src" /\
  options_ sampleRead = ["m"%char; "r"%char] /\
  patterns_ sampleRead = ["*.h"; "*.cpp"].
Proof.
  destruct (ProcessCommandLine_result (sampleEnv true) sampleArgv sampleConstructed eq_refl)
    as (_ & Hok).
  assert (Htrue : fst (ProcessCommandLine (sampleEnv true) sampleArgv sampleConstructed)
                  = true) by (vm_compute; reflexivity).
  destruct (Hok Htrue) as (Hpath & Hopts & Hpats).
  split; [exact Htrue|]. split; [exact Hpath|]. split; [exact Hopts | exact Hpats].
Defined.

(** The sample extension function returns text without dot. *)
Lemma afterLastDot_dotFree (s : string) :
  forall acc : option string,
    (dotFree s = true -> AnalFileMgr.afterLastDot acc s = acc) /\
    (dotFree s = false ->
     exists r, AnalFileMgr.afterLastDot acc s = Some r /\ dotFree r = true).
Proof.
  induction s as [|c s IH]; intros acc; simpl.
  - split; [reflexivity | discriminate].
  - destruct (Ascii.eqb c ".") eqn:Hc; simpl.
    + split; [discriminate|]. intros _.
      destruct (dotFree s) eqn:Hs.
      * exists s. split; [apply (IH (Some s)); reflexivity | exact Hs].
      * apply (IH (Some s)). reflexivity.
    + apply IH.
Qed.

Lemma sampleExt_dotFree (f : File) : dotFree (AnalFileMgr.sampleExt f) = true.
Proof.
  unfold AnalFileMgr.sampleExt.
  destruct (afterLastDot_dotFree f None) as [Hfree Hdot].
  destruct (dotFree f) eqn:Hf.
  - rewrite Hfree by reflexivity. reflexivity.
  - destruct (Hdot eq_refl) as (r & -> & Hr). exact Hr.
Qed.

(** The sample header [a.h] is no implementation file and no C# file. *)
Lemma no_file_in_two_loops_witness :
  In "C:\src\a.h" (cppHeaderFiles (sampleEnv true) sampleExec) /\
  ~ In "C:\src\a.h" (cppImplemFiles (sampleEnv true) sampleExec) /\
  ~ In "C:\src\a.h" (csharpFiles (sampleEnv true) sampleExec).
Proof.
  assert (Hin : In "C:\src\a.h" (cppHeaderFiles (sampleEnv true) sampleExec))
    by (vm_compute; tauto).
  destruct (no_file_in_two_loops (sampleEnv true) sampleExec "C:\src\a.h"
              sample_stored_by_extension sampleExt_dotFree) as [Hh _].
  split; [exact Hin | exact (Hh Hin)].
Defined.

(** An opened header followed by the one that cannot be opened. *)
Lemma failed_attach_renames_package_only_witness :
  let env := sampleEnv true in
  let e1 := processFile env Headers true sampleExec "C:\src\a.h" in
  let e2 := processFile env Headers true e1 "C:\src\missing.h" in
  package (pRepo_ e2) = "missing.h" /\
  currentPath (pRepo_ e2) = "C:\src\a.h" /\
  language (pRepo_ e2) = phaseLanguage Headers /\
  getGlobalScope (pRepo_ e2) = getGlobalScope (pRepo_ e1) /\
  slocMap_ e2 = <["a.h" := 2%N]> (slocMap_ sampleExec).
Proof.
  exact (failed_attach_renames_package_only (sampleEnv true) Headers true sampleExec
           "C:\src\a.h" "C:\src\missing.h"
           (mkSource [["class"; "a.h"; "{"]; ["}"]] 2) eq_refl eq_refl).
Defined.

(** The sample directory searched twice. *)
Lemma getSourceFiles_appends_to_the_map_witness :
  let env := sampleEnv true in
  let e2 := getSourceFiles env (getSourceFiles env sampleRead) in
  numFiles e2 = 5%N /\
  AnalFileMgr.storedFiles (fileMap_ e2) = 10.
Proof.
  assert (Hf : (N.of_nat (AnalFileMgr.countFiles
                            (search (sampleEnv true) (path_ sampleRead) (patterns_ sampleRead)))
                < 2 ^ bits (sampleEnv true))%N) by (vm_compute; reflexivity).
  assert (Hd : (N.of_nat (AnalFileMgr.countDirs
                            (search (sampleEnv true) (path_ sampleRead) (patterns_ sampleRead)))
                < 2 ^ bits (sampleEnv true))%N) by (vm_compute; reflexivity).
  destruct (getSourceFiles_appends_to_the_map (sampleEnv true) sampleRead Hf Hd)
    as (_ & _ & _ & _ & Hn & Hs & _).
  split; [exact Hn | exact Hs].
Defined.

(** The sample run: /m starts nothing and /r starts the results logger,
    before and after the standard output is attached. *)
Lemma main_applies_display_modes_twice_witness :
  exists (text : string) (rest : list Event),
    snd (main (sampleEnv true) noThrow sampleArgv) =
      [Start Rslt]
      ++ [AttachStream Rslt StdCout; AttachStream Demo StdCout; AttachStream Dbug StdCout]
      ++ [Start Rslt]
      ++ [Write Rslt text; Flush Rslt; Write Rslt NL]
      ++ rest.
Proof.
  assert (Hcmd : ProcessCommandLine (sampleEnv true) sampleArgv sampleConstructed
                 = (true, sampleRead)) by (vm_compute; reflexivity).
  exact (main_applies_display_modes_twice (sampleEnv true) noThrow sampleArgv
           sampleConstructed sampleRead eq_refl Hcmd).
Defined.

(** A header and the implementation file next to it; x.h against x.a. *)
Lemma compFiles_reads_leading_h_as_a_witness :
  compFiles 64 "C:\src\x.h" "C:\src\x.cpp" = true /\
  compFiles 64 "C:\src\x.h" "C:\src\x.a" = false /\
  compFiles 64 "C:\src\x.a" "C:\src\x.h" = false.
Proof.
  split; [|split].
  - exact (compFiles_reads_leading_h_as_a 64 "C:\src\x" "h" "cpp"
             eq_refl eq_refl eq_refl eq_refl).
  - exact (compFiles_reads_leading_h_as_a 64 "C:\src\x" "h" "a"
             eq_refl eq_refl eq_refl eq_refl).
  - exact (compFiles_reads_leading_h_as_a 64 "C:\src\x" "a" "h"
             eq_refl eq_refl eq_refl eq_refl).
Defined.

(** The walk of a class with one function, with details. *)
Lemma TreeWalk_writes_every_node_in_preorder_witness :
  TreeWalk (sampleEnv true) sampleShow package_ sampleClass true
           (Static.mk "" 0, sampleConstructed)
  = (Static.mk "a.h" 0,
     emits [Write Rslt (NL +:+ "a.h"); Write Rslt (NL +:+ "  (class, A)");
            Write Rslt (NL +:+ "    (function, f)")] sampleConstructed).
Proof.
  apply (TreeWalk_writes_every_node_in_preorder (sampleEnv true) sampleShow package_
           sampleClass true (Static.mk "" 0) sampleConstructed).
  repeat constructor.
Defined.

(** The display of the sample tree. *)
Lemma displayAST_writes_the_tree_and_keeps_the_statics_witness :
  let shown := displayAST (sampleEnv true) sampleShow package_ (fun _ => [])
                          (Static.mk "a.cpp" 0, sampleAnalysed) in
  fst shown = Static.mk "a.cpp" 0 /\
  trace (snd shown) =
    [Flush Rslt; Flush Demo; Flush Dbug;
     Write Rslt (NL +:+ "  (namespace, Global Namespace)");
     Write Rslt (NL +:+ "    (class, A)");
     Write Rslt (NL +:+ "      (function, f)");
     Write Rslt (NL +:+ "    (function, main)");
     Write Rslt NL].
Proof.
  assert (Hfits : fits (sampleEnv true)
                       (preorder (Static.indentLevel (Static.mk "a.cpp" 0))
                                 (getGlobalScope (pRepo_ sampleAnalysed))))
    by (repeat constructor).
  destruct (displayAST_writes_the_tree_and_keeps_the_statics
              (sampleEnv true) sampleShow package_ (fun _ => [])
              (Static.mk "a.cpp" 0) sampleAnalysed Hfits) as [Hone _].
  cbv zeta. rewrite Hone. split; reflexivity.
Defined.

(** The sample search finds [p.cs] and [a.cpp] before [a.h]; the run takes
    the headers first, and [a.h] to its end before [a.cpp]. *)
Lemma headers_then_implems_then_csharp_witness :
  let env := sampleEnv true in
  let run := trace (processSourceCode env true sampleExec) in
  flat_map snd (bucketOrder env (fileMap_ sampleExec))
    = ["C:\src\p.cs"; "C:\src\a.cpp"; "C:\src\t.hpp"; "C:\src\a.h"; "C:\src\missing.h"] /\
  cppHeaderFiles env sampleExec = ["C:\src\t.hpp"; "C:\src\a.h"; "C:\src\missing.h"] /\
  exists t1 t2 t3 : list Event,
    run = t1 ++ fileEvents env Headers true (loggers sampleExec) "C:\src\a.h"
             ++ t2 ++ fileEvents env Implems true (loggers sampleExec) "C:\src\a.cpp" ++ t3.
Proof.
  intros env run.
  destruct (headers_then_implems_then_csharp env true sampleExec (reflexivity _)
              sample_stored_by_extension sampleExt_dotFree)
    as (_ & _ & Hphase & _ & _ & Horder & _).
  assert (Hfound : flat_map snd (bucketOrder env (fileMap_ sampleExec))
                   = ["C:\src\p.cs"; "C:\src\a.cpp"; "C:\src\t.hpp"; "C:\src\a.h";
                      "C:\src\missing.h"]) by (vm_compute; reflexivity).
  split; [exact Hfound|]. split.
  - change (cppHeaderFiles env sampleExec) with (phaseFiles env Headers sampleExec).
    rewrite (Hphase Headers), Hfound. vm_compute. reflexivity.
  - apply Horder; rewrite Hfound; vm_compute; tauto.
Defined.

End ExecutiveFacts.
